(** * News API: read tracking, analytics aggregation and scheduler start-up

  A shallow embedding of the read-tracking gate of
  [ArticleController.getById], of the two aggregation routines
  ([runAggregationNow], [processAggregation]) and of the start-up
  sequence of the server ([checkRedis], [startServer]), together with
  the properties the specification states about them. *)

From Stdlib Require Import ZArith Lia Ascii String.
From stdpp Require Import base option list list_numbers sorting strings gmap fin_maps.

(** ** ECMAScript date arithmetic

  A JavaScript [Date] is its time value: milliseconds since
  1970-01-01T00:00:00Z, here an integer.  The functions below follow
  the abstract operations of the ECMAScript specification that the
  methods [getUTCFullYear], [getUTCMonth], [getUTCDate] and the
  function [Date.UTC] are defined by.  The dates of the program are
  valid ones (columns of the database, the clock), so the clipping of
  time values beyond 8.64e15 ms to an invalid date plays no part. *)
Module JsDate.
Local Open Scope Z_scope.

Definition msPerDay : Z := 86400000.

Definition Day (t : Z) : Z := t / msPerDay.

Definition TimeWithinDay (t : Z) : Z := t mod msPerDay.

Definition DaysInYear (y : Z) : Z :=
  if negb (y mod 4 =? 0) then 365
  else if negb (y mod 100 =? 0) then 366
  else if negb (y mod 400 =? 0) then 365
  else 366.

Definition DayFromYear (y : Z) : Z :=
  365 * (y - 1970) + (y - 1969) / 4 - (y - 1901) / 100 + (y - 1601) / 400.

Definition TimeFromYear (y : Z) : Z := msPerDay * DayFromYear y.

(** The largest year whose first day is not after [t].  The candidate
    [y0] comes from the mean length of a Gregorian year (146097 days
    in 400 years); the year is [y0] or one of its two neighbours. *)
Definition YearFromTime (t : Z) : Z :=
  let d := Day t in
  let y0 := 1970 + (400 * d) / 146097 in
  if DayFromYear (y0 + 1) <=? d then y0 + 1
  else if DayFromYear y0 <=? d then y0
  else y0 - 1.

Definition InLeapYear (t : Z) : Z :=
  if DaysInYear (YearFromTime t) =? 366 then 1 else 0.

Definition DayWithinYear (t : Z) : Z := Day t - DayFromYear (YearFromTime t).

Definition MonthFromTime (t : Z) : Z :=
  let d := DayWithinYear t in
  let l := InLeapYear t in
  if d <? 31 then 0
  else if d <? 59 + l then 1
  else if d <? 90 + l then 2
  else if d <? 120 + l then 3
  else if d <? 151 + l then 4
  else if d <? 181 + l then 5
  else if d <? 212 + l then 6
  else if d <? 243 + l then 7
  else if d <? 273 + l then 8
  else if d <? 304 + l then 9
  else if d <? 334 + l then 10
  else 11.

(** Number of days of the year that precede month [m] (0 = January),
    [l] being 1 in a leap year. *)
Definition monthStart (m l : Z) : Z :=
  if m =? 0 then 0
  else if m =? 1 then 31
  else if m =? 2 then 59 + l
  else if m =? 3 then 90 + l
  else if m =? 4 then 120 + l
  else if m =? 5 then 151 + l
  else if m =? 6 then 181 + l
  else if m =? 7 then 212 + l
  else if m =? 8 then 243 + l
  else if m =? 9 then 273 + l
  else if m =? 10 then 304 + l
  else 334 + l.

Definition DateFromTime (t : Z) : Z :=
  DayWithinYear t - monthStart (MonthFromTime t) (InLeapYear t) + 1.

Definition MakeTime (hour min sec ms : Z) : Z :=
  hour * 3600000 + min * 60000 + sec * 1000 + ms.

(** [MakeDay]: the day number of the first of the month, plus
    [date - 1]; months outside 0..11 carry into the year. *)
Definition MakeDay (year month date : Z) : Z :=
  let ym := year + month / 12 in
  let mn := month mod 12 in
  let l := if DaysInYear ym =? 366 then 1 else 0 in
  DayFromYear ym + monthStart mn l + date - 1.

Definition MakeDate (day time : Z) : Z := day * msPerDay + time.

(** [Date.UTC(year, month, date)]: a year from 0 to 99 means
    1900 + year. *)
Definition Date_UTC (year month date : Z) : Z :=
  let yr := if (0 <=? year) && (year <=? 99) then 1900 + year else year in
  MakeDate (MakeDay yr month date) (MakeTime 0 0 0 0).

Definition getUTCFullYear (t : Z) : Z := YearFromTime t.
Definition getUTCMonth (t : Z) : Z := MonthFromTime t.
Definition getUTCDate (t : Z) : Z := DateFromTime t.

(** The time value of an instant written as in an ISO 8601 string
    [YYYY-MM-DDTHH:mm:ssZ] (months from 1). *)
Definition isoInstant (y mo d h mi s : Z) : Z :=
  MakeDate (MakeDay y (mo - 1) d) (MakeTime h mi s 0).

(** The calendar date [(year, month from 1, day)] an ISO string of the
    time value starts with. *)
Definition isoDate (t : Z) : Z * Z * Z :=
  (YearFromTime t, MonthFromTime t + 1, DateFromTime t).

Definition HourFromTime (t : Z) : Z := (t / 3600000) mod 24.
Definition MinFromTime (t : Z) : Z := (t / 60000) mod 60.
Definition SecFromTime (t : Z) : Z := (t / 1000) mod 60.
Definition msFromTime (t : Z) : Z := t mod 1000.

(** The last [width] decimal digits of [n]. *)
Fixpoint decimal (width : nat) (n : Z) : string :=
  match width with
  | O => EmptyString
  | S w =>
      String.append (decimal w (n / 10))
                    (String (ascii_of_N (Z.to_N (48 + n mod 10))) EmptyString)
  end.

(** [toISOString()]: four digits for the years 0 to 9999, a sign and
    six digits for the others. *)
Definition toISOString (t : Z) : string :=
  let y := YearFromTime t in
  let year :=
    if (0 <=? y) && (y <=? 9999) then decimal 4 y
    else String.append (if y <? 0 then "-" else "+") (decimal 6 (Z.abs y)) in
  String.concat EmptyString
    [ year; "-"; decimal 2 (MonthFromTime t + 1); "-"; decimal 2 (DateFromTime t);
      "T"; decimal 2 (HourFromTime t); ":"; decimal 2 (MinFromTime t);
      ":"; decimal 2 (SecFromTime t); "."; decimal 3 (msFromTime t); "Z" ]%string.

Global Arguments toISOString : simpl never.
Global Arguments Day : simpl never.
Global Arguments DayFromYear : simpl never.
Global Arguments YearFromTime : simpl never.
Global Arguments MonthFromTime : simpl never.
Global Arguments DateFromTime : simpl never.
Global Arguments MakeDay : simpl never.
Global Arguments Date_UTC : simpl never.
End JsDate.

(** ** JavaScript objects used as dictionaries

  An ordinary object keeps its own string-keyed properties in creation
  order, except that [Object.entries] (like every own-key enumeration)
  lists the keys that are array indices first, in ascending numeric
  order, and the remaining keys in creation order after them.  The
  container is generic in the key so that it also serves for objects
  whose keys are rendered ISO date strings, which are never array
  indices. *)
Module JsObject.
Local Open Scope N_scope.

Definition digit (c : ascii) : option N :=
  let n := N_of_ascii c in
  if (48 <=? n) && (n <=? 57) then Some (n - 48) else None.

Fixpoint digits_value (s : string) (acc : N) : option N :=
  match s with
  | EmptyString => Some acc
  | String c r =>
      match digit c with
      | Some d => digits_value r (10 * acc + d)
      | None => None
      end
  end.

(** A property key is an array index when it is the canonical decimal
    form of an integer from 0 to 2^32 - 2. *)
Definition array_index (s : string) : option N :=
  match s with
  | EmptyString => None
  | String c r =>
      if (N_of_ascii c =? 48) && negb (String.eqb r EmptyString) then None
      else match digits_value s 0 with
           | Some v => if v <? 4294967295 then Some v else None
           | None => None
           end
  end.

Section Obj.
Context {K V : Type} `{EqDecision K}.
Variable index : K -> option N.

(** [o[k]] for an own property, [None] standing for [undefined]. *)
Fixpoint get (o : list (K * V)) (k : K) : option V :=
  match o with
  | [] => None
  | (k', v) :: r => if decide (k' = k) then Some v else get r k
  end.

(** [o[k] = v]: an existing property keeps its place, a new one is
    created after all others. *)
Fixpoint set (o : list (K * V)) (k : K) (v : V) : list (K * V) :=
  match o with
  | [] => [(k, v)]
  | (k', v') :: r =>
      if decide (k' = k) then (k', v) :: r else (k', v') :: set r k v
  end.

Fixpoint insert_by_index (e : N * (K * V)) (l : list (N * (K * V)))
  : list (N * (K * V)) :=
  match l with
  | [] => [e]
  | e' :: r => if fst e <? fst e' then e :: l else e' :: insert_by_index e r
  end.

Definition index_entries (o : list (K * V)) : list (N * (K * V)) :=
  omap (fun kv => match index (fst kv) with
                  | Some i => Some (i, kv)
                  | None => None
                  end) o.

Definition named_entries (o : list (K * V)) : list (K * V) :=
  filter (fun kv => index (fst kv) = None) o.

(** [Object.entries(o)]. *)
Definition entries (o : list (K * V)) : list (K * V) :=
  map snd (foldr insert_by_index [] (index_entries o)) ++ named_entries o.
End Obj.

(** An object written [{}] has [Object.prototype] for prototype, and a
    read [o[k]] that finds no own property goes on there.  These are
    the function members of [Object.prototype]; beside them it has the
    accessor [__proto__], which returns the prototype of the object it
    is read on. *)
Definition prototype_functions : list string :=
  [ "constructor"; "__defineGetter__"; "__defineSetter__"; "hasOwnProperty";
    "__lookupGetter__"; "__lookupSetter__"; "isPrototypeOf";
    "propertyIsEnumerable"; "toString"; "valueOf"; "toLocaleString" ]%string.

(** The keys under which every plain object finds a built-in member. *)
Definition inherited (k : string) : bool :=
  String.eqb k "__proto__" || existsb (String.eqb k) prototype_functions.
End JsObject.

(** ** Analytics aggregation (jobs/aggregation.fallback.ts, jobs/analytics.job.ts) *)
Module Aggregation.
Import JsDate.

(** A row of the ReadLog table. *)
Record ReadLog := mkReadLog {
  articleId : string;
  readerId : option string;
  readAt : Z
}.

(** The DailyAnalytics table: [viewCount] under the unique key
    [articleId_date]. *)
Abbreviation AnalyticsTable := (gmap (string * Z) nat).

(** What the storage layer does to the calls of one run: whether the
    query of the read logs is rejected, and which upserts are. *)
Record Faults := mkFaults {
  findMany_fails : bool;
  upsert_fails : string -> Z -> bool
}.

Definition no_faults : Faults :=
  {| findMany_fails := false; upsert_fails := fun _ _ => false |}.

(** One [prisma.dailyAnalytics.upsert] call: the arguments and the
    table it leaves, [None] when the call is rejected.  [update] and
    [create] both write the given [viewCount]. *)
Definition upsert (f : Faults) (tbl : AnalyticsTable)
    (a : string) (date : Z) (viewCount : nat) : option AnalyticsTable :=
  if upsert_fails f a date then None
  else Some (<[(a, date) := viewCount]> tbl).

(** The key of the GMT day of a read: the time value of
    [new Date(Date.UTC(y, m, d))].  The source keeps it as the ISO
    string of that date and parses the string back before the upsert;
    the string determines the time value and is never an array
    index. *)
Definition dateKey (t : Z) : Z :=
  Date_UTC (getUTCFullYear t) (getUTCMonth t) (getUTCDate t).

Global Arguments dateKey : simpl never.

Abbreviation Dates := (list (Z * nat)).
Abbreviation Grouped := (list (string * list (Z * nat))).

Definition no_index (_ : Z) : option N := None.

(** What the runs of a process have written outside their own
    objects, and how its code is compiled.  [grouped] is a plain
    object, so a read [grouped[id]] that finds no own property finds
    the members of [Object.prototype]: under [__proto__] the prototype
    itself, under the name of a function member that function, and
    under an ISO date string a count that an earlier read under
    [__proto__] has put on the prototype.  The counts written through
    such a base land on the prototype ([onPrototype], by the time
    value of their ISO string) or on the function ([onFunctions], by
    member name), and stay there for the later runs of the process.
    A module is strict code when the compiler emits it so; that
    decides what an assignment to a property of a number does. *)
Record Realm := mkRealm {
  strictCode : bool;
  onPrototype : Dates;
  onFunctions : Grouped
}.

(** The realm of a process before its first run. *)
Definition fresh_realm (strict : bool) : Realm := mkRealm strict [] [].

(** What [grouped[id]] evaluates to, when it is not [undefined]. *)
Inductive Found :=
| OwnObject (dates : Dates)      (* an object the loop has made *)
| ThePrototype                   (* [Object.prototype], under [__proto__] *)
| AFunction (name : string)      (* a function member of the prototype *)
| ANumber (n : nat).             (* a count left on the prototype *)

Definition grouped_get (realm : Realm) (grouped : Grouped) (id : string)
  : option Found :=
  match JsObject.get grouped id with
  | Some dates => Some (OwnObject dates)
  | None =>
      if String.eqb id "__proto__" then Some ThePrototype
      else if existsb (String.eqb id) JsObject.prototype_functions
      then Some (AFunction id)
      else match List.find (fun kv => String.eqb (toISOString (fst kv)) id)
                           (onPrototype realm) with
           | Some (_, n) => Some (ANumber n)
           | None => None
           end
  end.

(** Whether [!grouped[id]] is false. *)
Definition truthy (v : option Found) : bool :=
  match v with
  | None => false
  | Some (ANumber n) => negb (n =? 0)%nat
  | Some _ => true
  end.

(** [o[k] || 0] on an object with the own properties [own] whose
    prototype chain ends in [Object.prototype]; a date key is the name
    of no built-in member. *)
Definition count_under (realm : Realm) (own : Dates) (k : Z) : nat :=
  match JsObject.get own k with
  | Some n => n
  | None => default 0%nat (JsObject.get (onPrototype realm) k)
  end.

(** The body of the grouping loop on one read log: the realm and
    [grouped] after it, or the realm alone when it throws (a
    [TypeError], which the [catch] of the run receives). *)
Definition group_log (realm : Realm) (grouped : Grouped) (log : ReadLog)
  : Realm * option Grouped :=
  let id := articleId log in
  let k := dateKey (readAt log) in
  (* if (!grouped[id]) grouped[id] = {} *)
  let grouped1 :=
    if truthy (grouped_get realm grouped id) then grouped
    else JsObject.set grouped id [] in
  (* grouped[id][k] = (grouped[id][k] || 0) + 1 *)
  match grouped_get realm grouped1 id with
  | Some (OwnObject dates) =>
      (realm,
       Some (JsObject.set grouped1 id
               (JsObject.set dates k (count_under realm dates k + 1)%nat)))
  | Some ThePrototype =>
      let n := default 0%nat (JsObject.get (onPrototype realm) k) in
      (mkRealm (strictCode realm)
               (JsObject.set (onPrototype realm) k (n + 1)%nat)
               (onFunctions realm),
       Some grouped1)
  | Some (AFunction name) =>
      let own := default [] (JsObject.get (onFunctions realm) name) in
      (mkRealm (strictCode realm) (onPrototype realm)
               (JsObject.set (onFunctions realm) name
                  (JsObject.set own k (count_under realm own k + 1)%nat)),
       Some grouped1)
  | Some (ANumber _) =>
      (* a property of a number: strict code throws, other code goes on *)
      if strictCode realm then (realm, None) else (realm, Some grouped1)
  | None => (realm, None)
  end.

(** The grouping loop, from [grouped = {}] on. *)
Fixpoint group_loop (realm : Realm) (grouped : Grouped) (logs : list ReadLog)
  : Realm * option Grouped :=
  match logs with
  | [] => (realm, Some grouped)
  | log :: rest =>
      match group_log realm grouped log with
      | (realm1, Some grouped1) => group_loop realm1 grouped1 rest
      | (realm1, None) => (realm1, None)
      end
  end.

Definition group_logs (realm : Realm) (logs : list ReadLog)
  : Realm * option Grouped :=
  group_loop realm [] logs.

(** Article ids under which a plain object finds nothing built in, as
    the identifiers have that the database gives out. *)
Definition plain_ids (logs : list ReadLog) : Prop :=
  Forall (fun log => JsObject.inherited (articleId log) = false) logs.

(** The loop body on a dictionary of own properties alone.  This is
    what [group_log] does to [grouped] when the article id is plain
    and the prototype carries no count (lemma [group_log_plain]); the
    counting facts are proved on it and carried over to [group_log]. *)
Definition tally (grouped : Grouped) (log : ReadLog) : Grouped :=
  let k := dateKey (readAt log) in
  let grouped1 :=
    match JsObject.get grouped (articleId log) with
    | Some _ => grouped
    | None => JsObject.set grouped (articleId log) []
    end in
  let dates := default [] (JsObject.get grouped1 (articleId log)) in
  let n := default 0%nat (JsObject.get dates k) in
  JsObject.set grouped1 (articleId log) (JsObject.set dates k (n + 1)%nat).

Definition tallies (logs : list ReadLog) : Grouped :=
  fold_left tally logs [].

(** The upsert calls of the two nested loops, in order. *)
Definition upsert_calls (grouped : Grouped) : list (string * Z * nat) :=
  flat_map (fun '(a, dates) =>
              map (fun '(d, n) => (a, d, n))
                  (JsObject.entries no_index dates))
           (JsObject.entries JsObject.array_index grouped).

(** [grouped[a][d]]. *)
Definition grouped_count (grouped : Grouped) (a : string) (d : Z) : option nat :=
  match JsObject.get grouped a with
  | Some dates => JsObject.get dates d
  | None => None
  end.

(** The number of reads of article [a] whose GMT day has key [d]. *)
Definition reads_on (a : string) (d : Z) (logs : list ReadLog) : nat :=
  length (filter (fun log => articleId log = a /\ dateKey (readAt log) = d) logs).

(** The table after a list of upserts that were all accepted. *)
Definition apply_upserts (calls : list (string * Z * nat)) (tbl : AnalyticsTable)
  : AnalyticsTable :=
  fold_left (fun t '(a, d, n) => <[(a, d) := n]> t) calls tbl.

Definition accepted (f : Faults) (call : string * Z * nat) : Prop :=
  upsert_fails f (fst (fst call)) (snd (fst call)) = false.

(** Own keys are distinct, in the outer object and in each inner one. *)
Definition grouped_wf (grouped : Grouped) : Prop :=
  NoDup (map fst grouped) /\ Forall (fun e => NoDup (map fst (snd e))) grouped.

Inductive Outcome :=
| NoLogs                            (* "No read logs found to aggregate." *)
| Complete (upsertCount : nat)      (* "Aggregation complete: ..." *)
| Failed                            (* caught and logged by the run *)
| Thrown.                           (* logged and rethrown to the caller *)

Record Run := mkRun {
  table : AnalyticsTable;
  attempted : list (string * Z * nat);
  outcome : Outcome
}.

(** The awaited upserts, one after the other; a rejected one leaves
    the loop. *)
Fixpoint upsert_loop (f : Faults) (calls : list (string * Z * nat))
    (tbl : AnalyticsTable) (done : list (string * Z * nat)) (count : nat)
  : AnalyticsTable * list (string * Z * nat) * option nat :=
  match calls with
  | [] => (tbl, done, Some count)
  | (a, d, n) :: rest =>
      match upsert f tbl a d n with
      | Some tbl' => upsert_loop f rest tbl' (done ++ [(a, d, n)]) (S count)
      | None => (tbl, done ++ [(a, d, n)], None)
      end
  end.

(** [runAggregationNow()] in a process whose realm is [realm]: the
    run and the realm it leaves.  The whole body is inside one [try];
    its [catch] logs and returns. *)
Definition runAggregationNow (realm : Realm) (f : Faults) (logs : list ReadLog)
    (tbl : AnalyticsTable) : Run * Realm :=
  if findMany_fails f then (mkRun tbl [] Failed, realm)
  else
    let allReadLogs := logs in
    if (length allReadLogs =? 0)%nat then (mkRun tbl [] NoLogs, realm)
    else
      match group_logs realm allReadLogs with
      | (realm1, None) => (mkRun tbl [] Failed, realm1)
      | (realm1, Some grouped) =>
          match upsert_loop f (upsert_calls grouped) tbl [] 0 with
          | (tbl', done, Some upsertCount) =>
              (mkRun tbl' done (Complete upsertCount), realm1)
          | (tbl', done, None) => (mkRun tbl' done Failed, realm1)
          end
      end.

(** [prisma.readLog.groupBy({by: ['articleId'], where: {readAt: {gte,
    lt}}, _count: {id: true}})]: one entry per article with a row in
    the range, with the number of those rows. *)
Definition in_range (gte lt : Z) (log : ReadLog) : bool :=
  (gte <=? readAt log)%Z && (readAt log <? lt)%Z.

Definition count_article (a : string) (logs : list ReadLog) : nat :=
  length (filter (fun log => articleId log = a) logs).

Definition groupBy_articleId (gte lt : Z) (logs : list ReadLog)
  : list (string * nat) :=
  let rows := filter (fun log => in_range gte lt log = true) logs in
  map (fun a => (a, count_article a rows)) (remove_dups (map articleId rows)).

Definition yesterday_of (now : Z) : Z :=
  Date_UTC (getUTCFullYear now) (getUTCMonth now) (getUTCDate now - 1).

Definition today_of (now : Z) : Z :=
  Date_UTC (getUTCFullYear now) (getUTCMonth now) (getUTCDate now).

Global Arguments yesterday_of : simpl never.
Global Arguments today_of : simpl never.

(** [processAggregation()] run at the instant [now]: the [catch] logs
    and rethrows. *)
Definition processAggregation (f : Faults) (now : Z) (logs : list ReadLog)
    (tbl : AnalyticsTable) : Run :=
  let yesterday := yesterday_of now in
  let today := today_of now in
  if findMany_fails f then mkRun tbl [] Thrown
  else
    let aggregatedReads := groupBy_articleId yesterday today logs in
    match upsert_loop f (map (fun '(a, n) => (a, yesterday, n)) aggregatedReads)
                      tbl [] 0 with
    | (tbl', done, Some n) => mkRun tbl' done (Complete n)
    | (tbl', done, None) => mkRun tbl' done Thrown
    end.

(** The daily job run once at each of the instants [nows], one run
    after the other on the same table, nothing being rejected. *)
Definition incremental_runs (nows : list Z) (logs : list ReadLog)
    (tbl : AnalyticsTable) : AnalyticsTable :=
  fold_left (fun t now => table (processAggregation no_faults now logs t)) nows tbl.

(** The union of what the daily job writes to an empty table at each
    of the instants [nows]. *)
Definition incremental_union (nows : list Z) (logs : list ReadLog)
  : AnalyticsTable :=
  ⋃ (map (fun now => table (processAggregation no_faults now logs ∅)) nows).
End Aggregation.

(** ** Read tracking (controllers/article.controller.ts, services/article.service.ts) *)
Module ReadTracking.
Local Open Scope Z_scope.

Record Article := mkArticle {
  id : string;
  authorId : string;
  deletedAt : option Z
}.

(** [req.user], set by [optionalAuth] from a valid token. *)
Record User := mkUser {
  userId : string;
  role : string
}.

(** The request as the handler sees it; [remoteAddress] tells callers
    apart and is never read by the handler. *)
Record Request := mkRequest {
  params_id : string;
  user : option User;
  remoteAddress : string
}.

Record Response := mkResponse {
  status : nat;
  message : string
}.

Definition READ_RATE_LIMIT_MS : Z := 10000.

(** The module-level [readRateLimit] map and the calls of
    [prisma.readLog.create] issued so far, each with its [articleId]
    and [readerId] ([None] for [null]). *)
Record State := mkState {
  readRateLimit : gmap string Z;
  readLogCreates : list (string * option string)
}.

(** [ArticleService.getById]: [prisma.article.findFirst({where: {id}})];
    the outer [None] is a rejected query. *)
Definition ArticleService_getById (queryFails : bool) (articles : list Article)
    (articleId : string) : option (option Article) :=
  if queryFails then None
  else Some (List.find (fun a => bool_decide (id a = articleId)) articles).

(** [req.user?.userId]. *)
Definition req_userId (req : Request) : option string :=
  match user req with
  | Some u => Some (userId u)
  | None => None
  end.

(** [x || d] on an optional string: [undefined] and the empty string
    are falsy. *)
Definition or_else (x : option string) (d : string) : string :=
  match x with
  | Some s => if bool_decide (s = EmptyString) then d else s
  | None => d
  end.

(** [readerId || null] in [createReadLog]. *)
Definition or_null (x : option string) : option string :=
  match x with
  | Some s => if bool_decide (s = EmptyString) then None else Some s
  | None => None
  end.

Definition rateLimitKey (userId articleId : string) : string :=
  (userId ++ "-" ++ articleId)%string.

(** [!lastRead]: [undefined] and the number 0 are falsy. *)
Definition not_lastRead (lastRead : option Z) : bool :=
  match lastRead with
  | None => true
  | Some t => t =? 0
  end.

(** The condition of the rate-limiting [if]. *)
Definition admits (lastRead : option Z) (now : Z) : bool :=
  not_lastRead lastRead ||
  match lastRead with
  | Some t => READ_RATE_LIMIT_MS <? now - t
  | None => false
  end.

(** [ArticleService.createReadLog]: the create is issued and not
    awaited; a rejection is logged by its own [catch]. *)
Definition createReadLog (articleId : string) (readerId : option string)
    (creates : list (string * option string)) : list (string * option string) :=
  creates ++ [(articleId, or_null readerId)].

(** The clean-up loop: entries older than the cut-off are deleted. *)
Definition cleanup (now : Z) (m : gmap string Z) : gmap string Z :=
  if (10000 <? Z.of_nat (size m)) then
    let cutoff := now - READ_RATE_LIMIT_MS in
    filter (fun kv => ¬ (snd kv < cutoff)) m
  else m.

(** The key a request is rate-limited under. *)
Definition key_of (req : Request) : string :=
  let articleId := params_id req in
  let userId := or_else (req_userId req) "guest" in
  rateLimitKey userId articleId.

(** The rate-limiting [if] of the handler: whether a read log was
    created, and the state after it. *)
Definition gate (st : State) (req : Request) (now : Z) : bool * State :=
  let articleId := params_id req in
  let key := key_of req in
  let lastRead := readRateLimit st !! key in
  if admits lastRead now then
    (true, mkState (<[key := now]> (readRateLimit st))
                   (createReadLog articleId (req_userId req) (readLogCreates st)))
  else (false, st).

(** The read-tracking part of the handler, after the article was
    found live: the gate, then the clean-up. *)
Definition trackRead (st : State) (req : Request) (now : Z) : bool * State :=
  let '(admitted, st1) := gate st req now in
  (admitted, mkState (cleanup now (readRateLimit st1)) (readLogCreates st1)).

(** [ArticleController.getById], [now] being the value of
    [Date.now()]. *)
Definition getById (queryFails : bool) (articles : list Article) (st : State)
    (req : Request) (now : Z) : Response * State :=
  let articleId := params_id req in
  match ArticleService_getById queryFails articles articleId with
  | None => (mkResponse 500 "Internal server error", st)
  | Some None => (mkResponse 404 "Article not found", st)
  | Some (Some article) =>
      match deletedAt article with
      | Some _ => (mkResponse 410 "News article no longer available", st)
      | None =>
          (mkResponse 200 "Article retrieved successfully",
           snd (trackRead st req now))
      end
  end.

(** A sequence of requests with the clock value of each. *)
Fixpoint serve (queryFails : bool) (articles : list Article)
    (reqs : list (Request * Z)) (st : State) : list Response * State :=
  match reqs with
  | [] => ([], st)
  | (req, now) :: rest =>
      let '(r, st1) := getById queryFails articles st req now in
      let '(rs, st2) := serve queryFails articles rest st1 in
      (r :: rs, st2)
  end.

Definition initial : State := mkState ∅ [].

(** A history of reads of live articles, each with the clock value of
    its request, handled one after the other. *)
Fixpoint track_all (st : State) (reads : list (Request * Z)) : State :=
  match reads with
  | [] => st
  | (req, now) :: rest => track_all (snd (trackRead st req now)) rest
  end.

(** The prior admissions of a history: under each key the clock value
    of the latest read that was admitted under it.  Unlike the
    rate-limit map it forgets nothing. *)
Fixpoint last_admissions (st : State) (seen : gmap string Z)
    (reads : list (Request * Z)) : gmap string Z :=
  match reads with
  | [] => seen
  | (req, now) :: rest =>
      last_admissions (snd (trackRead st req now))
        (if fst (trackRead st req now) then <[key_of req := now]> seen else seen)
        rest
  end.

(** The actor of a request, [req.user?.userId || 'guest'], and the
    (actor, article) pair the key is built from. *)
Definition actorKey (req : Request) : string :=
  or_else (req_userId req) "guest".

Definition pair_of (req : Request) : string * string :=
  (actorKey req, params_id req).

(** The prior admissions of a history by pair: under each (actor,
    article) pair the clock value of the latest read of that pair that
    was admitted. *)
Fixpoint pair_admissions (st : State) (seen : gmap (string * string) Z)
    (reads : list (Request * Z)) : gmap (string * string) Z :=
  match reads with
  | [] => seen
  | (req, now) :: rest =>
      pair_admissions (snd (trackRead st req now))
        (if fst (trackRead st req now) then <[pair_of req := now]> seen else seen)
        rest
  end.

(** Two actor keys that the hyphen of the rate-limit key does not keep
    apart: one of them, followed by a hyphen, begins the other.
    Identifiers of one length never do, nor does [guest] beside
    identifiers that do not begin with [guest-]. *)
Fixpoint begins (p s : string) : bool :=
  match p, s with
  | EmptyString, _ => true
  | String a p', String b s' => Ascii.eqb a b && begins p' s'
  | String _ _, EmptyString => false
  end.

Definition clash (u v : string) : bool :=
  begins (u ++ "-") v || begins (v ++ "-") u.

(** Clock values that never go back, [c] being the one before them. *)
Fixpoint clock_ok (c : Z) (nows : list Z) : Prop :=
  match nows with
  | [] => True
  | now :: rest => c <= now /\ clock_ok now rest
  end.

(** How the rate-limit map of [st] stands to the prior admissions
    [seen] when the clock has reached [c]: an admission is still in the
    map, or it is older than the window and was cleaned up. *)
Definition remembers (c : Z) (st : State) (seen : gmap string Z) : Prop :=
  forall k : string,
    match seen !! k with
    | None => readRateLimit st !! k = None
    | Some t =>
        0 < t <= c /\
        (readRateLimit st !! k = Some t \/
         (readRateLimit st !! k = None /\ t < c - READ_RATE_LIMIT_MS))
    end.
End ReadTracking.

(** ** Start-up and scheduling (server.ts) *)
Module Server.
Local Open Scope Z_scope.

Inductive SocketEvent := SockConnect | SockError.

Inductive LoopEvent := FromSocket (e : SocketEvent) | TimerFired.

(** The promise of [checkRedis] with what its callbacks share: the
    settled value and its instant, the pending timer, the socket. *)
Record Probe := mkProbe {
  resolved : option (bool * Z);
  timerPending : bool;
  socketDestroyed : bool
}.

(** [resolve(b)]: only the first call settles the promise. *)
Definition resolve (b : bool) (at_ms : Z) (p : Probe) : Probe :=
  match resolved p with
  | Some _ => p
  | None => mkProbe (Some (b, at_ms)) (timerPending p) (socketDestroyed p)
  end.

Definition clearTimeout (p : Probe) : Probe :=
  mkProbe (resolved p) false (socketDestroyed p).

Definition socket_destroy (p : Probe) : Probe :=
  mkProbe (resolved p) (timerPending p) true.

(** One callback of the probe.  A cleared timer does not fire and a
    destroyed socket emits nothing. *)
Definition deliver (p : Probe) (ev : Z * LoopEvent) : Probe :=
  let '(at_ms, e) := ev in
  match e with
  | TimerFired =>
      if timerPending p
      then resolve false at_ms (socket_destroy (clearTimeout p))
      else p
  | FromSocket SockConnect =>
      if socketDestroyed p then p
      else resolve true at_ms (socket_destroy (clearTimeout p))
  | FromSocket SockError =>
      if socketDestroyed p then p
      else resolve false at_ms (clearTimeout p)
  end.

(** The order in which the event loop runs the callbacks: the socket
    event ([None]: the socket stays silent) at its instant, the timer
    at [timeoutMs]; when both are due together the timer phase comes
    first. *)
Definition loop_order (sock : option (Z * SocketEvent)) (timeoutMs : Z)
  : list (Z * LoopEvent) :=
  match sock with
  | None => [(timeoutMs, TimerFired)]
  | Some (t, e) =>
      if t <? timeoutMs
      then [(t, FromSocket e); (timeoutMs, TimerFired)]
      else [(timeoutMs, TimerFired); (t, FromSocket e)]
  end.

(** [checkRedis(host, port, timeoutMs)]: the settled value of the
    promise and the instant it settles, in ms after the call. *)
Definition checkRedis (sock : option (Z * SocketEvent)) (timeoutMs : Z)
  : option (bool * Z) :=
  resolved (fold_left deliver (loop_order sock timeoutMs)
                      (mkProbe None true false)).

Definition default_timeoutMs : Z := 2000.

Inductive SchedulerMode := QueueBacked | InProcessFallback.

(** A repeatable job of the queue: cron pattern and retention. *)
Record RepeatJob := mkRepeatJob {
  pattern : string;
  removeOnComplete : nat;
  removeOnFail : nat
}.

(** What the process holds of the scheduler.  [running] counts the
    aggregation runs that were started and have not settled. *)
Record Process := mkProcess {
  probes : nat;
  analyticsWorker : bool;
  repeatJobs : list RepeatJob;
  intervals : list Z;
  waitingJobs : nat;
  running : nat;
  started : nat;
  exitCode : option Z
}.

Definition booted : Process := mkProcess 0 false [] [] 0 0 0 None.

(** A call of an aggregation routine: a run is in flight until its
    promise settles. *)
Definition start_run (p : Process) : Process :=
  mkProcess (probes p) (analyticsWorker p) (repeatJobs p) (intervals p)
            (waitingJobs p) (S (running p)) (S (started p)) (exitCode p).

Definition settle_run (p : Process) : Process :=
  mkProcess (probes p) (analyticsWorker p) (repeatJobs p) (intervals p)
            (waitingJobs p) (pred (running p)) (started p) (exitCode p).

(** The calls [startServer] makes, as changes of the process. *)
Definition probe_made (p : Process) : Process :=
  mkProcess (S (probes p)) (analyticsWorker p) (repeatJobs p) (intervals p)
            (waitingJobs p) (running p) (started p) (exitCode p).

Definition createAnalyticsWorker (p : Process) : Process :=
  mkProcess (probes p) true (repeatJobs p) (intervals p)
            (waitingJobs p) (running p) (started p) (exitCode p).

(** [analyticsQueue.add('aggregate-daily-reads', {}, {repeat: {pattern:
    '0 0 * * *'}, removeOnComplete: 10, removeOnFail: 5})]. *)
Definition scheduleDailyAggregation (p : Process) : Process :=
  mkProcess (probes p) (analyticsWorker p)
            (repeatJobs p ++ [mkRepeatJob "0 0 * * *" 10 5]) (intervals p)
            (waitingJobs p) (running p) (started p) (exitCode p).

Definition setInterval (ms : Z) (p : Process) : Process :=
  mkProcess (probes p) (analyticsWorker p) (repeatJobs p) (intervals p ++ [ms])
            (waitingJobs p) (running p) (started p) (exitCode p).

Definition process_exit (code : Z) (p : Process) : Process :=
  mkProcess (probes p) (analyticsWorker p) (repeatJobs p) (intervals p)
            (waitingJobs p) (running p) (started p) (Some code).

(** [startServer()].  [sock] is what the broker's port does to the
    probe, [scheduleOk] whether [scheduleDailyAggregation()] resolves
    (a rejection reaches the [catch], which exits).  In the fallback
    branch the first run is awaited before the interval is set. *)
Definition startServer (sock : option (Z * SocketEvent)) (scheduleOk : bool)
  : Process :=
  let p := probe_made booted in
  let redisAvailable :=
    match checkRedis sock default_timeoutMs with
    | Some (b, _) => b
    | None => false
    end in
  if redisAvailable then
    let p := createAnalyticsWorker p in
    if scheduleOk then scheduleDailyAggregation p else process_exit 1 p
  else
    let p := settle_run (start_run p) in
    setInterval (5 * 60 * 1000) p.

Definition mode (p : Process) : option SchedulerMode :=
  if analyticsWorker p then Some QueueBacked
  else match intervals p with
       | [] => None
       | _ :: _ => Some InProcessFallback
       end.

(** What happens to the process after start-up. *)
Inductive Event :=
| TimerTick                   (* the interval elapses *)
| JobFires                    (* the broker hands out a job of the queue *)
| RunSettles                  (* the promise of a run settles *)
| BrokerReachable (up : bool) (* the broker's port opens or closes *).

(** The worker is built with [{ connection }] alone, hence with the
    queue library's default concurrency of one: it takes a job when
    its processor is idle, and the next one when that settles. *)
Definition take_job (p : Process) : Process :=
  match running p, waitingJobs p with
  | O, S w =>
      start_run (mkProcess (probes p) (analyticsWorker p) (repeatJobs p)
                           (intervals p) w (running p) (started p) (exitCode p))
  | _, _ => p
  end.

Definition step (p : Process) (ev : Event) : Process :=
  match exitCode p with
  | Some _ => p
  | None =>
      match ev with
      | TimerTick =>
          (* setInterval(async () => { await runAggregationNow(); }, ...) *)
          match intervals p with
          | [] => p
          | _ :: _ => start_run p
          end
      | JobFires =>
          if analyticsWorker p
          then take_job (mkProcess (probes p) (analyticsWorker p) (repeatJobs p)
                                   (intervals p) (S (waitingJobs p)) (running p)
                                   (started p) (exitCode p))
          else p
      | RunSettles =>
          match running p with
          | O => p
          | S _ => take_job (settle_run p)
          end
      | BrokerReachable _ => p
      end
  end.

Definition run_events (p : Process) (evs : list Event) : Process :=
  fold_left step evs p.

(** The shape of a process that [startServer] leaves: a worker and
    no interval, or no worker and no waiting job. *)
Definition well_set_up (p : Process) : Prop :=
  (analyticsWorker p = true -> intervals p = []) /\
  (analyticsWorker p = false -> waitingJobs p = 0%nat).

Definition is_tick (ev : Event) : bool :=
  match ev with
  | TimerTick => true
  | _ => false
  end.

Definition count_ticks (evs : list Event) : nat :=
  length (filter (fun ev => is_tick ev = true) evs).

(** No tick of the sequence arrives while a run is in flight. *)
Fixpoint no_overlap (p : Process) (evs : list Event) : bool :=
  match evs with
  | [] => true
  | ev :: rest =>
      (negb (is_tick ev) || (running p =? 0)%nat) && no_overlap (step p ev) rest
  end.
End Server.

Import JsDate Aggregation ReadTracking Server.
Open Scope Z_scope.

(** ** Sample data for the worked instances *)
Module Samples.
(** Reads of two articles on 2024-01-01 and one on 2024-01-02. *)
Definition logs : list ReadLog :=
  [ mkReadLog "news-a" (Some "reader-1") (isoInstant 2024 1 1 8 30 0);
    mkReadLog "news-b" None (isoInstant 2024 1 1 9 0 0);
    mkReadLog "news-a" None (isoInstant 2024 1 1 23 59 59);
    mkReadLog "news-a" (Some "reader-2") (isoInstant 2024 1 2 0 0 1) ].

(** Instants at which the daily job fires: midnight of 2024-01-02 and
    of 2024-01-03. *)
Definition nows : list Z :=
  [ isoInstant 2024 1 2 0 0 0; isoInstant 2024 1 3 0 0 0 ].

(** A storage layer that rejects every upsert for article [news-a]. *)
Definition rejects_a : Faults :=
  mkFaults false (fun a _ => String.eqb a "news-a").

(** A storage layer that rejects the upserts for 2024-01-02. *)
Definition rejects_second_day : Faults :=
  mkFaults false (fun _ d => d =? isoInstant 2024 1 2 0 0 0).

(** Reads under two ids that a plain object inherits a member for,
    among two reads of news-a, all on 2024-01-01. *)
Definition inherited_logs : list ReadLog :=
  [ mkReadLog "__proto__" None (isoInstant 2024 1 1 8 0 0);
    mkReadLog "news-a" None (isoInstant 2024 1 1 9 0 0);
    mkReadLog "constructor" None (isoInstant 2024 1 1 9 30 0);
    mkReadLog "news-a" None (isoInstant 2024 1 1 10 0 0) ].

Definition articles : list Article :=
  [ mkArticle "news-a" "author-1" None;
    mkArticle "news-gone" "author-1" (Some (isoInstant 2024 1 1 0 0 0)) ].

Definition reader_request : Request :=
  mkRequest "news-a" (Some (mkUser "reader-1" "reader")) "10.0.0.1".

Definition guest_request (caller : string) : Request :=
  mkRequest "news-a" None caller.

(** 10001 distinct keys, the first 5000 last admitted at 1000 ms, the
    others at 60000 ms. *)
Definition crowded_key (n : Z) : string :=
  String (ascii_of_N (Z.to_N (n / 100)))
         (String (ascii_of_N (Z.to_N (n mod 100))) "-news-b").

Definition crowded : gmap string Z :=
  list_to_map
    (map (fun n => (crowded_key n, if n <? 5000 then 1000 else 60000))
         (seqZ 0 10001)).
End Samples.

(** ** Responses (utils/response.util.ts) *)
Module Http.
(** The body of a response with its status; the payload [Object] is
    kept beside it by the handlers. *)
Record Reply := mkReply {
  statusCode : nat;
  Success : bool;
  Message : string;
  Errors : option (list string)
}.

Definition sendSuccess (message : string) (statusCode : nat) : Reply :=
  mkReply statusCode true message None.

Definition sendError (statusCode : nat) (message : string) (errors : list string)
  : Reply :=
  mkReply statusCode false message
          (Some (if (0 <? length errors)%nat then errors else [message])).

(** The result objects the services return in place of an exception. *)
Record ServiceError := mkServiceError {
  error : string;
  error_statusCode : nat
}.
End Http.

(** ** Authentication middleware (middleware/auth.middleware.ts)

  [jwt.verify] is the library's: it is a parameter, [None] standing for
  the exception it throws on a token it does not accept. *)
Module AuthMiddleware.
Import Http.

(** The decoded payload of a token. *)
Record Claims := mkClaims {
  sub : string;
  claimed_role : string
}.

(** [{userId: decoded.sub, role: decoded.role}]. *)
Definition user_of (d : Claims) : User := mkUser (sub d) (claimed_role d).

(** [s.split(sep)] for a separator of one character. *)
Fixpoint split (sep : ascii) (s : string) : list string :=
  match s with
  | EmptyString => [EmptyString]
  | String c r =>
      if Ascii.eqb c sep then EmptyString :: split sep r
      else match split sep r with
           | h :: t => String c h :: t
           | [] => [String c EmptyString]
           end
  end.

(** [s.startsWith(p)]. *)
Definition startsWith (s p : string) : bool := String.prefix p s.

(** [authHeader.split(' ')[1]]. *)
Definition header_token (authHeader : string) : option string :=
  nth_error (split " " authHeader) 1.

(** [!authHeader || !authHeader.startsWith('Bearer ')]. *)
Definition no_bearer (authorization : option string) : bool :=
  match authorization with
  | None => true
  | Some h => String.eqb h EmptyString || negb (startsWith h "Bearer ")
  end.

(** The [try] block of both middlewares: the token of the header is
    verified; [None] when [jwt.verify] throws. *)
Definition decoded (verify : string -> option Claims)
    (authorization : option string) : option Claims :=
  match authorization with
  | Some h =>
      match header_token h with
      | Some token => verify token
      | None => None
      end
  | None => None
  end.

(** What a middleware does with a request: it calls [next()], with
    [req.user] as it then stands, or it answers. *)
Inductive Passed :=
| Next (user : option User)
| Responded (r : Reply).

Definition authenticate (verify : string -> option Claims)
    (authorization : option string) : Passed :=
  if no_bearer authorization
  then Responded (sendError 401 "Authentication required" ["No token provided"])
  else match decoded verify authorization with
       | Some d => Next (Some (user_of d))
       | None =>
           Responded (sendError 401 "Invalid or expired token"
                                ["Token verification failed"])
       end.

Definition optionalAuth (verify : string -> option Claims)
    (authorization : option string) : Passed :=
  if no_bearer authorization then Next None
  else match decoded verify authorization with
       | Some d => Next (Some (user_of d))
       | None => Next None
       end.

Definition authorizeRole (roles : list string) (user : option User) : Passed :=
  match user with
  | None => Responded (sendError 401 "Authentication required" [])
  | Some u =>
      if negb (existsb (String.eqb (role u)) roles)
      then Responded
             (sendError 403 "Forbidden"
                [String.append "Access denied. Required role: "
                               (String.concat " or " roles)])
      else Next (Some u)
  end.

(** [authenticate, authorizeRole(...roles)], as the routes chain them
    before a handler. *)
Definition guarded (verify : string -> option Claims) (roles : list string)
    (authorization : option string) : Passed :=
  match authenticate verify authorization with
  | Next user => authorizeRole roles user
  | Responded r => Responded r
  end.

(** [GET /articles/:id]: [optionalAuth], then the read-tracking part of
    the handler for an article found live. *)
Definition tracked_read (verify : string -> option Claims)
    (authorization : option string) (articleId remote : string)
    (st : State) (now : Z) : bool * State :=
  match optionalAuth verify authorization with
  | Next user => trackRead st (mkRequest articleId user remote) now
  | Responded _ => (false, st)
  end.
End AuthMiddleware.

(** ** Articles (services/article.service.ts, controllers/article.controller.ts) *)
Module Articles.
Import Http.

Record Row := mkRow {
  id : string;
  title : string;
  content : string;
  category : string;
  status : string;
  authorId : string;
  createdAt : Z;
  deletedAt : option Z
}.

(** The row as [ArticleController.getById] reads it. *)
Definition article_of (r : Row) : Article :=
  mkArticle (id r) (authorId r) (deletedAt r).

Record Author := mkAuthor {
  author_id : string;
  author_name : string
}.

Record CreateArticleInput := mkCreate {
  create_title : string;
  create_content : string;
  create_category : string;
  create_status : option string
}.

(** The fields of an update; [None] for a field the body leaves out. *)
Record UpdateArticleInput := mkUpdate {
  update_title : option string;
  update_content : option string;
  update_category : option string;
  update_status : option string
}.

(** [ArticleService.create]; the table gives the id and [createdAt]. *)
Definition create (rows : list Row) (data : CreateArticleInput) (author : string)
    (newId : string) (now : Z) : Row * list Row :=
  let article :=
    mkRow newId (create_title data) (create_content data) (create_category data)
          (or_else (create_status data) "Draft") author now None in
  (article, rows ++ [article]).

(** [prisma.article.findFirst({where: {id, deletedAt: null}})]. *)
Definition find_live (rows : list Row) (articleId : string) : option Row :=
  List.find (fun r => bool_decide (id r = articleId /\ deletedAt r = None)) rows.

(** [prisma.article.update({where: {id}, data})]: [id] is the primary
    key of the table. *)
Definition update_where_id (rows : list Row) (articleId : string) (f : Row -> Row)
  : list Row :=
  map (fun r => if bool_decide (id r = articleId) then f r else r) rows.

Definition apply_update (data : UpdateArticleInput) (r : Row) : Row :=
  mkRow (id r)
        (default (title r) (update_title data))
        (default (content r) (update_content data))
        (default (category r) (update_category data))
        (default (status r) (update_status data))
        (authorId r) (createdAt r) (deletedAt r).

(** [ArticleService.update]. *)
Definition update (rows : list Row) (articleId author : string)
    (data : UpdateArticleInput) : (ServiceError + Row) * list Row :=
  match find_live rows articleId with
  | None => (inl (mkServiceError "Article not found" 404), rows)
  | Some article =>
      if negb (String.eqb (authorId article) author)
      then (inl (mkServiceError "Forbidden: You can only edit your own articles" 403),
            rows)
      else (inr (apply_update data article),
            update_where_id rows articleId (apply_update data))
  end.

Definition mark_deleted (now : Z) (r : Row) : Row :=
  mkRow (id r) (title r) (content r) (category r) (status r) (authorId r)
        (createdAt r) (Some now).

(** [ArticleService.softDelete], [now] being [new Date()]. *)
Definition softDelete (rows : list Row) (articleId author : string) (now : Z)
  : (ServiceError + unit) * list Row :=
  match find_live rows articleId with
  | None => (inl (mkServiceError "Article not found" 404), rows)
  | Some article =>
      if negb (String.eqb (authorId article) author)
      then (inl (mkServiceError "Forbidden: You can only delete your own articles" 403),
            rows)
      else (inr tt, update_where_id rows articleId (mark_deleted now))
  end.

(** [orderBy: {createdAt: 'desc'}]: no row comes before a newer one. *)
Definition not_older (r1 r2 : Row) : Prop := createdAt r2 <= createdAt r1.

#[global] Instance not_older_dec : RelDecision not_older :=
  fun r1 r2 => decide (createdAt r2 <= createdAt r1).

(** The query names no second key, so the order among rows of one
    [createdAt] is the database's, and it may differ from one query to
    the next.  [tie] stands for its choice in one query: rows of one
    [createdAt] come in the order of their [tie] numbers. *)
Definition db_order (tie : Row -> Z) (r1 r2 : Row) : Prop :=
  createdAt r2 < createdAt r1 \/ (createdAt r2 = createdAt r1 /\ tie r1 <= tie r2).

#[global] Instance db_order_dec (tie : Row -> Z) : RelDecision (db_order tie) :=
  fun r1 r2 =>
    decide (createdAt r2 < createdAt r1
            \/ (createdAt r2 = createdAt r1 /\ tie r1 <= tie r2)).

Definition newest_first (tie : Row -> Z) (rows : list Row) : list Row :=
  merge_sort (db_order tie) rows.

(** [skip] and [take] of [findMany] on an ordered result.  [None]
    stands for a negative [skip] or [take], which this model does not
    describe (the client library rejects the first and counts the
    second from the end of the result). *)
Definition skip_take {A} (skip take : Z) (l : list A) : option (list A) :=
  if (0 <=? skip) && (0 <=? take)
  then Some (firstn (Z.to_nat take) (skipn (Z.to_nat skip) l))
  else None.

(** The [where] of the public feed.  [contains_i name part] is the
    table's [contains] in [insensitive] mode; a filter that is absent or
    the empty string is left out of the [where]. *)
Definition feed_where (contains_i : string -> string -> bool)
    (authors : list Author) (category author q : option string) (r : Row) : bool :=
  String.eqb (status r) "Published"
  && bool_decide (deletedAt r = None)
  && match or_null category with
     | Some c => String.eqb (Articles.category r) c
     | None => true
     end
  && match or_null author with
     | Some part =>
         match List.find (fun a => String.eqb (author_id a) (authorId r)) authors with
         | Some a => contains_i (author_name a) part
         | None => false
         end
     | None => true
     end
  && match or_null q with
     | Some part => contains_i (title r) part
     | None => true
     end.

(** [ArticleService.getPublicFeed]: the page and the total. *)
Definition getPublicFeed (tie : Row -> Z) (contains_i : string -> string -> bool)
    (authors : list Author) (rows : list Row) (page pageSize : Z)
    (category author q : option string) : option (list Row * nat) :=
  let matching := List.filter (feed_where contains_i authors category author q) rows in
  match skip_take ((page - 1) * pageSize) pageSize (newest_first tie matching) with
  | Some articles => Some (articles, length matching)
  | None => None
  end.

(** [ArticleService.getMyArticles]. *)
Definition mine_where (author : string) (includeDeleted : bool) (r : Row) : bool :=
  String.eqb (authorId r) author
  && (includeDeleted || bool_decide (deletedAt r = None)).

Definition getMyArticles (tie : Row -> Z) (rows : list Row) (author : string)
    (page pageSize : Z) (includeDeleted : bool) : option (list Row * nat) :=
  let matching := List.filter (mine_where author includeDeleted) rows in
  match skip_take ((page - 1) * pageSize) pageSize (newest_first tie matching) with
  | Some articles => Some (articles, length matching)
  | None => None
  end.

(** The [viewCount]s of the DailyAnalytics rows of an article. *)
Definition dailyAnalytics_of (articleId : string) (tbl : AnalyticsTable) : list nat :=
  map snd (filter (fun kv => fst (fst kv) = articleId) (map_to_list tbl)).

(** [article.dailyAnalytics.reduce((sum, da) => sum + da.viewCount, 0)]. *)
Definition TotalViews (articleId : string) (tbl : AnalyticsTable) : nat :=
  fold_left Nat.add (dailyAnalytics_of articleId tbl) 0%nat.

Record DashboardEntry := mkEntry {
  entry_id : string;
  entry_title : string;
  entry_createdAt : Z;
  entry_status : string;
  entry_category : string;
  entry_TotalViews : nat
}.

(** [ArticleService.getAuthorDashboard]. *)
Definition getAuthorDashboard (tie : Row -> Z) (rows : list Row)
    (tbl : AnalyticsTable) (author : string) (page pageSize : Z)
  : option (list DashboardEntry * nat) :=
  let matching := List.filter (mine_where author false) rows in
  match skip_take ((page - 1) * pageSize) pageSize (newest_first tie matching) with
  | Some articles =>
      Some (map (fun r => mkEntry (id r) (title r) (createdAt r) (status r)
                                  (category r) (TotalViews (id r) tbl))
                articles,
            length matching)
  | None => None
  end.

(** [ArticleController.update] and [ArticleController.delete], called
    with [req.user!.userId]; [queryFails] stands for an exception of
    the service, which the [catch] answers. *)
Definition ArticleController_update (queryFails : bool) (rows : list Row)
    (articleId : string) (user : User) (data : UpdateArticleInput)
  : Reply * list Row :=
  if queryFails
  then (sendError 500 "Internal server error" ["An unexpected error occurred"], rows)
  else match update rows articleId (userId user) data with
       | (inl e, rows') => (sendError (error_statusCode e) (error e) [error e], rows')
       | (inr _, rows') => (sendSuccess "Article updated successfully" 200, rows')
       end.

Definition ArticleController_delete (queryFails : bool) (rows : list Row)
    (articleId : string) (user : User) (now : Z) : Reply * list Row :=
  if queryFails
  then (sendError 500 "Internal server error" ["An unexpected error occurred"], rows)
  else match softDelete rows articleId (userId user) now with
       | (inl e, rows') => (sendError (error_statusCode e) (error e) [error e], rows')
       | (inr _, rows') => (sendSuccess "Article deleted successfully" 200, rows')
       end.

(** [router.delete('/:id', authenticate, authorizeRole('author'),
    ArticleController.delete)]. *)
Definition DELETE_article (verify : string -> option AuthMiddleware.Claims)
    (authorization : option string) (queryFails : bool) (rows : list Row)
    (articleId : string) (now : Z) : Reply * list Row :=
  match AuthMiddleware.guarded verify ["author"] authorization with
  | AuthMiddleware.Responded r => (r, rows)
  | AuthMiddleware.Next None =>
      (sendError 500 "Internal server error" ["An unexpected error occurred"], rows)
  | AuthMiddleware.Next (Some user) =>
      ArticleController_delete queryFails rows articleId user now
  end.

(** [GET /articles/:id] on the table of rows. *)
Definition GET_article (rows : list Row) (st : State) (req : Request) (now : Z)
  : Response * State :=
  getById false (map article_of rows) st req now.
End Articles.

(** ** Accounts (services/auth.service.ts)

  [bcrypt] and [jsonwebtoken] are parameters: [hash] is what
  [bcrypt.hash(password, SALT_ROUNDS)] returns for the call, [compare]
  is [bcrypt.compare], [sign] is [jwt.sign] with the secret and the
  expiry of the service. *)
Module Accounts.
Import Http.

Record Account := mkAccount {
  id : string;
  name : string;
  email : string;
  password : string;
  role : string;
  createdAt : Z
}.

Record SignupInput := mkSignup {
  signup_name : string;
  signup_email : string;
  signup_password : string;
  signup_role : string
}.

Record LoginInput := mkLogin {
  login_email : string;
  login_password : string
}.

(** [prisma.user.findUnique({where: {email}})]. *)
Definition findUnique (users : list Account) (e : string) : option Account :=
  List.find (fun u => String.eqb (email u) e) users.

(** [AuthService.signup]; the table gives the id and [createdAt]. *)
Definition signup (hash : string -> string) (users : list Account)
    (data : SignupInput) (newId : string) (now : Z)
  : (ServiceError + Account) * list Account :=
  match findUnique users (signup_email data) with
  | Some _ => (inl (mkServiceError "Email already exists" 409), users)
  | None =>
      let hashedPassword := hash (signup_password data) in
      let user := mkAccount newId (signup_name data) (signup_email data)
                            hashedPassword (signup_role data) now in
      (inr user, users ++ [user])
  end.

(** [AuthService.login]: the token and the user. *)
Definition login (compare : string -> string -> bool)
    (sign : AuthMiddleware.Claims -> string) (users : list Account)
    (data : LoginInput) : ServiceError + (string * Account) :=
  match findUnique users (login_email data) with
  | None => inl (mkServiceError "Invalid email or password" 401)
  | Some user =>
      if negb (compare (login_password data) (password user))
      then inl (mkServiceError "Invalid email or password" 401)
      else inr (sign (AuthMiddleware.mkClaims (id user) (role user)), user)
  end.
End Accounts.

(** ** More of the read tracking and of the probe *)
Module Tracking.
(** The number of reads of a history that were admitted under the
    key [k]. *)
Fixpoint admissions_under (k : string) (st : State) (reads : list (Request * Z))
  : nat :=
  match reads with
  | [] => 0
  | (req, now) :: rest =>
      ((if fst (trackRead st req now) && bool_decide (key_of req = k) then 1 else 0)
       + admissions_under k (snd (trackRead st req now)) rest)%nat
  end.

(** The bound of the rate limit on the admissions under a key between
    the clock values [c] and [c1], [last] being the latest admission
    before [c]. *)
Definition admissions_bound (last : option Z) (c c1 : Z) : Z :=
  match last with
  | None => 1 + (c1 - c) / 10001
  | Some t => (c1 - t) / 10001
  end.

(** The probe between two callbacks: while the promise is pending the
    timer is pending and the socket open; once it is settled the timer
    is no longer pending. *)
Definition probe_ok (p : Probe) : Prop :=
  match resolved p with
  | None => timerPending p = true /\ socketDestroyed p = false
  | Some _ => timerPending p = false
  end.

(** The probe as [checkRedis] creates it. *)
Definition probe_created : Probe := mkProbe None true false.
End Tracking.

(** ** Clients of the paginated routes *)
Module Clients.
(** What a client collects that asks for the pages 1 to [n] of the
    public feed, one request after the other on the same table; a
    request that is not answered adds nothing.  Each request is a
    query of its own: [ties p] is the database's order among equal
    [createdAt] in the query for page [p]. *)
Definition feed_pages (ties : nat -> Articles.Row -> Z)
    (contains_i : string -> string -> bool)
    (authors : list Articles.Author) (rows : list Articles.Row) (pageSize : Z)
    (category author q : option string) (n : nat) : list Articles.Row :=
  flat_map (fun p =>
              match Articles.getPublicFeed (ties p) contains_i authors rows
                                           (Z.of_nat p) pageSize category author q with
              | Some (articles, _) => articles
              | None => []
              end)
           (seq 1 n).

(** Strictly newer, the order of a table without two rows of one
    [createdAt]. *)
Definition newer (r1 r2 : Articles.Row) : Prop :=
  Articles.createdAt r2 < Articles.createdAt r1.
End Clients.

(** ** Regular expressions (validators/auth.validator.ts)

  A string value is read as its sequence of UTF-16 code units: the
  patterns carry no [u] flag and match code unit by code unit.  The
  matcher covers what the two patterns of the validators are built
  from: anchors, lookahead, classes, and quantified classes. *)
Module JsRegExp.
(** The code units of a string of this development, whose characters
    lie below 256. *)
Definition units (s : string) : list N :=
  map N_of_ascii (list_ascii_of_string s).

Definition between (lo hi c : N) : bool := ((lo <=? c) && (c <=? hi))%N.

Definition among (cs : list N) (c : N) : bool := existsb (N.eqb c) cs.

(** LF, CR, LS and PS. *)
Definition LineTerminator : N -> bool := among [10; 13; 8232; 8233]%N.

(** TAB, VT, FF, ZWNBSP and the space separators. *)
Definition WhiteSpace (c : N) : bool :=
  among [9; 11; 12; 32; 160; 5760; 8239; 8287; 12288; 65279]%N c
  || between 8192 8202 c.

(** [.] without the [s] flag. *)
Definition any_char (c : N) : bool := negb (LineTerminator c).

(** [\d]. *)
Definition digit : N -> bool := between 48 57.

(** [\s]. *)
Definition space (c : N) : bool := WhiteSpace c || LineTerminator c.

Inductive Pattern :=
| Bol                                       (* ^ without the m flag *)
| Eol                                       (* $ without the m flag *)
| Ahead (p : Pattern)                       (* (?=p) *)
| AtLeast (least : nat) (cls : N -> bool)   (* cls{least,}: * is {0,}, + is {1,} *)
| Class (cls : N -> bool)
| Then (p q : Pattern).

(** A greedy quantified class at index [i], [s] being the input from
    there and [k] the rest of the match. *)
Fixpoint at_least (cls : N -> bool) (least i : nat) (s : list N)
    (k : nat -> list N -> bool) : bool :=
  match s with
  | c :: s' =>
      (cls c && at_least cls (pred least) (S i) s' k)
      || match least with O => k i s | S _ => false end
  | [] => match least with O => k i [] | S _ => false end
  end.

(** The backtracking matcher: whether [p] matches at index [i] with
    the rest of the match [k] succeeding after it. *)
Fixpoint run (p : Pattern) (i : nat) (s : list N) (k : nat -> list N -> bool)
  : bool :=
  match p with
  | Bol => (i =? 0)%nat && k i s
  | Eol => match s with [] => k i s | _ :: _ => false end
  | Ahead p' => run p' i s (fun _ _ => true) && k i s
  | AtLeast least cls => at_least cls least i s k
  | Class cls => match s with c :: s' => cls c && k (S i) s' | [] => false end
  | Then p1 p2 => run p1 i s (fun j t => run p2 j t k)
  end.

(** The search for a match from index [i] on. *)
Fixpoint search (p : Pattern) (i : nat) (s : list N) : bool :=
  run p i s (fun _ _ => true)
  || match s with [] => false | _ :: s' => search p (S i) s' end.

(** [regex.test(s)] for a pattern without the [g] and [y] flags. *)
Definition test (p : Pattern) (s : list N) : bool := search p 0 s.
End JsRegExp.

(** ** The patterns of validators/auth.validator.ts *)
Module AuthValidator.
Import JsRegExp.

(** [[A-Za-z\s]]. *)
Definition name_char (c : N) : bool :=
  between 65 90 c || between 97 122 c || space c.

(** [/^[A-Za-z\s]+$/]. *)
Definition nameRegex : Pattern := Then Bol (Then (AtLeast 1 name_char) Eol).

Definition lower : N -> bool := between 97 122.

Definition upper : N -> bool := between 65 90.

(** The class of the fourth lookahead, in the order of the source:
    ! @ # $ % ^ & * ( ) _ + - = [ ] { } ; ' : double quote, backslash,
    | , . < > / ? *)
Definition special : N -> bool :=
  among [33; 64; 35; 36; 37; 94; 38; 42; 40; 41; 95; 43; 45; 61; 91; 93;
         123; 125; 59; 39; 58; 34; 92; 124; 44; 46; 60; 62; 47; 63]%N.

(** [(?=.*cls)]. *)
Definition somewhere (cls : N -> bool) : Pattern :=
  Ahead (Then (AtLeast 0 any_char) (Class cls)).

(** [/^(?=.*[a-z])(?=.*[A-Z])(?=.*\d)(?=.*[...]).{8,}$/]. *)
Definition passwordRegex : Pattern :=
  Then Bol
    (Then (somewhere lower)
       (Then (somewhere upper)
          (Then (somewhere digit)
             (Then (somewhere special)
                (Then (AtLeast 8 any_char) Eol))))).
End AuthValidator.

(** ** Schemas (validators/auth.validator.ts, validators/article.validator.ts)
       and [validate] (middleware/validate.middleware.ts)

  A field of a body is absent or a string.  Every check of a string
  schema is run and each failure adds its message, in the order of the
  schema.  The e-mail test and the message for a value outside an enum
  are the validation library's and are parameters. *)
Module Zod.
Import Http JsRegExp.

Definition min (n : nat) (message s : string) : list string :=
  if (String.length s <? n)%nat then [message] else [].

Definition max (n : nat) (message s : string) : list string :=
  if (n <? String.length s)%nat then [message] else [].

Definition regex (p : Pattern) (message s : string) : list string :=
  if test p (units s) then [] else [message].

Definition email (isEmail : string -> bool) (message s : string) : list string :=
  if isEmail s then [] else [message].

(** [z.enum(values)] on a string. *)
Definition enum (values : list string) (invalid : string -> string) (s : string)
  : list string :=
  if existsb (String.eqb s) values then [] else [invalid s].

(** [z.string({required_error}).check(...)...]. *)
Definition required (required_error : string)
    (checks : list (string -> list string)) (v : option string) : list string :=
  match v with
  | None => [required_error]
  | Some s => flat_map (fun check => check s) checks
  end.

(** [schema.optional()]. *)
Definition optional (checks : list (string -> list string)) (v : option string)
  : list string :=
  match v with
  | None => []
  | Some s => flat_map (fun check => check s) checks
  end.

(** [validate(schema)]: the parsed body for [next()], or the answer. *)
Definition validate {B A : Type} (schema : B -> list string + A) (body : B)
  : Reply + A :=
  match schema body with
  | inl errors => inl (sendError 400 "Validation failed" errors)
  | inr data => inr data
  end.
End Zod.

Module AuthSchemas.
Import Http AuthValidator.

Record SignupBody := mkSignupBody {
  body_name : option string;
  body_email : option string;
  body_password : option string;
  body_role : option string
}.

Definition name_field : option string -> list string :=
  Zod.required "Name is required"
    [ Zod.min 1 "Name is required";
      Zod.regex nameRegex "Name must contain only alphabets and spaces" ].

Definition email_field (isEmail : string -> bool) : option string -> list string :=
  Zod.required "Email is required" [ Zod.email isEmail "Invalid email format" ].

Definition password_field : option string -> list string :=
  Zod.required "Password is required"
    [ Zod.min 8 "Password must be at least 8 characters";
      Zod.regex passwordRegex
        "Password must contain at least one uppercase letter, one lowercase letter, one number, and one special character" ].

Definition role_field (invalid : string -> string) : option string -> list string :=
  Zod.required "Role is required" [ Zod.enum ["author"; "reader"] invalid ].

Definition signupSchema (isEmail : string -> bool) (invalid : string -> string)
    (b : SignupBody) : list string + Accounts.SignupInput :=
  let issues :=
    name_field (body_name b) ++ email_field isEmail (body_email b)
    ++ password_field (body_password b) ++ role_field invalid (body_role b) in
  match issues, body_name b, body_email b, body_password b, body_role b with
  | [], Some n, Some e, Some p, Some r => inr (Accounts.mkSignup n e p r)
  | _, _, _, _, _ => inl issues
  end.

(** [AuthController.signup]; [queryFails] stands for an exception of
    the service. *)
Definition AuthController_signup (hash : string -> string) (queryFails : bool)
    (users : list Accounts.Account) (data : Accounts.SignupInput)
    (newId : string) (now : Z) : Reply * list Accounts.Account :=
  if queryFails
  then (sendError 500 "Internal server error" ["An unexpected error occurred"], users)
  else match Accounts.signup hash users data newId now with
       | (inl e, users') => (sendError (error_statusCode e) (error e) [error e], users')
       | (inr _, users') => (sendSuccess "User registered successfully" 201, users')
       end.

(** [router.post('/signup', validate(signupSchema), AuthController.signup)]. *)
Definition POST_signup (isEmail : string -> bool) (invalid : string -> string)
    (hash : string -> string) (queryFails : bool) (users : list Accounts.Account)
    (b : SignupBody) (newId : string) (now : Z) : Reply * list Accounts.Account :=
  match Zod.validate (signupSchema isEmail invalid) b with
  | inl r => (r, users)
  | inr data => AuthController_signup hash queryFails users data newId now
  end.
End AuthSchemas.

Module ArticleSchemas.
Import Http.

Record ArticleBody := mkArticleBody {
  body_title : option string;
  body_content : option string;
  body_category : option string;
  body_status : option string
}.

Definition status_field (invalid : string -> string) : option string -> list string :=
  Zod.optional [ Zod.enum ["Draft"; "Published"] invalid ].

Definition createArticleSchema (invalid : string -> string) (b : ArticleBody)
  : list string + Articles.CreateArticleInput :=
  let issues :=
    Zod.required "Title is required"
      [ Zod.min 1 "Title is required";
        Zod.max 150 "Title must be at most 150 characters" ] (body_title b)
    ++ Zod.required "Content is required"
         [ Zod.min 50 "Content must be at least 50 characters" ] (body_content b)
    ++ Zod.required "Category is required"
         [ Zod.min 1 "Category is required" ] (body_category b)
    ++ status_field invalid (body_status b) in
  match issues, body_title b, body_content b, body_category b with
  | [], Some t, Some c, Some g =>
      (* .optional().default('Draft') *)
      inr (Articles.mkCreate t c g (Some (default "Draft"%string (body_status b))))
  | _, _, _, _ => inl issues
  end.

Definition updateArticleSchema (invalid : string -> string) (b : ArticleBody)
  : list string + Articles.UpdateArticleInput :=
  let issues :=
    Zod.optional
      [ Zod.min 1 "Title cannot be empty";
        Zod.max 150 "Title must be at most 150 characters" ] (body_title b)
    ++ Zod.optional
         [ Zod.min 50 "Content must be at least 50 characters" ] (body_content b)
    ++ Zod.optional [ Zod.min 1 "Category cannot be empty" ] (body_category b)
    ++ status_field invalid (body_status b) in
  match issues with
  | [] => inr (Articles.mkUpdate (body_title b) (body_content b) (body_category b)
                                 (body_status b))
  | _ :: _ => inl issues
  end.

(** [ArticleController.create]. *)
Definition ArticleController_create (queryFails : bool) (rows : list Articles.Row)
    (data : Articles.CreateArticleInput) (user : User) (newId : string) (now : Z)
  : Reply * list Articles.Row :=
  if queryFails
  then (sendError 500 "Internal server error" ["An unexpected error occurred"], rows)
  else (sendSuccess "Article created successfully" 201,
        snd (Articles.create rows data (userId user) newId now)).

(** [router.post('/', authenticate, authorizeRole('author'),
    validate(createArticleSchema), ArticleController.create)]. *)
Definition POST_article (verify : string -> option AuthMiddleware.Claims)
    (invalid : string -> string) (authorization : option string) (b : ArticleBody)
    (queryFails : bool) (rows : list Articles.Row) (newId : string) (now : Z)
  : Reply * list Articles.Row :=
  match AuthMiddleware.guarded verify ["author"] authorization with
  | AuthMiddleware.Responded r => (r, rows)
  | AuthMiddleware.Next None =>
      (sendError 500 "Internal server error" ["An unexpected error occurred"], rows)
  | AuthMiddleware.Next (Some user) =>
      match Zod.validate (createArticleSchema invalid) b with
      | inl r => (r, rows)
      | inr data => ArticleController_create queryFails rows data user newId now
      end
  end.

(** [router.put('/:id', authenticate, authorizeRole('author'),
    validate(updateArticleSchema), ArticleController.update)]. *)
Definition PUT_article (verify : string -> option AuthMiddleware.Claims)
    (invalid : string -> string) (authorization : option string) (b : ArticleBody)
    (queryFails : bool) (rows : list Articles.Row) (articleId : string)
  : Reply * list Articles.Row :=
  match AuthMiddleware.guarded verify ["author"] authorization with
  | AuthMiddleware.Responded r => (r, rows)
  | AuthMiddleware.Next None =>
      (sendError 500 "Internal server error" ["An unexpected error occurred"], rows)
  | AuthMiddleware.Next (Some user) =>
      match Zod.validate (updateArticleSchema invalid) b with
      | inl r => (r, rows)
      | inr data => Articles.ArticleController_update queryFails rows articleId user data
      end
  end.

(** What the schemas ask of an article, read on a stored row. *)
Definition stored_ok (r : Articles.Row) : Prop :=
  (1 <= String.length (Articles.title r) <= 150)%nat /\
  (50 <= String.length (Articles.content r))%nat /\
  (1 <= String.length (Articles.category r))%nat /\
  (Articles.status r = "Draft"%string \/ Articles.status r = "Published"%string).
End ArticleSchemas.

(** ** Paginated routes and the error handler
       (controllers/article.controller.ts, middleware/error.middleware.ts) *)
Module Pages.
Import Http.

(** [parseInt(req.query.x) || d], [parsed] being what [parseInt]
    returned ([None]: NaN). *)
Definition or_number (parsed : option Z) (d : Z) : Z :=
  match parsed with
  | Some n => if n =? 0 then d else n
  | None => d
  end.

(** The body of [sendPaginated]. *)
Record Paginated := mkPaginated {
  Object : list Articles.Row;
  PageNumber : Z;
  PageSize : Z;
  TotalSize : nat
}.

(** [ArticleController.getPublicFeed], where the service answers. *)
Definition ArticleController_getPublicFeed (tie : Articles.Row -> Z)
    (contains_i : string -> string -> bool)
    (authors : list Articles.Author) (rows : list Articles.Row)
    (query_page query_pageSize : option Z) (category author q : option string)
  : option Paginated :=
  let page := or_number query_page 1 in
  let pageSize := or_number query_pageSize 10 in
  match Articles.getPublicFeed tie contains_i authors rows page pageSize
                               category author q with
  | Some (articles, total) => Some (mkPaginated articles page pageSize total)
  | None => None
  end.

(** [errorHandler], [NODE_ENV] being [process.env.NODE_ENV]. *)
Definition errorHandler (NODE_ENV : option string) (err_message : string) : Reply :=
  let message :=
    if bool_decide (NODE_ENV = Some "production"%string)
    then "Internal server error"%string
    else or_else (Some err_message) "Internal server error" in
  sendError 500 message ["An unexpected error occurred"].
End Pages.

(** ** A small newsroom, for the instances *)
Module Newsroom.
Definition rows : list Articles.Row :=
  [ Articles.mkRow "news-a" "Budget vote" "The council passed the budget."
                   "Politics" "Published" "author-1" 1000 None;
    Articles.mkRow "news-b" "Cup final" "The final went to extra time."
                   "Sport" "Published" "author-2" 3000 None;
    Articles.mkRow "news-c" "Notes" "Not ready yet."
                   "Politics" "Draft" "author-1" 2000 None;
    Articles.mkRow "news-d" "Harvest" "The harvest came in early."
                   "Farming" "Published" "author-1" 4000 None;
    Articles.mkRow "news-gone" "Retracted" "This was withdrawn."
                   "Politics" "Published" "author-1" 500 (Some 900) ].

Definition authors : list Articles.Author :=
  [ Articles.mkAuthor "author-1" "Ada"; Articles.mkAuthor "author-2" "Bo" ].

(** Two orders a database may choose among rows of one [createdAt]. *)
Definition as_stored (_ : Articles.Row) : Z := 0.

Definition by_title_length (r : Articles.Row) : Z :=
  Z.of_nat (String.length (Articles.title r)).

(** Two articles of one author saved in the same millisecond. *)
Definition twins : list Articles.Row :=
  [ Articles.mkRow "news-x" "Long headline" "The longer of the two."
                   "Politics" "Published" "author-1" 7000 None;
    Articles.mkRow "news-y" "Short" "The shorter of the two."
                   "Politics" "Published" "author-1" 7000 None ].

(** The choice of the database in the query for each page. *)
Definition page_orders (p : nat) : Articles.Row -> Z :=
  if Nat.even p then as_stored else by_title_length.

(** A stand-in for the table's [contains]: the part opens the text. *)
Definition opens_with (text part : string) : bool := String.prefix part text.

(** A stand-in for [jwt.sign] and [jwt.verify] that knows two tokens. *)
Definition sign (c : AuthMiddleware.Claims) : string :=
  String.append "token-" (AuthMiddleware.sub c).

Definition verify (token : string) : option AuthMiddleware.Claims :=
  if String.eqb token "token-author-1"
  then Some (AuthMiddleware.mkClaims "author-1" "author")
  else if String.eqb token "token-reader-7"
  then Some (AuthMiddleware.mkClaims "reader-7" "reader")
  else None.

(** Stand-ins for [bcrypt.hash] and [bcrypt.compare]. *)
Definition hash (p : string) : string := String.append "hashed:" p.

Definition compare (p h : string) : bool := String.eqb (hash p) h.

Definition users : list Accounts.Account :=
  [ Accounts.mkAccount "author-1" "Ada" "ada@example.org" (hash "Secret#123")
                       "author" 100 ].

Definition newcomer : Accounts.SignupInput :=
  Accounts.mkSignup "Bo" "bo@example.org" "Passw0rd!" "reader".

(** A stand-in for the library's message on a value outside an enum. *)
Definition invalid_value (value : string) : string :=
  String.append "Invalid enum value: " value.

(** A table of one article as the routes store it, and a body for
    another. *)
Definition desk : list Articles.Row :=
  [ Articles.mkRow "news-a" "Budget vote"
      "The council passed the budget after a debate of nine hours."
      "Politics" "Published" "author-1" 1000 None ].

Definition floods : ArticleSchemas.ArticleBody :=
  ArticleSchemas.mkArticleBody
    (Some "Floods"%string)
    (Some "The river rose overnight and the lower town was cleared."%string)
    (Some "Weather"%string) None.

Definition three_reads : list (Request * Z) :=
  [ (Samples.reader_request, 1000); (Samples.reader_request, 5000); (Samples.reader_request, 12000) ].
End Newsroom.

(** * Properties *)

(** ** Read tracking *)
Section ReadTrackingFacts.
Implicit Types (st : State) (req : Request) (now t : Z) (m : gmap string Z).

Lemma admits_spec (lastRead : option Z) now :
  lastRead ≠ Some 0 ->
  admits lastRead now = true <->
  lastRead = None \/ exists t, lastRead = Some t /\ 10000 < now - t.
Proof.
  intros Hnz. unfold admits, not_lastRead, READ_RATE_LIMIT_MS.
  destruct lastRead as [t|]; simpl.
  - assert (t ≠ 0) as Ht by congruence.
    apply Z.eqb_neq in Ht. rewrite Ht. simpl. rewrite Z.ltb_lt.
    split.
    + intros H. right. exists t. auto.
    + intros [H | (t' & Heq & H)]; [discriminate | congruence].
  - split; auto.
Qed.

Lemma cleanup_lookup now m (k : string) :
  cleanup now m !! k =
    if 10000 <? Z.of_nat (size m)
    then match m !! k with
         | Some t => if decide (t < now - 10000) then None else Some t
         | None => None
         end
    else m !! k.
Proof.
  unfold cleanup, READ_RATE_LIMIT_MS.
  destruct (10000 <? Z.of_nat (size m)); [| reflexivity].
  destruct (m !! k) as [t|] eqn:Hk.
  - destruct (decide (t < now - 10000)) as [Hlt | Hge].
    + apply map_lookup_filter_None. right. intros x Hx.
      rewrite Hk in Hx. injection Hx as <-. simpl. tauto.
    + apply map_lookup_filter_Some. split; [exact Hk | exact Hge].
  - apply map_lookup_filter_None. left. exact Hk.
Qed.

Lemma cleanup_keeps_recent now m (k : string) t :
  m !! k = Some t -> now - 10000 <= t -> cleanup now m !! k = Some t.
Proof.
  intros Hk Ht. rewrite cleanup_lookup, Hk.
  destruct (10000 <? Z.of_nat (size m)); [| reflexivity].
  destruct (decide (t < now - 10000)); [lia | reflexivity].
Qed.

Lemma gate_admitted st req now :
  admits (readRateLimit st !! key_of req) now = true ->
  gate st req now =
    (true, mkState (<[key_of req := now]> (readRateLimit st))
                   (readLogCreates st ++ [(params_id req, or_null (req_userId req))])).
Proof. intros H. unfold gate. cbv zeta. rewrite H. reflexivity. Qed.

Lemma gate_dropped st req now :
  admits (readRateLimit st !! key_of req) now = false ->
  gate st req now = (false, st).
Proof. intros H. unfold gate. cbv zeta. rewrite H. reflexivity. Qed.

Lemma trackRead_admitted st req now :
  admits (readRateLimit st !! key_of req) now = true ->
  fst (trackRead st req now) = true /\
  readRateLimit (snd (trackRead st req now)) !! key_of req = Some now /\
  readLogCreates (snd (trackRead st req now)) =
    readLogCreates st ++ [(params_id req, or_null (req_userId req))].
Proof.
  intros H. unfold trackRead. rewrite (gate_admitted _ _ _ H). simpl.
  split; [reflexivity |]. split; [| reflexivity].
  apply cleanup_keeps_recent; [apply lookup_insert_eq | lia].
Qed.

Lemma trackRead_dropped st req now :
  admits (readRateLimit st !! key_of req) now = false ->
  fst (trackRead st req now) = false /\
  readRateLimit (snd (trackRead st req now)) !! key_of req =
    readRateLimit st !! key_of req /\
  readLogCreates (snd (trackRead st req now)) = readLogCreates st.
Proof.
  intros H. unfold trackRead. rewrite (gate_dropped _ _ _ H). simpl.
  split; [reflexivity |]. split; [| reflexivity].
  unfold admits, not_lastRead, READ_RATE_LIMIT_MS in H.
  destruct (readRateLimit st !! key_of req) as [t|] eqn:Hk; [| discriminate].
  apply orb_false_iff in H as [_ H]. apply Z.ltb_ge in H.
  apply cleanup_keeps_recent; [exact Hk | lia].
Qed.

(** Two reads under one key, the first one admitted at a positive
    clock value: the second is admitted exactly when more than the
    window lies between them. *)
Lemma second_read st req1 req2 t1 t2 :
  key_of req2 = key_of req1 ->
  0 < t1 ->
  fst (trackRead st req1 t1) = true ->
  fst (trackRead (snd (trackRead st req1 t1)) req2 t2) = (10000 <? t2 - t1).
Proof.
  intros Hkey Hpos H1.
  assert (admits (readRateLimit st !! key_of req1) t1 = true) as Ha.
  { destruct (admits (readRateLimit st !! key_of req1) t1) eqn:E; [reflexivity |].
    destruct (trackRead_dropped _ _ _ E) as (Hf & _). congruence. }
  destruct (trackRead_admitted _ _ _ Ha) as (_ & Hc & _).
  set (st1 := snd (trackRead st req1 t1)) in *.
  assert (admits (readRateLimit st1 !! key_of req2) t2 = (10000 <? t2 - t1)) as Hb.
  { rewrite Hkey, Hc. unfold admits, not_lastRead, READ_RATE_LIMIT_MS.
    destruct (Z.eqb_spec t1 0); [lia | reflexivity]. }
  destruct (10000 <? t2 - t1) eqn:E.
  - apply (trackRead_admitted _ _ _ Hb).
  - apply (trackRead_dropped _ _ _ Hb).
Qed.

(** The gate on a given state: it admits exactly when the map holds no
    entry under the key or one more than the window old; what an
    admitted and a dropped read leave; two reads under a key without an
    entry. *)
Lemma gate_on_state st req req' now t1 t2 :
  readRateLimit st !! key_of req ≠ Some 0 ->
  0 < t1 ->
  req_userId req' = req_userId req ->
  params_id req' = params_id req ->
  let lastRead := readRateLimit st !! key_of req in
  let entry := (params_id req, or_null (req_userId req)) in
  let r := trackRead st req now in
  let r1 := trackRead st req t1 in
  let r2 := trackRead (snd r1) req' t2 in
  (fst r = true <->
     lastRead = None \/ exists t, lastRead = Some t /\ 10000 < now - t) /\
  (fst r = true ->
     readRateLimit (snd r) !! key_of req = Some now /\
     readLogCreates (snd r) = readLogCreates st ++ [entry]) /\
  (fst r = false ->
     readRateLimit (snd r) !! key_of req = lastRead /\
     readLogCreates (snd r) = readLogCreates st) /\
  (lastRead = None ->
     (t2 - t1 <= 10000 ->
        fst r1 = true /\ fst r2 = false /\
        readLogCreates (snd r2) = readLogCreates st ++ [entry]) /\
     (t2 - t1 = 10001 ->
        fst r1 = true /\ fst r2 = true /\
        readLogCreates (snd r2) = readLogCreates st ++ [entry; entry])).
Proof.
  intros Hnz Hpos Hu Hp lastRead entry r r1 r2.
  assert (key_of req' = key_of req) as Hkey.
  { unfold key_of. rewrite Hu, Hp. reflexivity. }
  split; [| split; [| split]].
  - subst r lastRead. rewrite <- (admits_spec _ now Hnz).
    destruct (admits (readRateLimit st !! key_of req) now) eqn:E.
    + destruct (trackRead_admitted _ _ _ E) as (-> & _). tauto.
    + destruct (trackRead_dropped _ _ _ E) as (-> & _). tauto.
  - intros Hr. subst r lastRead.
    destruct (admits (readRateLimit st !! key_of req) now) eqn:E.
    + destruct (trackRead_admitted _ _ _ E) as (_ & H1 & H2). auto.
    + destruct (trackRead_dropped _ _ _ E) as (H0 & _). congruence.
  - intros Hr. subst r lastRead.
    destruct (admits (readRateLimit st !! key_of req) now) eqn:E.
    + destruct (trackRead_admitted _ _ _ E) as (H0 & _). congruence.
    + destruct (trackRead_dropped _ _ _ E) as (_ & H1 & H2). auto.
  - intros Hnone.
    assert (admits (readRateLimit st !! key_of req) t1 = true) as Ha.
    { subst lastRead. rewrite Hnone. reflexivity. }
    destruct (trackRead_admitted _ _ _ Ha) as (H1 & Hc1 & Hl1).
    fold r1 in H1, Hc1, Hl1.
    pose proof (second_read st req req' t1 t2 Hkey Hpos H1) as H2.
    fold r1 in H2. fold r2 in H2.
    assert (admits (readRateLimit (snd r1) !! key_of req') t2 = (10000 <? t2 - t1)) as Hb.
    { destruct (admits (readRateLimit (snd r1) !! key_of req') t2) eqn:E.
      - destruct (trackRead_admitted _ _ _ E) as (H0 & _).
        fold r2 in H0. congruence.
      - destruct (trackRead_dropped _ _ _ E) as (H0 & _).
        fold r2 in H0. congruence. }
    split; intros Hd.
    + assert ((10000 <? t2 - t1) = false) as E by (apply Z.ltb_ge; lia).
      rewrite E in Hb, H2.
      destruct (trackRead_dropped _ _ _ Hb) as (_ & _ & Hl2). fold r2 in Hl2.
      split; [exact H1 |]. split; [exact H2 |]. rewrite Hl2. exact Hl1.
    + assert ((10000 <? t2 - t1) = true) as E by (apply Z.ltb_lt; lia).
      rewrite E in Hb, H2.
      destruct (trackRead_admitted _ _ _ Hb) as (_ & _ & Hl2). fold r2 in Hl2.
      split; [exact H1 |]. split; [exact H2 |].
      rewrite Hl2, Hl1, Hu, Hp. rewrite <- app_assoc. reflexivity.
Qed.

Lemma cleanup_lookup_cases now m (k : string) :
  cleanup now m !! k = m !! k \/
  (cleanup now m !! k = None /\ exists t, m !! k = Some t /\ t < now - 10000).
Proof.
  rewrite cleanup_lookup.
  destruct (10000 <? Z.of_nat (size m)); [| left; reflexivity].
  destruct (m !! k) as [t|]; [| left; reflexivity].
  destruct (decide (t < now - 10000)); [| left; reflexivity].
  right. split; [reflexivity |]. exists t. split; [reflexivity | assumption].
Qed.

(** One read keeps the relation of the map to the prior admissions. *)
Lemma trackRead_remembers c st (seen : gmap string Z) req now :
  remembers c st seen ->
  c <= now ->
  0 < now ->
  remembers now (snd (trackRead st req now))
    (if fst (trackRead st req now) then <[key_of req := now]> seen else seen).
Proof.
  intros Hinv Hc Hpos k. specialize (Hinv k).
  unfold READ_RATE_LIMIT_MS in *.
  assert (forall m : gmap string Z,
            match seen !! k with
            | None => m !! k = None
            | Some t => 0 < t <= c /\
                        (m !! k = Some t \/ (m !! k = None /\ t < c - 10000))
            end ->
            match seen !! k with
            | None => cleanup now m !! k = None
            | Some t => 0 < t <= now /\
                        (cleanup now m !! k = Some t \/
                         (cleanup now m !! k = None /\ t < now - 10000))
            end) as Hclean.
  { intros m Hm. destruct (seen !! k) as [t|].
    - destruct Hm as (Ht & Hm). split; [lia |].
      destruct (cleanup_lookup_cases now m k) as [-> | (-> & t' & Ht' & Hold)].
      + destruct Hm as [Hm | (Hm & Hlt)]; [left; exact Hm | right; split; [exact Hm | lia]].
      + right. split; [reflexivity |].
        destruct Hm as [Hm | (Hm & Hlt)]; [congruence | lia].
    - destruct (cleanup_lookup_cases now m k) as [-> | (-> & _)]; [exact Hm | reflexivity]. }
  destruct (admits (readRateLimit st !! key_of req) now) eqn:E.
  - unfold trackRead. rewrite (gate_admitted _ _ _ E). cbn [fst snd readRateLimit].
    destruct (decide (k = key_of req)) as [-> | Hne].
    + rewrite !lookup_insert_eq. split; [lia |]. left.
      apply cleanup_keeps_recent; [apply lookup_insert_eq | lia].
    + rewrite lookup_insert_ne by congruence.
      apply Hclean. rewrite lookup_insert_ne by congruence. exact Hinv.
  - unfold trackRead. rewrite (gate_dropped _ _ _ E). cbn [fst snd].
    apply Hclean, Hinv.
Qed.

(** After a history whose clock values never go back, the map
    remembers every prior admission that is still inside the window. *)
Lemma history_remembers reads st seen c now :
  remembers c st seen ->
  0 < c ->
  clock_ok c (map snd reads ++ [now]) ->
  exists c', 0 < c' <= now /\
    remembers c' (track_all st reads) (last_admissions st seen reads).
Proof.
  revert st seen c. induction reads as [|[req n1] reads IH]; intros st seen c Hinv Hc Hclock.
  - exists c. simpl in Hclock. split; [lia | exact Hinv].
  - simpl in Hclock. destruct Hclock as (Hle & Hclock).
    cbn [track_all last_admissions].
    apply (IH _ _ n1); [| lia | exact Hclock].
    apply (trackRead_remembers c); [exact Hinv | exact Hle | lia].
Qed.

Lemma initial_remembers c : remembers c initial ∅.
Proof. intros k. rewrite lookup_empty. apply lookup_empty. Qed.

(** The gate after a history, by rate-limit key. *)
Lemma gate_window_by_key (reads : list (Request * Z)) req req' now t1 t2 :
  clock_ok 1 (map snd reads ++ [now]) ->
  0 < t1 ->
  req_userId req' = req_userId req ->
  params_id req' = params_id req ->
  let st := track_all initial reads in
  let prior := last_admissions initial ∅ reads !! key_of req in
  let entry := (params_id req, or_null (req_userId req)) in
  let r := trackRead st req now in
  let r1 := trackRead st req t1 in
  let r2 := trackRead (snd r1) req' t2 in
  (fst r = true <->
     prior = None \/ exists t, prior = Some t /\ 10000 < now - t) /\
  (fst r = true ->
     readRateLimit (snd r) !! key_of req = Some now /\
     readLogCreates (snd r) = readLogCreates st ++ [entry]) /\
  (fst r = false ->
     readRateLimit (snd r) !! key_of req = readRateLimit st !! key_of req /\
     readLogCreates (snd r) = readLogCreates st) /\
  (prior = None ->
     (t2 - t1 <= 10000 ->
        fst r1 = true /\ fst r2 = false /\
        readLogCreates (snd r2) = readLogCreates st ++ [entry]) /\
     (t2 - t1 = 10001 ->
        fst r1 = true /\ fst r2 = true /\
        readLogCreates (snd r2) = readLogCreates st ++ [entry; entry])).
Proof.
  intros Hclock Hpos Hu Hp st prior entry r r1 r2.
  destruct (history_remembers reads initial ∅ 1 now (initial_remembers 1)
              ltac:(lia) Hclock) as (c & Hc & Hinv).
  fold st in Hinv. specialize (Hinv (key_of req)). fold prior in Hinv.
  unfold READ_RATE_LIMIT_MS in Hinv.
  assert (readRateLimit st !! key_of req <> Some 0) as Hnz.
  { destruct prior as [t|].
    - destruct Hinv as (Ht & [-> | (-> & _)]); [intros [= E]; lia | discriminate].
    - rewrite Hinv. discriminate. }
  destruct (gate_on_state st req req' now t1 t2 Hnz Hpos Hu Hp)
    as (Hiff & Hadm & Hdrop & Htwo).
  split; [| split; [| split]].
  - fold r in Hiff. rewrite Hiff.
    destruct prior as [t|].
    + destruct Hinv as (Ht & [Hm | (Hm & Hold)]); rewrite Hm.
      * split; (intros [H | (t' & [= <-] & H)]; [discriminate |]);
          right; exists t; auto.
      * split; [| tauto]. intros _. right. exists t. split; [reflexivity | lia].
    + rewrite Hinv. tauto.
  - exact Hadm.
  - exact Hdrop.
  - intros Hnone. apply Htwo. rewrite Hnone in Hinv. exact Hinv.
Qed.

(** The key tells two pairs apart unless their actor keys clash. *)
Lemma rateLimitKey_pairs (u1 u2 a1 a2 : string) :
  clash u1 u2 = false ->
  rateLimitKey u1 a1 = rateLimitKey u2 a2 ->
  u1 = u2 /\ a1 = a2.
Proof.
  unfold clash, rateLimitKey. revert u2.
  induction u1 as [|c1 u1 IH]; intros [|c2 u2] Hclash Heq;
    cbv beta iota fix delta [String.append] in Hclash, Heq;
    fold String.append in Hclash, Heq; cbn [begins] in Hclash.
  - injection Heq as Heq. split; [reflexivity | exact Heq].
  - injection Heq as <- _. rewrite Ascii.eqb_refl in Hclash.
    destruct u2; discriminate.
  - injection Heq as -> _. rewrite Ascii.eqb_refl in Hclash.
    destruct u1; discriminate.
  - injection Heq as <- Heq. rewrite Ascii.eqb_refl in Hclash.
    cbn [andb] in Hclash.
    destruct (IH u2 Hclash Heq) as (-> & ->). split; reflexivity.
Qed.

Lemma longer_begins_not (p w : string) :
  (String.length w < String.length p)%nat -> begins p w = false.
Proof.
  revert w. induction p as [|a p IH]; intros [|b w]; cbn [String.length begins];
    intros Hlen; try lia; try reflexivity.
  rewrite IH by lia. apply andb_false_r.
Qed.

(** Identifiers of one length do not clash, so the key tells their
    pairs apart. *)
Lemma rateLimitKey_inj (u1 u2 a1 a2 : string) :
  String.length u1 = String.length u2 ->
  rateLimitKey u1 a1 = rateLimitKey u2 a2 ->
  u1 = u2 /\ a1 = a2.
Proof.
  intros Hlen. apply rateLimitKey_pairs. unfold clash.
  assert (forall u : string,
            String.length (u ++ "-") = S (String.length u)) as Happ.
  { induction u as [|c u IH]; [reflexivity |].
    cbv beta iota fix delta [String.append]. fold String.append.
    cbn [String.length]. rewrite IH. reflexivity. }
  rewrite !longer_begins_not by (rewrite Happ; lia). reflexivity.
Qed.

Lemma key_of_pair req1 req2 :
  clash (actorKey req1) (actorKey req2) = false ->
  key_of req1 = key_of req2 <-> pair_of req1 = pair_of req2.
Proof.
  intros Hclash. unfold pair_of. split.
  - intros Hk. apply (rateLimitKey_pairs _ _ _ _ Hclash) in Hk as (-> & ->).
    reflexivity.
  - intros [= Hu Hp]. unfold key_of. fold (actorKey req1). fold (actorKey req2).
    rewrite Hu, Hp. reflexivity.
Qed.

(** Where no actor key of the history clashes with the reader's, the
    latest admission under the reader's key is the latest admission of
    the reader's pair. *)
Lemma pair_admissions_key (reads : list (Request * Z)) req st
    (seenK : gmap string Z) (seenP : gmap (string * string) Z) :
  Forall (fun r => clash (actorKey (fst r)) (actorKey req) = false) reads ->
  seenP !! pair_of req = seenK !! key_of req ->
  pair_admissions st seenP reads !! pair_of req
  = last_admissions st seenK reads !! key_of req.
Proof.
  revert st seenK seenP.
  induction reads as [|[r n] reads IH]; intros st seenK seenP Hall Hseen;
    [exact Hseen |].
  apply Forall_cons in Hall as (Hr & Hall). cbn [fst] in Hr.
  cbn [pair_admissions last_admissions]. apply IH; [exact Hall |].
  destruct (fst (trackRead st r n)); [| exact Hseen].
  pose proof (key_of_pair r req Hr) as Hkp.
  destruct (decide (pair_of r = pair_of req)) as [Hp | Hp].
  - rewrite Hp, (proj2 Hkp Hp), !lookup_insert_eq. reflexivity.
  - rewrite !lookup_insert_ne; [exact Hseen | | exact Hp].
    intros Hk. apply Hp, Hkp, Hk.
Qed.

(** C4. After any history of reads whose clock values are positive and
    never go back, and in which no actor key clashes with the
    reader's, the gate admits a read exactly when no read of the same
    (actor, article) pair was admitted before, or the latest one
    admitted was more than 10000 ms before the clock value.  An
    admitted read issues one read-log create and leaves the clock value
    in the map under the key; a dropped read issues none and leaves the
    entry as it was.  For a pair without a prior admission, two reads
    at most 10000 ms apart issue one create and two reads 10001 ms
    apart issue two. *)
Theorem dedup_gate_window (reads : list (Request * Z)) req req' now t1 t2 :
  clock_ok 1 (map snd reads ++ [now]) ->
  0 < t1 ->
  Forall (fun r => clash (actorKey (fst r)) (actorKey req) = false) reads ->
  req_userId req' = req_userId req ->
  params_id req' = params_id req ->
  let st := track_all initial reads in
  let prior := pair_admissions initial ∅ reads !! pair_of req in
  let entry := (params_id req, or_null (req_userId req)) in
  let r := trackRead st req now in
  let r1 := trackRead st req t1 in
  let r2 := trackRead (snd r1) req' t2 in
  (fst r = true <->
     prior = None \/ exists t, prior = Some t /\ 10000 < now - t) /\
  (fst r = true ->
     readRateLimit (snd r) !! key_of req = Some now /\
     readLogCreates (snd r) = readLogCreates st ++ [entry]) /\
  (fst r = false ->
     readRateLimit (snd r) !! key_of req = readRateLimit st !! key_of req /\
     readLogCreates (snd r) = readLogCreates st) /\
  (prior = None ->
     (t2 - t1 <= 10000 ->
        fst r1 = true /\ fst r2 = false /\
        readLogCreates (snd r2) = readLogCreates st ++ [entry]) /\
     (t2 - t1 = 10001 ->
        fst r1 = true /\ fst r2 = true /\
        readLogCreates (snd r2) = readLogCreates st ++ [entry; entry])).
Proof.
  intros Hclock Hpos Hclash Hu Hp st prior entry r r1 r2.
  assert (prior = last_admissions initial ∅ reads !! key_of req) as Hprior.
  { subst prior. apply pair_admissions_key; [exact Hclash |].
    rewrite !lookup_empty. reflexivity. }
  rewrite Hprior.
  exact (gate_window_by_key reads req req' now t1 t2 Hclock Hpos Hu Hp).
Qed.

(** C7. When the cache holds more than 10000 entries after the gate,
    the clean-up of the same call removes every entry older than the
    10000 ms window and keeps every other entry; it adds none. *)
Theorem cleanup_bounds_cache st req now (k : string) t :
  let gated := readRateLimit (snd (gate st req now)) in
  let after := readRateLimit (snd (trackRead st req now)) in
  10000 < Z.of_nat (size gated) ->
  (gated !! k = Some t -> t < now - 10000 -> after !! k = None) /\
  (gated !! k = Some t -> now - 10000 <= t -> after !! k = Some t) /\
  (after !! k = Some t -> gated !! k = Some t /\ now - 10000 <= t).
Proof.
  intros gated after Hsize.
  assert (after = cleanup now gated) as ->.
  { subst after gated. unfold trackRead. destruct (gate st req now). reflexivity. }
  apply Z.ltb_lt in Hsize.
  rewrite cleanup_lookup, Hsize.
  split; [| split].
  - intros -> Hlt. destruct (decide (t < now - 10000)); [reflexivity | lia].
  - intros -> Hge. destruct (decide (t < now - 10000)); [lia | reflexivity].
  - destruct (gated !! k) as [t'|]; [| discriminate].
    destruct (decide (t' < now - 10000)); [discriminate |].
    intros [= ->]. split; [reflexivity | lia].
Qed.

(** C9. Every read without an authenticated user is rate-limited
    under the key of the sentinel actor [guest], whoever the caller
    is; so of two such reads of one article at most 10000 ms apart,
    the first one admitted, the second is dropped and one read-log
    create is issued. *)
Theorem anonymous_reads_coalesce st (articleId caller1 caller2 : string) t1 t2 :
  0 < t1 ->
  t2 - t1 <= 10000 ->
  let req1 := mkRequest articleId None caller1 in
  let req2 := mkRequest articleId None caller2 in
  let r1 := trackRead st req1 t1 in
  let r2 := trackRead (snd r1) req2 t2 in
  key_of req1 = rateLimitKey "guest" articleId /\
  key_of req2 = rateLimitKey "guest" articleId /\
  (readRateLimit st !! rateLimitKey "guest" articleId = None -> fst r1 = true) /\
  (fst r1 = true ->
     fst r2 = false /\
     readLogCreates (snd r2) = readLogCreates st ++ [(articleId, None)]).
Proof.
  intros Hpos Hd req1 req2 r1 r2.
  assert (key_of req1 = rateLimitKey "guest" articleId) as K1 by reflexivity.
  assert (key_of req2 = key_of req1) as K2 by reflexivity.
  split; [exact K1 |]. split; [reflexivity |]. split.
  - intros Hnone.
    assert (admits (readRateLimit st !! key_of req1) t1 = true) as Ha.
    { rewrite K1, Hnone. reflexivity. }
    apply (trackRead_admitted _ _ _ Ha).
  - intros H1.
    pose proof (second_read st req1 req2 t1 t2 K2 Hpos H1) as H2.
    fold r1 in H2. fold r2 in H2.
    assert ((10000 <? t2 - t1) = false) as E by (apply Z.ltb_ge; lia).
    rewrite E in H2. split; [exact H2 |].
    destruct (admits (readRateLimit (snd r1) !! key_of req2) t2) eqn:Eb.
    + destruct (trackRead_admitted _ _ _ Eb) as (H0 & _).
      fold r2 in H0. congruence.
    + destruct (trackRead_dropped _ _ _ Eb) as (_ & _ & Hl2). fold r2 in Hl2.
      rewrite Hl2.
      destruct (admits (readRateLimit st !! key_of req1) t1) eqn:Ea.
      * destruct (trackRead_admitted _ _ _ Ea) as (_ & _ & Hl1). exact Hl1.
      * destruct (trackRead_dropped _ _ _ Ea) as (H0 & _).
        fold r1 in H0. congruence.
Qed.

(** C10. A request for an article that is not in the table is answered
    404 and one for a soft-deleted article 410; in both cases the
    state (rate-limit map and issued read-log creates) is the one
    before the request, and the response does not depend on it. *)
Theorem no_tracking_without_article (articles : list Article) st st2 req now :
  let found := ArticleService_getById false articles (params_id req) in
  let r := getById false articles st req now in
  found = Some None \/
    (exists a d, found = Some (Some a) /\ deletedAt a = Some d) ->
  status (fst r) = match found with Some None => 404%nat | _ => 410%nat end /\
  snd r = st /\
  fst (getById false articles st2 req now) = fst r.
Proof.
  intros found r Hgone. subst r. unfold getById. fold found.
  destruct Hgone as [-> | (a & d & -> & Hd)].
  - simpl. auto.
  - rewrite Hd. simpl. auto.
Qed.
End ReadTrackingFacts.

(** ** Start-up probe and scheduling *)
Section ServerFacts.
Implicit Types (p : Process) (ev : Event) (evs : list Event).

Lemma checkRedis_settles (sock : option (Z * SocketEvent)) :
  checkRedis sock default_timeoutMs =
    match sock with
    | Some (t, SockConnect) => if t <? 2000 then Some (true, t) else Some (false, 2000)
    | Some (t, SockError) => if t <? 2000 then Some (false, t) else Some (false, 2000)
    | None => Some (false, 2000)
    end.
Proof.
  unfold checkRedis, loop_order, default_timeoutMs.
  destruct sock as [[t []]|]; [| | reflexivity];
    destruct (t <? 2000); reflexivity.
Qed.

Lemma step_keeps_setup p ev :
  probes (step p ev) = probes p /\
  analyticsWorker (step p ev) = analyticsWorker p /\
  intervals (step p ev) = intervals p /\
  exitCode (step p ev) = exitCode p.
Proof.
  unfold step, take_job.
  repeat case_match; simpl; repeat split; congruence.
Qed.

Lemma step_mode p ev : mode (step p ev) = mode p.
Proof.
  destruct (step_keeps_setup p ev) as (_ & Hw & Hi & _).
  unfold mode. rewrite Hw, Hi. reflexivity.
Qed.

Lemma run_events_keeps_setup evs p :
  probes (run_events p evs) = probes p /\ mode (run_events p evs) = mode p.
Proof.
  revert p. induction evs as [|ev evs IH]; intros p; [split; reflexivity |].
  change (run_events p (ev :: evs)) with (run_events (step p ev) evs).
  destruct (IH (step p ev)) as (Hp & Hm).
  destruct (step_keeps_setup p ev) as (Hp' & _).
  rewrite Hp, Hm, Hp', step_mode. split; reflexivity.
Qed.

(** C8. The mode is fixed by the one probe of [startServer], which
    settles within 2000 ms: a connection before the timer gives the
    queue-backed mode, an error, silence or a later connection the
    in-process fallback.  No later event, the broker becoming
    reachable included, probes again or changes the mode. *)
Theorem mode_chosen_once_at_startup
    (sock : option (Z * SocketEvent)) (scheduleOk : bool) evs :
  let connected :=
    match sock with
    | Some (t, SockConnect) => t <? 2000
    | _ => false
    end in
  let p := startServer sock scheduleOk in
  (exists t, checkRedis sock default_timeoutMs = Some (connected, t) /\ t <= 2000) /\
  probes p = 1%nat /\
  mode p = Some (if connected then QueueBacked else InProcessFallback) /\
  probes (run_events p evs) = 1%nat /\
  mode (run_events p evs) = mode p.
Proof.
  intros connected p.
  assert (probes p = 1%nat /\
          mode p = Some (if connected then QueueBacked else InProcessFallback))
    as (Hp & Hm).
  { subst p connected. unfold startServer. rewrite checkRedis_settles.
    destruct sock as [[t []]|]; [| | split; reflexivity];
      destruct (t <? 2000); try (split; reflexivity);
      destruct scheduleOk; split; reflexivity. }
  destruct (run_events_keeps_setup evs p) as (Hp' & Hm').
  split.
  - subst connected. rewrite checkRedis_settles.
    destruct sock as [[t []]|].
    + destruct (t <? 2000) eqn:E.
      * exists t. split; [reflexivity |]. apply Z.ltb_lt in E. lia.
      * exists 2000. split; [reflexivity | lia].
    + destruct (t <? 2000) eqn:E.
      * exists t. split; [reflexivity |]. apply Z.ltb_lt in E. lia.
      * exists 2000. split; [reflexivity | lia].
    + exists 2000. split; [reflexivity | lia].
  - rewrite Hp', Hm'. auto.
Qed.

Lemma startServer_well_set_up sock scheduleOk :
  well_set_up (startServer sock scheduleOk) /\
  running (startServer sock scheduleOk) = 0%nat.
Proof.
  unfold startServer, well_set_up.
  destruct (checkRedis sock default_timeoutMs) as [[[] t]|];
    [destruct scheduleOk | |]; cbn; intuition congruence.
Qed.

Lemma step_well_set_up p ev : well_set_up p -> well_set_up (step p ev).
Proof.
  intros (Hq & Hf).
  destruct (step_keeps_setup p ev) as (_ & Hw & Hi & _).
  split; rewrite Hw.
  - rewrite Hi. exact Hq.
  - intros Hfalse. specialize (Hf Hfalse).
    unfold step, take_job.
    destruct (exitCode p); [exact Hf |].
    destruct ev; simpl.
    + destruct (intervals p); simpl; exact Hf.
    + rewrite Hfalse. exact Hf.
    + destruct (running p) as [|[|n]]; simpl; try exact Hf.
      rewrite Hf. simpl. exact Hf.
    + exact Hf.
Qed.

Lemma step_at_most_one p ev :
  well_set_up p ->
  (running p <= 1)%nat ->
  analyticsWorker p || negb (is_tick ev) || (running p =? 0)%nat = true ->
  (running (step p ev) <= 1)%nat.
Proof.
  intros (Hq & Hf) Hr Hev.
  unfold step, take_job.
  destruct (exitCode p); [exact Hr |].
  destruct ev; simpl in *.
  - destruct (analyticsWorker p) eqn:Hw; simpl in Hev.
    + rewrite (Hq eq_refl). exact Hr.
    + apply Nat.eqb_eq in Hev.
      destruct (intervals p); simpl; lia.
  - destruct (analyticsWorker p); [| exact Hr]. simpl.
    destruct (running p) eqn:E; simpl; lia.
  - destruct (running p) as [|[|n]] eqn:E; simpl; try lia.
    destruct (waitingJobs p); simpl; lia.
  - exact Hr.
Qed.

Lemma run_events_at_most_one evs p :
  well_set_up p ->
  (running p <= 1)%nat ->
  analyticsWorker p || no_overlap p evs = true ->
  (running (run_events p evs) <= 1)%nat.
Proof.
  revert p. induction evs as [|ev evs IH]; intros p Hwf Hr Hev; [exact Hr |].
  change (run_events p (ev :: evs)) with (run_events (step p ev) evs).
  destruct (step_keeps_setup p ev) as (_ & Hw & _).
  apply IH.
  - apply step_well_set_up, Hwf.
  - apply step_at_most_one; [exact Hwf | exact Hr |].
    simpl in Hev. destruct (analyticsWorker p); [reflexivity |].
    simpl in *. apply andb_true_iff in Hev as [Hev _]. exact Hev.
  - rewrite Hw. simpl in Hev. destruct (analyticsWorker p); [reflexivity |].
    simpl in *. apply andb_true_iff in Hev as [_ Hev]. exact Hev.
Qed.

Lemma count_ticks_cons ev evs :
  count_ticks (ev :: evs) = ((if is_tick ev then 1 else 0) + count_ticks evs)%nat.
Proof. destruct ev; reflexivity. Qed.

Lemma run_events_ticks_start evs p :
  exitCode p = None ->
  analyticsWorker p = false ->
  intervals p <> [] ->
  waitingJobs p = 0%nat ->
  started (run_events p evs) = (started p + count_ticks evs)%nat.
Proof.
  revert p. induction evs as [|ev evs IH]; intros p Hx Hw Hi Hj.
  - unfold count_ticks. simpl. lia.
  - change (run_events p (ev :: evs)) with (run_events (step p ev) evs).
    destruct (step_keeps_setup p ev) as (_ & Hw' & Hi' & Hx').
    assert (well_set_up (step p ev)) as (_ & Hj').
    { apply step_well_set_up. split; [congruence | auto]. }
    rewrite IH; [| congruence | congruence | congruence | apply Hj'; congruence].
    rewrite count_ticks_cons.
    unfold step, take_job. rewrite Hx.
    destruct ev; simpl.
    + destruct (intervals p); [congruence |]. simpl. lia.
    + rewrite Hw. lia.
    + destruct (running p) as [|[|n]] eqn:E; simpl; try lia; rewrite Hj; simpl; lia.
    + lia.
Qed.

Lemma run_events_setup evs p :
  analyticsWorker (run_events p evs) = analyticsWorker p /\
  intervals (run_events p evs) = intervals p /\
  exitCode (run_events p evs) = exitCode p.
Proof.
  revert p. induction evs as [|ev evs IH]; intros p; [repeat split |].
  change (run_events p (ev :: evs)) with (run_events (step p ev) evs).
  destruct (IH (step p ev)) as (Hw & Hi & Hx).
  destruct (step_keeps_setup p ev) as (_ & Hw' & Hi' & Hx').
  repeat split; congruence.
Qed.

(** C1, as the code has it.  In the queue-backed mode at most one
    aggregation run is in flight.  In the fallback mode the start-up
    run has settled before the interval is set, and afterwards every
    tick starts a run, after any sequence of events: a tick that
    arrives while runs are in flight is not skipped, it adds a run to
    them.  So at most one run is in flight only as long as no tick
    arrives while a run is in flight. *)
Theorem one_run_unless_ticks_overlap
    (sock : option (Z * SocketEvent)) (scheduleOk : bool) evs :
  let p := startServer sock scheduleOk in
  (mode p = Some QueueBacked -> (running (run_events p evs) <= 1)%nat) /\
  (mode p = Some InProcessFallback ->
     running p = 0%nat /\
     started (run_events p evs) = S (count_ticks evs) /\
     running (run_events p (evs ++ [TimerTick])) = S (running (run_events p evs)) /\
     (no_overlap p evs = true -> (running (run_events p evs) <= 1)%nat)).
Proof.
  intros p.
  destruct (startServer_well_set_up sock scheduleOk) as (Hwf & Hr0).
  fold p in Hwf, Hr0.
  split.
  - intros Hm. apply run_events_at_most_one; [exact Hwf | lia |].
    revert Hm. unfold mode. destruct (analyticsWorker p); [reflexivity |].
    destruct (intervals p); discriminate.
  - intros Hm. split; [exact Hr0 |].
    assert (exitCode p = None /\ analyticsWorker p = false /\
            intervals p <> [] /\ started p = 1%nat) as (Hx & Hw & Hi & Hs).
    { subst p. revert Hm. unfold startServer, mode.
      destruct (checkRedis sock default_timeoutMs) as [[[] t]|];
        [destruct scheduleOk | |]; simpl; try discriminate;
        intros _; repeat split; discriminate. }
    split; [| split].
    + rewrite run_events_ticks_start; [lia | exact Hx | exact Hw | exact Hi |].
      apply Hwf, Hw.
    + unfold run_events. rewrite fold_left_app. cbn [fold_left].
      fold (run_events p evs).
      destruct (run_events_setup evs p) as (_ & Hi' & Hx').
      unfold step. rewrite Hx', Hx.
      destruct (intervals (run_events p evs)); [congruence | reflexivity].
    + intros Hev. apply run_events_at_most_one; [exact Hwf | lia |].
      rewrite Hev. apply orb_true_r.
Qed.
End ServerFacts.

(** ** Dates *)
Section DateFacts.
Implicit Types (t y : Z).

(** [YearFromTime] is the year the ECMAScript specification asks for:
    the last one that starts on or before the day of [t]. *)
Lemma YearFromTime_spec t :
  DayFromYear (YearFromTime t) <= Day t < DayFromYear (YearFromTime t + 1).
Proof.
  unfold YearFromTime. cbv zeta.
  set (d := Day t). set (y0 := 1970 + 400 * d / 146097).
  assert (DayFromYear (y0 - 1) <= d /\ d < DayFromYear (y0 + 2)) as [Hlo Hhi].
  { unfold DayFromYear. subst y0. generalize d. clear. intros d.
    Z.div_mod_to_equations. lia. }
  destruct (Z.leb_spec (DayFromYear (y0 + 1)) d) as [H1 | H1].
  - replace (y0 + 1 + 1) with (y0 + 2) by lia. lia.
  - destruct (Z.leb_spec (DayFromYear y0) d) as [H0 | H0].
    + lia.
    + replace (y0 - 1 + 1) with y0 by lia. lia.
Qed.

Lemma DayFromYear_succ y : DayFromYear (y + 1) = DayFromYear y + DaysInYear y.
Proof.
  unfold DayFromYear, DaysInYear.
  destruct (Z.eqb_spec (y mod 4) 0); simpl;
    [destruct (Z.eqb_spec (y mod 100) 0); simpl;
       [destruct (Z.eqb_spec (y mod 400) 0); simpl |] |];
    Z.div_mod_to_equations; lia.
Qed.

Lemma DaysInYear_range y : 365 <= DaysInYear y <= 366.
Proof. unfold DaysInYear. repeat case_match; lia. Qed.

Lemma DayFromYear_mono y1 y2 : y1 <= y2 -> DayFromYear y1 <= DayFromYear y2.
Proof.
  intros H. unfold DayFromYear. Z.div_mod_to_equations. lia.
Qed.

Lemma YearFromTime_unique t y :
  DayFromYear y <= Day t < DayFromYear (y + 1) -> YearFromTime t = y.
Proof.
  intros Hy. pose proof (YearFromTime_spec t) as Hs.
  destruct (Z.lt_trichotomy (YearFromTime t) y) as [Hlt | [Heq | Hgt]]; [| exact Heq |].
  - pose proof (DayFromYear_mono (YearFromTime t + 1) y ltac:(lia)). lia.
  - pose proof (DayFromYear_mono (y + 1) (YearFromTime t) ltac:(lia)). lia.
Qed.

(** [MakeDay] returns the day of a time value with the given year and
    month and the date 1, as the specification asks, shifted by
    [date - 1]. *)
Lemma MakeDay_first_of_month y m :
  0 <= m <= 11 ->
  let t := MakeDate (MakeDay y m 1) 0 in
  YearFromTime t = y /\ MonthFromTime t = m /\ DateFromTime t = 1.
Proof.
  intros Hm t.
  assert (Day t = DayFromYear y + monthStart m (if DaysInYear y =? 366 then 1 else 0)) as Hd.
  { subst t. unfold MakeDate, MakeDay, Day. cbv zeta.
    rewrite (Z.div_small m 12), (Z.mod_small m 12), Z.add_0_r by lia.
    rewrite Z.add_0_r. rewrite Z.div_mul by (unfold msPerDay; lia). lia. }
  assert (YearFromTime t = y) as Hy.
  { apply YearFromTime_unique. rewrite Hd, DayFromYear_succ.
    pose proof (DaysInYear_range y).
    unfold monthStart. destruct (DaysInYear y =? 366) eqn:E;
      [apply Z.eqb_eq in E | apply Z.eqb_neq in E]; repeat case_match; lia. }
  assert (DayWithinYear t = monthStart m (InLeapYear t)) as Hw.
  { unfold DayWithinYear, InLeapYear. rewrite Hy, Hd. lia. }
  split; [exact Hy |]. split.
  - unfold MonthFromTime. cbv zeta. rewrite Hw.
    unfold monthStart, InLeapYear. destruct (DaysInYear (YearFromTime t) =? 366);
      repeat case_match; lia.
  - unfold DateFromTime. rewrite Hw.
    assert (MonthFromTime t = m) as ->; [| lia].
    unfold MonthFromTime. cbv zeta. rewrite Hw.
    unfold monthStart, InLeapYear. destruct (DaysInYear (YearFromTime t) =? 366);
      repeat case_match; lia.
Qed.
Lemma YearFromTime_epoch t : 0 <= t -> 1969 <= YearFromTime t.
Proof.
  intros Ht. unfold YearFromTime, Day, msPerDay. cbv zeta.
  assert (0 <= t / 86400000) as Hd by (apply Z.div_pos; lia).
  assert (0 <= 400 * (t / 86400000) / 146097) by (apply Z.div_pos; lia).
  repeat case_match; lia.
Qed.

Lemma MonthFromTime_range t : 0 <= MonthFromTime t <= 11.
Proof. unfold MonthFromTime. cbv zeta. repeat case_match; lia. Qed.

(** Rebuilding a date from the UTC year, month and day of [t], the day
    shifted by [k], gives midnight of the day of [t] shifted by [k]
    days. *)
Lemma Date_UTC_parts t k :
  0 <= t ->
  Date_UTC (getUTCFullYear t) (getUTCMonth t) (getUTCDate t + k) =
    (Day t + k) * msPerDay.
Proof.
  intros Ht. pose proof (YearFromTime_epoch t Ht) as Hy.
  pose proof (MonthFromTime_range t) as Hm.
  unfold Date_UTC, getUTCFullYear, getUTCMonth, getUTCDate.
  replace ((0 <=? YearFromTime t) && (YearFromTime t <=? 99)) with false
    by (symmetry; apply andb_false_iff; right; apply Z.leb_gt; lia).
  unfold MakeDate, MakeTime, MakeDay. cbv zeta.
  rewrite (Z.div_small (MonthFromTime t) 12) by lia.
  rewrite (Z.mod_small (MonthFromTime t) 12) by lia.
  rewrite !Z.add_0_r.
  fold (InLeapYear t).
  unfold DateFromTime, DayWithinYear, msPerDay. lia.
Qed.

Lemma dateKey_midnight t : 0 <= t -> dateKey t = Day t * msPerDay.
Proof.
  intros Ht. unfold dateKey.
  rewrite <- (Z.add_0_r (getUTCDate t)), Date_UTC_parts by exact Ht.
  rewrite Z.add_0_r. reflexivity.
Qed.

Lemma yesterday_midnight now : 0 <= now -> yesterday_of now = (Day now - 1) * msPerDay.
Proof.
  intros Ht. unfold yesterday_of.
  change (getUTCDate now - 1) with (getUTCDate now + -1).
  rewrite Date_UTC_parts by exact Ht. reflexivity.
Qed.

Lemma today_midnight now : 0 <= now -> today_of now = Day now * msPerDay.
Proof.
  intros Ht. unfold today_of.
  rewrite <- (Z.add_0_r (getUTCDate now)), Date_UTC_parts by exact Ht.
  rewrite Z.add_0_r. reflexivity.
Qed.

(** A read falls in the range [yesterday, today) of the daily job
    exactly when the day key of the full aggregation is yesterday. *)
Lemma in_range_dateKey now (log : ReadLog) :
  0 <= now -> 0 <= readAt log ->
  in_range (yesterday_of now) (today_of now) log = true <->
  dateKey (readAt log) = yesterday_of now.
Proof.
  intros Hn Ht. unfold in_range. generalize dependent (readAt log). intros t Ht.
  rewrite yesterday_midnight, today_midnight, dateKey_midnight by assumption.
  rewrite andb_true_iff, Z.leb_le, Z.ltb_lt.
  unfold Day, msPerDay. Z.div_mod_to_equations. lia.
Qed.
End DateFacts.

(** ** Objects as dictionaries *)
Section ObjectFacts.
Context {K V : Type} `{EqDecision K}.
Implicit Types (o : list (K * V)) (k : K) (v : V).

Lemma get_set_eq o k v : JsObject.get (JsObject.set o k v) k = Some v.
Proof.
  induction o as [|[k' v'] o IH]; simpl.
  - rewrite decide_True by reflexivity. reflexivity.
  - destruct (decide (k' = k)) as [-> | Hne]; simpl.
    + rewrite decide_True by reflexivity. reflexivity.
    + rewrite decide_False by exact Hne. exact IH.
Qed.

Lemma get_set_ne o k k' v :
  k <> k' -> JsObject.get (JsObject.set o k v) k' = JsObject.get o k'.
Proof.
  intros Hne. induction o as [|[k0 v0] o IH]; simpl.
  - rewrite decide_False by exact Hne. reflexivity.
  - destruct (decide (k0 = k)) as [-> | Hne0]; simpl.
    + rewrite !decide_False by exact Hne. reflexivity.
    + destruct (decide (k0 = k')); [reflexivity | exact IH].
Qed.

Lemma get_In o k v : JsObject.get o k = Some v -> In (k, v) o.
Proof.
  induction o as [|[k' v'] o IH]; simpl; [discriminate |].
  destruct (decide (k' = k)) as [-> | Hne].
  - intros [= ->]. left. reflexivity.
  - intros Hg. right. apply IH, Hg.
Qed.

Lemma get_None_keys o k : JsObject.get o k = None <-> ~ In k (map fst o).
Proof.
  induction o as [|[k' v'] o IH]; simpl; [tauto |].
  destruct (decide (k' = k)) as [-> | Hne].
  - split; [discriminate | tauto].
  - rewrite IH. tauto.
Qed.

Lemma In_get o k v : NoDup (map fst o) -> In (k, v) o -> JsObject.get o k = Some v.
Proof.
  induction o as [|[k' v'] o IH]; simpl; [tauto |].
  intros Hnd Hin. apply NoDup_cons in Hnd as [Hk' Hnd].
  destruct Hin as [[= -> ->] | Hin].
  - rewrite decide_True by reflexivity. reflexivity.
  - destruct (decide (k' = k)) as [-> | Hne]; [| apply IH; assumption].
    exfalso. apply Hk'. apply list_elem_of_In.
    change k with (fst (k, v)). apply in_map, Hin.
Qed.

Lemma set_keys o k v :
  map fst (JsObject.set o k v) =
    match JsObject.get o k with
    | Some _ => map fst o
    | None => map fst o ++ [k]
    end.
Proof.
  induction o as [|[k' v'] o IH]; simpl; [reflexivity |].
  destruct (decide (k' = k)) as [-> | Hne]; simpl; [reflexivity |].
  rewrite IH. destruct (JsObject.get o k); reflexivity.
Qed.

Lemma set_NoDup o k v : NoDup (map fst o) -> NoDup (map fst (JsObject.set o k v)).
Proof.
  intros Hnd. rewrite set_keys.
  destruct (JsObject.get o k) eqn:Hg; [exact Hnd |].
  apply NoDup_app. split; [exact Hnd |]. split.
  - intros x Hx Hk. apply list_elem_of_singleton in Hk as ->.
    apply get_None_keys in Hg. apply Hg, list_elem_of_In, Hx.
  - apply NoDup_singleton.
Qed.

Lemma set_Forall (P : K * V -> Prop) o k v :
  Forall P o -> P (k, v) -> Forall P (JsObject.set o k v).
Proof.
  intros Ho Hp. induction Ho as [|[k' v'] o Hx Ho IH]; simpl.
  - constructor; [exact Hp | constructor].
  - destruct (decide (k' = k)) as [-> | Hne]; constructor; assumption.
Qed.

Lemma insert_by_index_perm (e : N * (K * V)) l :
  JsObject.insert_by_index e l ≡ₚ e :: l.
Proof.
  induction l as [|e' l IH]; simpl; [reflexivity |].
  destruct (fst e <? fst e')%N; [reflexivity |].
  rewrite IH. apply perm_swap.
Qed.

Lemma entries_cons (index : K -> option N) k v o :
  JsObject.entries index ((k, v) :: o) ≡ₚ (k, v) :: JsObject.entries index o.
Proof.
  unfold JsObject.entries, JsObject.index_entries, JsObject.named_entries.
  rewrite filter_cons. simpl.
  destruct (index k) as [i|] eqn:Hi; simpl.
  - apply (Permutation_app_tail _ (l' := (k, v) :: _)).
    apply (Permutation_map snd (insert_by_index_perm (i, (k, v)) _)).
  - symmetry. apply Permutation_middle.
Qed.

(** [Object.entries] lists every own property once. *)
Lemma entries_perm (index : K -> option N) o : JsObject.entries index o ≡ₚ o.
Proof.
  induction o as [|[k v] o IH]; [reflexivity |].
  rewrite entries_cons, IH. reflexivity.
Qed.

Lemma In_entries (index : K -> option N) o kv :
  In kv (JsObject.entries index o) <-> In kv o.
Proof.
  split; apply Permutation_in; [| symmetry]; apply entries_perm.
Qed.
End ObjectFacts.

(** ** Aggregation *)
Section AggregationFacts.
Implicit Types (g : Grouped) (log : ReadLog) (logs : list ReadLog)
  (a : string) (d : Z) (n : nat) (tbl : AnalyticsTable) (f : Faults)
  (calls : list (string * Z * nat)).

(** *** The grouping loop *)

Lemma grouped_count_tally g log a d :
  grouped_count (tally g log) a d =
    if decide (articleId log = a /\ dateKey (readAt log) = d)
    then Some (default 0%nat (grouped_count g a d) + 1)%nat
    else grouped_count g a d.
Proof.
  unfold grouped_count, tally. cbv zeta.
  generalize (dateKey (readAt log)) as k. generalize (articleId log) as a0.
  intros a0 k.
  destruct (JsObject.get g a0) as [ds|] eqn:Hg.
  - rewrite Hg. simpl.
    destruct (decide (a0 = a)) as [<- | Hne].
    + rewrite get_set_eq, Hg.
      destruct (decide (k = d)) as [<- | Hnd].
      * rewrite get_set_eq, decide_True by tauto. reflexivity.
      * rewrite get_set_ne, decide_False by tauto. reflexivity.
    + rewrite get_set_ne, decide_False by tauto. reflexivity.
  - rewrite get_set_eq. simpl.
    destruct (decide (a0 = a)) as [<- | Hne].
    + rewrite get_set_eq, Hg.
      destruct (decide (k = d)) as [<- | Hnd].
      * rewrite decide_True by tauto. simpl.
        rewrite decide_True by reflexivity. reflexivity.
      * rewrite decide_False by tauto. simpl.
        rewrite decide_False by exact Hnd. reflexivity.
    + rewrite !get_set_ne, decide_False by tauto. reflexivity.
Qed.

Lemma reads_on_cons a d log logs :
  reads_on a d (log :: logs) =
    ((if decide (articleId log = a /\ dateKey (readAt log) = d) then 1 else 0)
     + reads_on a d logs)%nat.
Proof.
  unfold reads_on. rewrite filter_cons.
  destruct (decide (articleId log = a /\ dateKey (readAt log) = d)); reflexivity.
Qed.

Lemma grouped_count_fold logs g a d :
  grouped_count (fold_left tally logs g) a d =
    if (reads_on a d logs =? 0)%nat then grouped_count g a d
    else Some (default 0%nat (grouped_count g a d) + reads_on a d logs)%nat.
Proof.
  revert g. induction logs as [|log logs IH]; intros g; [reflexivity |].
  simpl fold_left. rewrite IH, reads_on_cons, grouped_count_tally.
  destruct (decide (articleId log = a /\ dateKey (readAt log) = d)); simpl.
  - destruct (Nat.eqb_spec (reads_on a d logs) 0) as [-> | Hn]; f_equal; lia.
  - reflexivity.
Qed.

(** After the loop [grouped[a][d]] is the number of reads of [a] on
    day [d], and is absent when there is none. *)
Lemma grouped_count_tallies logs a d :
  grouped_count (tallies logs) a d =
    if (reads_on a d logs =? 0)%nat then None else Some (reads_on a d logs).
Proof. unfold tallies. rewrite grouped_count_fold. reflexivity. Qed.

Lemma tally_wf g log : grouped_wf g -> grouped_wf (tally g log).
Proof.
  intros (Hk & Hin). unfold tally. cbv zeta.
  generalize (dateKey (readAt log)) as k. generalize (articleId log) as a0.
  intros a0 k.
  assert (forall ds, JsObject.get g a0 = Some ds -> NoDup (map fst ds)) as Hds.
  { intros ds Hg. apply get_In in Hg.
    rewrite Forall_forall in Hin. apply (Hin (a0, ds)), list_elem_of_In, Hg. }
  destruct (JsObject.get g a0) as [ds|] eqn:Hg.
  - rewrite Hg. simpl. split.
    + apply set_NoDup, Hk.
    + apply set_Forall; [exact Hin |].
      simpl. apply set_NoDup, Hds. reflexivity.
  - rewrite get_set_eq. simpl. split.
    + apply set_NoDup, set_NoDup, Hk.
    + apply set_Forall.
      * apply set_Forall; [exact Hin |]. simpl. constructor.
      * simpl. apply NoDup_singleton.
Qed.

Lemma tallies_wf logs : grouped_wf (tallies logs).
Proof.
  unfold tallies.
  assert (grouped_wf []) as H0 by (split; constructor).
  revert H0. generalize (@nil (string * list (Z * nat))).
  induction logs as [|log logs IH]; intros g Hg; [exact Hg |].
  simpl. apply IH, tally_wf, Hg.
Qed.

(** *** The loop on a plain object and what it inherits *)

Lemma inherited_false (id : string) :
  JsObject.inherited id = false ->
  String.eqb id "__proto__" = false /\
  existsb (String.eqb id) JsObject.prototype_functions = false.
Proof. unfold JsObject.inherited. apply orb_false_iff. Qed.

(** Under a plain article id, with no count on the prototype, the loop
    body works on own properties alone and leaves the realm as it
    is. *)
Lemma group_log_plain (realm : Realm) g log :
  onPrototype realm = [] ->
  JsObject.inherited (articleId log) = false ->
  group_log realm g log = (realm, Some (tally g log)).
Proof.
  intros Hp Hid. apply inherited_false in Hid as (Hproto & Hfun).
  unfold group_log, tally, grouped_get, count_under. cbv zeta.
  generalize (dateKey (readAt log)) as k. intros k.
  rewrite Hp, Hproto, Hfun. cbn [List.find JsObject.get].
  destruct (JsObject.get g (articleId log)) as [ds|] eqn:Hg; cbn [truthy].
  - rewrite Hg. change (default [] (Some ds)) with ds.
    destruct (JsObject.get ds k); reflexivity.
  - rewrite get_set_eq. reflexivity.
Qed.

Lemma group_loop_plain (realm : Realm) logs g :
  onPrototype realm = [] -> plain_ids logs ->
  group_loop realm g logs = (realm, Some (fold_left tally logs g)).
Proof.
  intros Hp. revert g. induction logs as [|log logs IH]; intros g Hids;
    [reflexivity |].
  apply Forall_cons in Hids as (Hid & Hids).
  cbn [group_loop fold_left]. rewrite group_log_plain by assumption.
  apply IH, Hids.
Qed.

Lemma group_logs_plain (realm : Realm) logs :
  onPrototype realm = [] -> plain_ids logs ->
  group_logs realm logs = (realm, Some (tallies logs)).
Proof. apply group_loop_plain. Qed.

Lemma grouped_get_own (realm : Realm) g (id : string) ds :
  grouped_get realm g id = Some (OwnObject ds) -> JsObject.get g id = Some ds.
Proof.
  unfold grouped_get. destruct (JsObject.get g id) as [ds'|]; [congruence |].
  repeat case_match; discriminate.
Qed.

(** Whatever is inherited, the own keys of [grouped] and of its
    objects stay distinct. *)
Lemma group_log_wf (realm realm' : Realm) g g' log :
  grouped_wf g -> group_log realm g log = (realm', Some g') -> grouped_wf g'.
Proof.
  intros Hg. unfold group_log. cbv zeta.
  generalize (dateKey (readAt log)) as k. generalize (articleId log) as a0.
  intros a0 k.
  set (g1 := if truthy (grouped_get realm g a0) then g else JsObject.set g a0 []).
  assert (grouped_wf g1) as (Hk & Hin).
  { subst g1. destruct (truthy _); [exact Hg |].
    destruct Hg as (Hk & Hin). split.
    - apply set_NoDup, Hk.
    - apply set_Forall; [exact Hin | constructor]. }
  destruct (grouped_get realm g1 a0) as [[ds | | name | n]|] eqn:Hget.
  - intros [= _ <-]. apply grouped_get_own in Hget. split.
    + apply set_NoDup, Hk.
    + apply set_Forall; [exact Hin |]. cbn [snd]. apply set_NoDup.
      apply get_In in Hget. rewrite Forall_forall in Hin.
      apply (Hin (a0, ds)), list_elem_of_In, Hget.
  - intros [= _ <-]. split; assumption.
  - intros [= _ <-]. split; assumption.
  - destruct (strictCode realm); [discriminate |].
    intros [= _ <-]. split; assumption.
  - discriminate.
Qed.

Lemma group_loop_wf (realm realm' : Realm) logs g g' :
  grouped_wf g -> group_loop realm g logs = (realm', Some g') -> grouped_wf g'.
Proof.
  revert realm g. induction logs as [|log logs IH]; intros realm g Hg;
    cbn [group_loop].
  - intros [= _ <-]. exact Hg.
  - destruct (group_log realm g log) as [realm1 [g1|]] eqn:Hlog; [| discriminate].
    apply IH. exact (group_log_wf _ _ _ _ _ Hg Hlog).
Qed.

Lemma group_logs_wf (realm realm' : Realm) logs g' :
  group_logs realm logs = (realm', Some g') -> grouped_wf g'.
Proof. apply group_loop_wf. split; constructor. Qed.

Lemma entries_no_index (ds : Dates) : JsObject.entries no_index ds = ds.
Proof.
  unfold JsObject.entries.
  assert (JsObject.index_entries no_index ds = []) as ->.
  { induction ds as [|[d n] ds IH]; [reflexivity | exact IH]. }
  assert (JsObject.named_entries no_index ds = ds) as ->.
  { unfold JsObject.named_entries.
    induction ds as [|[d n] ds IH]; [reflexivity |].
    rewrite filter_cons, decide_True by reflexivity. rewrite IH. reflexivity. }
  reflexivity.
Qed.

Lemma upsert_calls_perm g :
  upsert_calls g ≡ₚ
    flat_map (fun e : string * Dates => map (fun dn : Z * nat => (fst e, fst dn, snd dn)) (snd e)) g.
Proof.
  unfold upsert_calls.
  transitivity
    (flat_map (fun e : string * Dates =>
                 map (fun dn : Z * nat => (fst e, fst dn, snd dn)) (snd e))
              (JsObject.entries JsObject.array_index g)).
  - apply Permutation_refl'. apply flat_map_ext. intros [a ds].
    rewrite entries_no_index. apply map_ext. intros [d n]. reflexivity.
  - apply Permutation_flat_map, entries_perm.
Qed.

(** No two upserts of a run have the same key. *)
Lemma upsert_calls_NoDup g : grouped_wf g -> NoDup (map fst (upsert_calls g)).
Proof.
  intros (Hk & Hin).
  rewrite (Permutation_map fst (upsert_calls_perm g)).
  induction g as [|[a ds] g IH]; [constructor |].
  cbn [flat_map fst snd]. cbn [map fst] in Hk.
  apply NoDup_cons in Hk as (Ha & Hk). apply Forall_cons in Hin as (Hds & Hin).
  rewrite map_app, map_map. cbn [fst snd] in *.
  apply NoDup_app. split; [| split].
  - replace (map (fun x : Z * nat => (a, fst x)) ds)
      with (map (pair a) (map fst ds)) by (rewrite map_map; reflexivity).
    assert (Inj (=) (=) (pair (B := Z) a)) as Hinj
      by (intros x y Hxy; injection Hxy as ->; reflexivity).
    apply (NoDup_fmap_2 (pair a)), Hds.
  - intros [a' d'] H1 H2.
    apply list_elem_of_In, in_map_iff in H1 as ([d n] & [= <- <-] & _).
    apply list_elem_of_In, in_map_iff in H2 as ([[a2 d2] n2] & [= <- <-] & H2).
    apply in_flat_map in H2 as ([a3 ds3] & H3 & H4).
    apply in_map_iff in H4 as ([d4 n4] & [= <- <- <-] & _).
    apply Ha, list_elem_of_In. change a3 with (fst (a3, ds3)). apply in_map, H3.
  - apply IH; assumption.
Qed.

(** The upsert calls are the entries of the grouped counts. *)
Lemma In_upsert_calls g a d n :
  grouped_wf g ->
  In (a, d, n) (upsert_calls g) <-> grouped_count g a d = Some n.
Proof.
  intros (Hk & Hin). unfold upsert_calls, grouped_count.
  rewrite in_flat_map. split.
  - intros ([a' ds] & Ha & Hd).
    apply In_entries in Ha.
    apply in_map_iff in Hd as ([d' n'] & [= <- <- <-] & Hd).
    apply In_entries in Hd.
    rewrite (In_get _ _ _ Hk Ha).
    apply In_get; [| exact Hd].
    rewrite Forall_forall in Hin. apply (Hin (a', ds)), list_elem_of_In, Ha.
  - destruct (JsObject.get g a) as [ds|] eqn:Hg; [| discriminate].
    intros Hd. exists (a, ds). split.
    + apply In_entries, get_In, Hg.
    + apply in_map_iff. exists (d, n). split; [reflexivity |].
      apply In_entries, get_In, Hd.
Qed.

(** *** The upsert loop *)

Lemma classic_in_calls a d calls :
  (exists n, In (a, d, n) calls) \/ (forall n, ~ In (a, d, n) calls).
Proof.
  induction calls as [|[[a' d'] n'] calls IH]; [right; intros n [] |].
  destruct (decide ((a', d') = (a, d))) as [[= -> ->] | Hne].
  - left. exists n'. left. reflexivity.
  - destruct IH as [(n & Hn) | Hnone].
    + left. exists n. right. exact Hn.
    + right. intros n [[= -> -> ->] | Hn]; [congruence | apply (Hnone n), Hn].
Qed.

Lemma apply_upserts_app calls1 calls2 tbl :
  apply_upserts (calls1 ++ calls2) tbl = apply_upserts calls2 (apply_upserts calls1 tbl).
Proof. unfold apply_upserts. apply fold_left_app. Qed.

Lemma apply_upserts_other calls tbl a d :
  (forall n, ~ In (a, d, n) calls) -> apply_upserts calls tbl !! (a, d) = tbl !! (a, d).
Proof.
  revert tbl. induction calls as [|[[a' d'] n'] calls IH]; intros tbl Hnot;
    [reflexivity |].
  change (apply_upserts calls (<[(a', d') := n']> tbl) !! (a, d) = tbl !! (a, d)).
  rewrite IH by (intros n Hn; apply (Hnot n); right; exact Hn).
  apply lookup_insert_ne. intros [= -> ->]. apply (Hnot n'). left. reflexivity.
Qed.

Lemma apply_upserts_In calls tbl a d n :
  In (a, d, n) calls ->
  (forall n', In (a, d, n') calls -> n' = n) ->
  apply_upserts calls tbl !! (a, d) = Some n.
Proof.
  revert tbl. induction calls as [|[[a' d'] n'] calls IH]; intros tbl Hin Hfun;
    [destruct Hin |].
  change (apply_upserts calls (<[(a', d') := n']> tbl) !! (a, d) = Some n).
  destruct (classic_in_calls a d calls) as [(m & Hm) | Hnone].
  - assert (m = n) as -> by (apply Hfun; right; exact Hm).
    apply IH; [exact Hm |]. intros n2 H2. apply Hfun. right. exact H2.
  - rewrite apply_upserts_other by exact Hnone.
    destruct Hin as [[= -> -> ->] | Hin]; [apply lookup_insert_eq |].
    exfalso. apply (Hnone n), Hin.
Qed.

Lemma apply_upserts_union calls tbl :
  apply_upserts calls tbl = apply_upserts calls ∅ ∪ tbl.
Proof.
  revert tbl. induction calls as [|[[a d] n] calls IH]; intros tbl.
  - simpl. rewrite (left_id_L ∅ (∪)). reflexivity.
  - change (apply_upserts calls (<[(a, d) := n]> tbl) =
            apply_upserts calls (<[(a, d) := n]> ∅) ∪ tbl).
    rewrite (IH (<[(a, d) := n]> tbl)), (IH (<[(a, d) := n]> ∅)).
    rewrite <- (assoc_L (∪)). f_equal.
    rewrite insert_empty, <- insert_union_singleton_l. reflexivity.
Qed.

(** Upserts overwrite: applying the same calls again changes nothing. *)
Lemma apply_upserts_idem calls tbl :
  apply_upserts calls (apply_upserts calls tbl) = apply_upserts calls tbl.
Proof.
  rewrite (apply_upserts_union calls (apply_upserts calls tbl)).
  rewrite (apply_upserts_union calls tbl).
  rewrite (assoc_L (∪)), (idemp_L (∪)). reflexivity.
Qed.

Lemma accepted_dec f call : {accepted f call} + {~ accepted f call}.
Proof.
  unfold accepted. destruct (upsert_fails f call.1.1 call.1.2); [right | left];
    congruence.
Qed.

Lemma upsert_loop_accepted f calls tbl done (c : nat) :
  Forall (accepted f) calls ->
  upsert_loop f calls tbl done c =
    (apply_upserts calls tbl, done ++ calls, Some (c + length calls)%nat).
Proof.
  intros Hall. revert tbl done c.
  induction Hall as [|[[a d] n] calls Hx Hall IH]; intros tbl done c.
  - simpl. rewrite app_nil_r, Nat.add_0_r. reflexivity.
  - unfold accepted in Hx. simpl in Hx. simpl upsert_loop. unfold upsert.
    rewrite Hx, IH. rewrite <- app_assoc. simpl.
    repeat f_equal. lia.
Qed.

Lemma upsert_loop_rejected f pre call post tbl done (c : nat) :
  Forall (accepted f) pre ->
  ~ accepted f call ->
  upsert_loop f (pre ++ call :: post) tbl done c =
    (apply_upserts pre tbl, done ++ pre ++ [call], None).
Proof.
  intros Hall Hrej. revert tbl done c.
  induction Hall as [|[[a d] n] calls Hx Hall IH]; intros tbl done c.
  - destruct call as [[a d] n]. unfold accepted in Hrej. simpl in Hrej.
    simpl. unfold upsert.
    destruct (upsert_fails f a d); [reflexivity | congruence].
  - unfold accepted in Hx. simpl in Hx.
    simpl app. simpl upsert_loop. unfold upsert.
    rewrite Hx, IH. rewrite <- app_assoc. reflexivity.
Qed.

(** Either every call is accepted or there is a first rejected one. *)
Lemma calls_split f calls :
  Forall (accepted f) calls \/
  exists pre call post,
    calls = pre ++ call :: post /\ Forall (accepted f) pre /\ ~ accepted f call.
Proof.
  induction calls as [|x calls IH]; [left; constructor |].
  destruct (accepted_dec f x) as [Hx | Hx].
  - destruct IH as [Hall | (pre & call & post & -> & Hpre & Hrej)].
    + left. constructor; assumption.
    + right. exists (x :: pre), call, post.
      split; [reflexivity |]. split; [constructor; assumption | exact Hrej].
  - right. exists [], x, calls. split; [reflexivity |]. split; [constructor | exact Hx].
Qed.

(** The table a loop leaves is the one of the calls before the first
    rejected one, applied to the table it started from. *)
Lemma upsert_loop_table f calls :
  exists pre, forall tbl done (c : nat),
    fst (fst (upsert_loop f calls tbl done c)) = apply_upserts pre tbl.
Proof.
  destruct (calls_split f calls) as [Hall | (pre & call & post & -> & Hpre & Hrej)].
  - exists calls. intros. rewrite upsert_loop_accepted by exact Hall. reflexivity.
  - exists pre. intros. rewrite upsert_loop_rejected by assumption. reflexivity.
Qed.

Lemma runAggregationNow_table (realm : Realm) f logs :
  exists pre, forall tbl,
    table (fst (runAggregationNow realm f logs tbl)) = apply_upserts pre tbl.
Proof.
  unfold runAggregationNow.
  destruct (findMany_fails f); [exists []; reflexivity |].
  destruct (length logs =? 0)%nat; [exists []; reflexivity |].
  destruct (group_logs realm logs) as [realm1 [grouped|]];
    [| exists []; reflexivity].
  destruct (upsert_loop_table f (upsert_calls grouped)) as (pre & Hpre).
  exists pre. intros tbl. specialize (Hpre tbl [] 0%nat).
  destruct (upsert_loop f (upsert_calls grouped) tbl [] 0)
    as [[tbl' done] [c|]]; exact Hpre.
Qed.

(** With plain article ids and no count on the prototype, a full run
    is the upsert loop over the tallies, and leaves the realm as it
    found it. *)
Lemma runAggregationNow_plain (realm : Realm) f logs tbl :
  onPrototype realm = [] -> plain_ids logs ->
  runAggregationNow realm f logs tbl =
    (if findMany_fails f then mkRun tbl [] Failed
     else if (length logs =? 0)%nat then mkRun tbl [] NoLogs
     else match upsert_loop f (upsert_calls (tallies logs)) tbl [] 0 with
          | (tbl', done, Some upsertCount) => mkRun tbl' done (Complete upsertCount)
          | (tbl', done, None) => mkRun tbl' done Failed
          end,
     realm).
Proof.
  intros Hp Hids. unfold runAggregationNow.
  destruct (findMany_fails f); [reflexivity |].
  destruct (length logs =? 0)%nat; [reflexivity |].
  rewrite group_logs_plain by assumption.
  destruct (upsert_loop f (upsert_calls (tallies logs)) tbl [] 0)
    as [[tbl' done] [c|]]; reflexivity.
Qed.

Lemma runAggregationNow_realm (realm : Realm) f logs tbl :
  onPrototype realm = [] -> plain_ids logs ->
  snd (runAggregationNow realm f logs tbl) = realm.
Proof. intros Hp Hids. rewrite runAggregationNow_plain by assumption. reflexivity. Qed.

Lemma processAggregation_table f now logs :
  exists pre, forall tbl,
    table (processAggregation f now logs tbl) = apply_upserts pre tbl.
Proof.
  unfold processAggregation. cbv zeta.
  destruct (findMany_fails f); [exists []; reflexivity |].
  set (calls := map _ _).
  destruct (upsert_loop_table f calls) as (pre & Hpre).
  exists pre. intros tbl. specialize (Hpre tbl [] 0%nat).
  destruct (upsert_loop f calls tbl [] 0) as [[tbl' done] [c|]]; exact Hpre.
Qed.

(** *** What a run without rejected calls leaves in the table *)

Lemma no_faults_accepted calls : Forall (accepted no_faults) calls.
Proof. apply Forall_forall. intros x _. reflexivity. Qed.

Lemma reads_on_nil a d : reads_on a d [] = 0%nat.
Proof. reflexivity. Qed.

Lemma runAggregationNow_lookup (realm : Realm) logs tbl a d :
  onPrototype realm = [] -> plain_ids logs ->
  table (fst (runAggregationNow realm no_faults logs tbl)) !! (a, d) =
    if (reads_on a d logs =? 0)%nat then tbl !! (a, d)
    else Some (reads_on a d logs).
Proof.
  intros Hp Hids. rewrite runAggregationNow_plain by assumption.
  cbn [findMany_fails no_faults fst].
  destruct logs as [|log logs]; [reflexivity |].
  cbn [length Nat.eqb].
  rewrite upsert_loop_accepted by apply no_faults_accepted. cbn [table].
  pose proof (tallies_wf (log :: logs)) as Hwf.
  pose proof (grouped_count_tallies (log :: logs) a d) as Hc.
  destruct (reads_on a d (log :: logs) =? 0)%nat.
  - apply apply_upserts_other. intros n Hn.
    apply (In_upsert_calls _ _ _ _ Hwf) in Hn. congruence.
  - apply apply_upserts_In.
    + apply (In_upsert_calls _ _ _ _ Hwf). exact Hc.
    + intros n' Hn'. apply (In_upsert_calls _ _ _ _ Hwf) in Hn'. congruence.
Qed.

Lemma count_article_In a (rows : list ReadLog) :
  In a (map articleId rows) <-> count_article a rows <> 0%nat.
Proof.
  unfold count_article. induction rows as [|r rows IH]; simpl; [tauto |].
  rewrite filter_cons. destruct (decide (articleId r = a)) as [Ha | Ha]; simpl.
  - split; [lia | tauto].
  - rewrite IH. tauto.
Qed.

Lemma processAggregation_lookup now logs tbl a d :
  table (processAggregation no_faults now logs tbl) !! (a, d) =
    let rows := filter (fun log => in_range (yesterday_of now) (today_of now) log = true)
                       logs in
    if decide (d = yesterday_of now /\ count_article a rows <> 0%nat)
    then Some (count_article a rows)
    else tbl !! (a, d).
Proof.
  unfold processAggregation, groupBy_articleId. cbv zeta.
  cbn [findMany_fails no_faults].
  generalize (yesterday_of now) as y. generalize (today_of now) as td. intros td y.
  set (rows := filter _ logs).
  rewrite upsert_loop_accepted by apply no_faults_accepted. cbn [table].
  assert (forall n,
            In (a, d, n)
               (map (fun '(a0, n0) => (a0, y, n0))
                    (map (fun a0 => (a0, count_article a0 rows))
                         (remove_dups (map articleId rows)))) <->
            d = y /\ count_article a rows <> 0%nat /\ n = count_article a rows)
    as Hin.
  { intros n. rewrite in_map_iff. split.
    - intros ([a0 n0] & Heq & H0). injection Heq as Ea Ed En.
      apply in_map_iff in H0 as (a1 & Heq1 & H1). injection Heq1 as Ea1 En1.
      apply (proj2 (list_elem_of_In _ _)) in H1.
      apply (proj1 (elem_of_remove_dups _ _)) in H1.
      apply (proj1 (list_elem_of_In _ _)) in H1.
      apply count_article_In in H1.
      repeat split; congruence.
    - intros (-> & Hpos & ->). exists (a, count_article a rows).
      split; [reflexivity |]. apply in_map_iff. exists a. split; [reflexivity |].
      apply (proj1 (list_elem_of_In _ _)).
      apply (proj2 (elem_of_remove_dups _ _)).
      apply (proj2 (list_elem_of_In _ _)).
      apply count_article_In, Hpos. }
  destruct (decide (d = y /\ count_article a rows <> 0%nat)) as [[Hd Hpos] | Hno].
  - apply apply_upserts_In.
    + apply Hin. auto.
    + intros n' Hn'. apply Hin in Hn'. tauto.
  - apply apply_upserts_other. intros n Hn. apply Hin in Hn. tauto.
Qed.

(** For reads and a job instant not before the epoch, the rows the
    daily job counts for an article are the reads the full run puts
    under yesterday's key. *)
Lemma count_in_range_reads_on now logs a :
  0 <= now ->
  Forall (fun log => 0 <= readAt log) logs ->
  count_article a
    (filter (fun log => in_range (yesterday_of now) (today_of now) log = true) logs)
  = reads_on a (yesterday_of now) logs.
Proof.
  intros Hn Hall. unfold count_article, reads_on.
  induction Hall as [|log logs Hlog Hall IH]; [reflexivity |].
  pose proof (in_range_dateKey now log Hn Hlog) as Hr.
  rewrite !filter_cons.
  destruct (decide (in_range (yesterday_of now) (today_of now) log = true)) as [Hi | Hi].
  - rewrite filter_cons.
    destruct (decide (articleId log = a)) as [Ha | Ha].
    + rewrite decide_True by tauto. simpl. rewrite IH. reflexivity.
    + rewrite decide_False by tauto. exact IH.
  - rewrite decide_False by tauto. exact IH.
Qed.

Lemma reads_on_pos a d logs :
  reads_on a d logs <> 0%nat ->
  exists log, In log logs /\ articleId log = a /\ dateKey (readAt log) = d.
Proof.
  induction logs as [|log logs IH]; [intros H; elim H; reflexivity |].
  rewrite reads_on_cons.
  destruct (decide (articleId log = a /\ dateKey (readAt log) = d)) as [[Ha Hd] | Hno].
  - intros _. exists log. split; [left; reflexivity | auto].
  - intros H. destruct (IH H) as (l & Hl & Hp). exists l. split; [right; exact Hl | exact Hp].
Qed.

Lemma incremental_runs_lookup nows logs tbl a d :
  Forall (fun now => 0 <= now) nows ->
  Forall (fun log => 0 <= readAt log) logs ->
  incremental_runs nows logs tbl !! (a, d) =
    if decide (d ∈ map yesterday_of nows /\ reads_on a d logs <> 0%nat)
    then Some (reads_on a d logs)
    else tbl !! (a, d).
Proof.
  intros Hnows Hlogs. revert tbl.
  induction Hnows as [|now nows Hnow Hnows IH]; intros tbl.
  - change (incremental_runs [] logs tbl) with tbl.
    destruct (decide _) as [[Hd _] | _]; [inversion Hd | reflexivity].
  - change (incremental_runs (now :: nows) logs tbl)
      with (incremental_runs nows logs (table (processAggregation no_faults now logs tbl))).
    rewrite IH, processAggregation_lookup. cbv zeta.
    rewrite (count_in_range_reads_on now logs a Hnow Hlogs).
    rewrite map_cons.
    destruct (decide (d ∈ map yesterday_of nows /\ reads_on a d logs <> 0%nat))
      as [[Hd Hpos] | Hno].
    + rewrite decide_True; [reflexivity |].
      split; [apply elem_of_cons; right; exact Hd | exact Hpos].
    + destruct (decide (d = yesterday_of now /\
                        reads_on a (yesterday_of now) logs <> 0%nat))
        as [[-> Hpos] | Hno'].
      * rewrite decide_True; [reflexivity |].
        split; [apply elem_of_cons; left; reflexivity | exact Hpos].
      * rewrite decide_False; [reflexivity |].
        intros [Hd Hpos]. apply elem_of_cons in Hd as [-> | Hd]; tauto.
Qed.

Lemma processAggregation_lookup_day now logs tbl a d :
  0 <= now ->
  Forall (fun log => 0 <= readAt log) logs ->
  table (processAggregation no_faults now logs tbl) !! (a, d) =
    if decide (d = yesterday_of now /\ reads_on a d logs <> 0%nat)
    then Some (reads_on a d logs)
    else tbl !! (a, d).
Proof.
  intros Hnow Hlogs. rewrite processAggregation_lookup. cbv zeta.
  rewrite (count_in_range_reads_on now logs a Hnow Hlogs).
  destruct (decide (d = yesterday_of now /\ reads_on a d logs <> 0%nat))
    as [[-> Hpos] | Hno].
  - rewrite decide_True by tauto. reflexivity.
  - rewrite decide_False; [reflexivity |]. intros [-> Hpos]. tauto.
Qed.

Lemma incremental_union_lookup nows logs a d :
  Forall (fun now => 0 <= now) nows ->
  Forall (fun log => 0 <= readAt log) logs ->
  incremental_union nows logs !! (a, d) =
    if decide (d ∈ map yesterday_of nows /\ reads_on a d logs <> 0%nat)
    then Some (reads_on a d logs)
    else None.
Proof.
  intros Hnows Hlogs. unfold incremental_union.
  induction Hnows as [|now nows Hnow Hnows IH].
  - cbn [map union_list foldr]. rewrite lookup_empty.
    destruct (decide _) as [[Hd _] | _]; [inversion Hd | reflexivity].
  - rewrite !map_cons.
    change (⋃ (?m :: ?ms)) with (m ∪ ⋃ ms).
    rewrite lookup_union, IH.
    rewrite (processAggregation_lookup_day now logs ∅ a d Hnow Hlogs), lookup_empty.
    destruct (decide (d = yesterday_of now /\ reads_on a d logs <> 0%nat)) as [H1 | H1];
      destruct (decide (d ∈ map yesterday_of nows /\ reads_on a d logs <> 0%nat))
        as [H2 | H2];
      destruct (decide (d ∈ yesterday_of now :: map yesterday_of nows /\
                        reads_on a d logs <> 0%nat)) as [H3 | H3];
      try reflexivity; exfalso; rewrite elem_of_cons in H3; tauto.
Qed.

(** *** The claims on aggregation *)

(** C2. Running either aggregation again on the table it left, with
    the same read logs (and, for the daily job, at the same instant),
    leaves the same table, whichever upserts the storage rejects.
    When none is rejected, the count under each key is the number of
    matching reads whatever the table held before, and the keys
    without reads keep what they held.  For the full run this is so
    when the article ids are plain and the prototype carries no count:
    the run then leaves the realm as it found it, and the second run
    starts from the realm the first one left. *)
Theorem aggregation_idempotent (realm : Realm) f logs now tbl :
  let full := runAggregationNow realm f logs tbl in
  let daily := processAggregation f now logs tbl in
  (onPrototype realm = [] -> plain_ids logs ->
   snd full = realm /\
   table (fst (runAggregationNow (snd full) f logs (table (fst full))))
   = table (fst full) /\
   forall a d,
     table (fst (runAggregationNow realm no_faults logs tbl)) !! (a, d) =
       if (reads_on a d logs =? 0)%nat then tbl !! (a, d)
       else Some (reads_on a d logs)) /\
  table (processAggregation f now logs (table daily)) = table daily /\
  (forall a d,
     let rows := filter (fun log => in_range (yesterday_of now) (today_of now) log = true)
                        logs in
     table (processAggregation no_faults now logs tbl) !! (a, d) =
       if decide (d = yesterday_of now /\ count_article a rows <> 0%nat)
       then Some (count_article a rows)
       else tbl !! (a, d)).
Proof.
  intros full daily. subst full daily.
  destruct (processAggregation_table f now logs) as (pre' & Hpre').
  split; [| split].
  - intros Hp Hids.
    rewrite runAggregationNow_realm by assumption.
    destruct (runAggregationNow_table realm f logs) as (pre & Hpre).
    split; [reflexivity |]. split.
    + rewrite !Hpre. apply apply_upserts_idem.
    + intros a d. apply runAggregationNow_lookup; assumption.
  - rewrite !Hpre'. apply apply_upserts_idem.
  - intros a d. apply processAggregation_lookup.
Qed.

(** C3, as the code has it.  The upserts of a full run are awaited
    inside the single [try] of the routine: the first rejected one
    ends the run.  The calls before it stay applied, the run logs the
    failure and returns, no later group is attempted, and the rows of
    the rejected group and of the later ones are left as they were. *)
Theorem rejected_upsert_ends_run (realm realm1 : Realm) f logs tbl grouped
    pre call post :
  findMany_fails f = false ->
  logs <> [] ->
  group_logs realm logs = (realm1, Some grouped) ->
  upsert_calls grouped = pre ++ call :: post ->
  Forall (accepted f) pre ->
  ~ accepted f call ->
  let run := fst (runAggregationNow realm f logs tbl) in
  outcome run = Failed /\
  attempted run = pre ++ [call] /\
  table run = apply_upserts pre tbl /\
  (forall a d n, In (a, d, n) (call :: post) -> table run !! (a, d) = tbl !! (a, d)).
Proof.
  intros Hfind Hlogs Hgroup Hcalls Hpre Hrej run.
  assert (run = mkRun (apply_upserts pre tbl) (pre ++ [call]) Failed) as ->.
  { subst run. unfold runAggregationNow. rewrite Hfind.
    destruct logs as [|log logs]; [congruence |]. cbn [length Nat.eqb].
    rewrite Hgroup, Hcalls, upsert_loop_rejected by assumption. reflexivity. }
  cbn [outcome attempted table].
  split; [reflexivity |]. split; [reflexivity |]. split; [reflexivity |].
  intros a d n Hin.
  pose proof (upsert_calls_NoDup _ (group_logs_wf _ _ _ _ Hgroup)) as Hnd.
  rewrite Hcalls, map_app in Hnd.
  apply NoDup_app in Hnd as (_ & Hdisj & _).
  apply apply_upserts_other. intros n' Hn'.
  apply (Hdisj (a, d)).
  - apply list_elem_of_In. change (a, d) with (fst (a, d, n')). apply in_map, Hn'.
  - apply list_elem_of_In. change (a, d) with (fst (a, d, n)). apply in_map, Hin.
Qed.

(** C5. For read logs and job instants not before the epoch, plain
    article ids and a prototype without counts: the daily job run for
    a day leaves under that day's keys what the full run leaves there;
    and when the days of the job instants cover the days of the
    history, the daily jobs run one after the other leave the table of
    the full run, and the union of their results from an empty table
    is the result of the full run from an empty table. *)
Theorem full_equals_incremental (realm : Realm) logs nows tbl :
  onPrototype realm = [] ->
  plain_ids logs ->
  Forall (fun log => 0 <= readAt log) logs ->
  Forall (fun now => 0 <= now) nows ->
  Forall (fun log => dateKey (readAt log) ∈ map yesterday_of nows) logs ->
  (forall now a,
     now ∈ nows ->
     table (processAggregation no_faults now logs tbl) !! (a, yesterday_of now) =
     table (fst (runAggregationNow realm no_faults logs tbl)) !! (a, yesterday_of now)) /\
  incremental_runs nows logs tbl
  = table (fst (runAggregationNow realm no_faults logs tbl)) /\
  incremental_union nows logs
  = table (fst (runAggregationNow realm no_faults logs ∅)).
Proof.
  intros Hp Hids Hlogs Hnows Hcover.
  assert (forall a d, reads_on a d logs <> 0%nat -> d ∈ map yesterday_of nows) as Hday.
  { intros a d Hpos. destruct (reads_on_pos a d logs Hpos) as (log & Hin & _ & <-).
    rewrite Forall_forall in Hcover. apply Hcover, list_elem_of_In, Hin. }
  split; [| split].
  - intros now a Hin.
    assert (0 <= now) as Hnow.
    { rewrite Forall_forall in Hnows. apply Hnows, Hin. }
    rewrite processAggregation_lookup, runAggregationNow_lookup by assumption.
    cbv zeta.
    rewrite (count_in_range_reads_on now logs a Hnow Hlogs).
    destruct (Nat.eqb_spec (reads_on a (yesterday_of now) logs) 0) as [Hz | Hnz].
    + rewrite decide_False by tauto. reflexivity.
    + rewrite decide_True by tauto. reflexivity.
  - apply map_eq. intros [a d].
    rewrite incremental_runs_lookup, runAggregationNow_lookup by assumption.
    destruct (Nat.eqb_spec (reads_on a d logs) 0) as [Hz | Hnz].
    + rewrite decide_False by tauto. reflexivity.
    + rewrite decide_True by (split; [apply (Hday a d Hnz) | exact Hnz]). reflexivity.
  - apply map_eq. intros [a d].
    rewrite incremental_union_lookup, runAggregationNow_lookup by assumption.
    rewrite lookup_empty.
    destruct (Nat.eqb_spec (reads_on a d logs) 0) as [Hz | Hnz].
    + rewrite decide_False by tauto. reflexivity.
    + rewrite decide_True by (split; [apply (Hday a d Hnz) | exact Hnz]). reflexivity.
Qed.

Lemma entries_singleton (a : string) (ds : Dates) :
  JsObject.entries JsObject.array_index [(a, ds)] = [(a, ds)].
Proof.
  unfold JsObject.entries, JsObject.index_entries, JsObject.named_entries.
  rewrite filter_cons. cbn [omap list_omap fst].
  destruct (JsObject.array_index a) as [i|]; reflexivity.
Qed.

Lemma tallies_two_days a (r1 r2 : option string) (t1 t2 : Z) :
  dateKey t1 <> dateKey t2 ->
  tallies [mkReadLog a r1 t1; mkReadLog a r2 t2] =
    [(a, [(dateKey t1, 1%nat); (dateKey t2, 1%nat)])].
Proof.
  unfold tallies. cbn [fold_left]. unfold tally. cbn [articleId readAt].
  generalize (dateKey t1) as k1. generalize (dateKey t2) as k2. intros k2 k1 Hne.
  repeat (simpl;
          rewrite ?(decide_True (P := a = a)) by reflexivity;
          rewrite ?(decide_False (P := k1 = k2)) by exact Hne).
  reflexivity.
Qed.

Lemma nothing_in_range gte lt logs :
  Forall (fun log => in_range gte lt log = false) logs ->
  groupBy_articleId gte lt logs = [].
Proof.
  intros Hout. unfold groupBy_articleId.
  assert (filter (fun log => in_range gte lt log = true) logs = []) as ->;
    [| reflexivity].
  induction Hout as [|log logs Hlog _ IH]; [reflexivity |].
  rewrite filter_cons, decide_False by congruence. exact IH.
Qed.

(** C6. Two reads of one article of a plain id, at 2024-01-01T23:59:59Z
    and at 2024-01-02T00:00:01Z, make the full run upsert two rows, one
    under the key of 2024-01-01 and one under the key of 2024-01-02,
    each with [viewCount] 1, and touch no other key.  Without read
    logs the full run issues no upsert, and so does the daily job when
    no read log falls on the day before its instant: the table and the
    realm are left as they were and the run ends without an error. *)
Theorem utc_day_buckets (realm : Realm) (a : string) (r1 r2 : option string)
    (rejects : string -> Z -> bool) (now : Z) tbl logs :
  let e1 := mkReadLog a r1 (isoInstant 2024 1 1 23 59 59) in
  let e2 := mkReadLog a r2 (isoInstant 2024 1 2 0 0 1) in
  let day1 := isoInstant 2024 1 1 0 0 0 in
  let day2 := isoInstant 2024 1 2 0 0 0 in
  let run := fst (runAggregationNow realm no_faults [e1; e2] tbl) in
  isoDate day1 = (2024, 1, 1) /\
  isoDate day2 = (2024, 1, 2) /\
  toISOString day1 = "2024-01-01T00:00:00.000Z"%string /\
  toISOString day2 = "2024-01-02T00:00:00.000Z"%string /\
  (onPrototype realm = [] -> JsObject.inherited a = false ->
   attempted run = [(a, day1, 1%nat); (a, day2, 1%nat)] /\
   outcome run = Complete 2 /\
   table run = <[(a, day2) := 1%nat]> (<[(a, day1) := 1%nat]> tbl) /\
   table run !! (a, day1) = Some 1%nat /\
   table run !! (a, day2) = Some 1%nat) /\
  runAggregationNow realm (mkFaults false rejects) [] tbl
  = (mkRun tbl [] NoLogs, realm) /\
  (Forall (fun log => in_range (yesterday_of now) (today_of now) log = false) logs ->
   processAggregation (mkFaults false rejects) now logs tbl
   = mkRun tbl [] (Complete 0)).
Proof.
  intros e1 e2 day1 day2 run.
  assert (dateKey (isoInstant 2024 1 1 23 59 59) = day1) as K1
    by (vm_compute; reflexivity).
  assert (dateKey (isoInstant 2024 1 2 0 0 1) = day2) as K2
    by (vm_compute; reflexivity).
  assert (day1 <> day2) as Hne by (vm_compute; discriminate).
  split; [vm_compute; reflexivity |]. split; [vm_compute; reflexivity |].
  split; [vm_compute; reflexivity |]. split; [vm_compute; reflexivity |].
  split; [| split].
  - intros Hp Ha.
    assert (run = mkRun (<[(a, day2) := 1%nat]> (<[(a, day1) := 1%nat]> tbl))
                        [(a, day1, 1%nat); (a, day2, 1%nat)] (Complete 2)) as ->.
    { subst run e1 e2.
      rewrite runAggregationNow_plain
        by (try exact Hp; repeat constructor; exact Ha).
      cbn [findMany_fails no_faults length Nat.eqb fst].
      rewrite tallies_two_days by (rewrite K1, K2; exact Hne).
      rewrite K1, K2. unfold upsert_calls.
      rewrite entries_singleton. cbn [flat_map]. rewrite entries_no_index.
      reflexivity. }
    cbn [attempted outcome table].
    split; [reflexivity |]. split; [reflexivity |]. split; [reflexivity |].
    split.
    + rewrite lookup_insert_ne by (intros [= E]; apply Hne; symmetry; exact E).
      apply lookup_insert_eq.
    + apply lookup_insert_eq.
  - reflexivity.
  - intros Hout. unfold processAggregation. cbn [findMany_fails].
    rewrite nothing_in_range by exact Hout. reflexivity.
Qed.
End AggregationFacts.

(** ** Worked instances *)
Section Instances.
Import Samples.

Example isoInstant_values :
  isoInstant 1970 1 1 0 0 0 = 0 /\
  isoInstant 2024 1 1 23 59 59 = 1704153599000 /\
  isoInstant 2024 1 2 0 0 1 = 1704153601000 /\
  isoDate 951782400000 = (2000, 2, 29) /\
  isoDate (-1) = (1969, 12, 31).
Proof. vm_compute. repeat split. Qed.

(** Two pairs whose actor keys clash fall under one key of the map:
    the gate cannot tell them apart. *)
Example clashing_pairs_share_a_key :
  clash "u1" "u1-x" = true /\
  rateLimitKey "u1" "x-news" = rateLimitKey "u1-x" "news" /\
  clash "guest" "0f8fad5b-d9cb-469f-a165-70867728950e" = false.
Proof. vm_compute. repeat split. Qed.

(** A live article read twice within the window by a guest, a missing
    article and a soft-deleted one: one read log in all. *)
Example serve_mixed_requests :
  serve false articles
    [ (guest_request "10.0.0.1", 1000);
      (mkRequest "news-none" None "10.0.0.1", 2000);
      (mkRequest "news-gone" None "10.0.0.1", 3000);
      (guest_request "10.0.0.2", 4000) ] initial
  = ([ mkResponse 200 "Article retrieved successfully";
       mkResponse 404 "Article not found";
       mkResponse 410 "News article no longer available";
       mkResponse 200 "Article retrieved successfully" ],
     mkState {[ "guest-news-a" := 1000 ]} [("news-a", None)]).
Proof. vm_compute. reflexivity. Qed.

Example entries_order :
  JsObject.entries JsObject.array_index
    [("news-b", 1%nat); ("10", 2%nat); ("9", 3%nat); ("007", 4%nat)]
  = [("9", 3%nat); ("10", 2%nat); ("news-b", 1%nat); ("007", 4%nat)].
Proof. vm_compute. reflexivity. Qed.

(** Article ids that name a member of [Object.prototype].  The reads
    under [constructor] and [__proto__] get no row; the one under
    [__proto__] leaves a count on the prototype, which the two reads of
    news-a are counted on top of, and which is still there in the next
    run of the process.  After it a read under the ISO string of that
    day finds a number: strict code throws and the run fails, other
    code drops the read. *)
Example inherited_article_ids :
  let first := runAggregationNow (fresh_realm true) no_faults inherited_logs ∅ in
  let second := runAggregationNow (snd first) no_faults inherited_logs
                                  (table (fst first)) in
  attempted (fst first) = [("news-a", 1704067200000, 3%nat)] /\
  outcome (fst first) = Complete 1 /\
  onPrototype (snd first) = [(1704067200000, 1%nat)] /\
  onFunctions (snd first) = [("constructor"%string, [(1704067200000, 2%nat)])] /\
  attempted (fst second) = [("news-a", 1704067200000, 4%nat)] /\
  toISOString 1704067200000 = "2024-01-01T00:00:00.000Z"%string /\
  fst (runAggregationNow (snd first) no_faults
         [mkReadLog "2024-01-01T00:00:00.000Z" None 1704067200000] ∅)
  = mkRun ∅ [] Failed /\
  fst (runAggregationNow
         (mkRealm false (onPrototype (snd first)) (onFunctions (snd first)))
         no_faults [mkReadLog "2024-01-01T00:00:00.000Z" None 1704067200000] ∅)
  = mkRun ∅ [] (Complete 0).
Proof. vm_compute. repeat split. Qed.

(** With the broker unreachable, two ticks of the interval without a
    settled run in between leave two runs in flight: the second tick
    is not skipped. *)
Lemma overlapping_ticks_run_concurrently :
  mode (startServer None true) = Some InProcessFallback /\
  running (run_events (startServer None true) [TimerTick]) = 1%nat /\
  running (run_events (startServer None true) [TimerTick; TimerTick]) = 2%nat /\
  ~ (running (run_events (startServer None true) [TimerTick; TimerTick]) <= 1)%nat.
Proof.
  split; [reflexivity |]. split; [reflexivity |]. split; [reflexivity |].
  vm_compute. lia.
Qed.

(** A tick, the run settles, the next tick: one run in flight; a tick
    more, and two. *)
Lemma one_run_unless_ticks_overlap_witness :
  no_overlap (startServer None true) [TimerTick; RunSettles; TimerTick] = true /\
  (running (run_events (startServer None true) [TimerTick; RunSettles; TimerTick])
     <= 1)%nat /\
  started (run_events (startServer None true) [TimerTick; RunSettles; TimerTick])
    = 3%nat /\
  running (run_events (startServer None true)
             ([TimerTick; RunSettles; TimerTick] ++ [TimerTick])) = 2%nat.
Proof.
  assert (no_overlap (startServer None true) [TimerTick; RunSettles; TimerTick]
          = true) as H by reflexivity.
  split; [exact H |].
  destruct (proj2 (one_run_unless_ticks_overlap None true
                     [TimerTick; RunSettles; TimerTick]) eq_refl)
    as (_ & Hstarted & Hnext & Hone).
  split; [exact (Hone H) |]. split; [exact Hstarted |].
  rewrite Hnext. reflexivity.
Defined.

(** The upsert for the first group is rejected; the one for article
    [news-b] would be accepted, and it is neither attempted nor
    applied. *)
Lemma later_groups_not_attempted :
  option_map upsert_calls (snd (group_logs (fresh_realm true) logs)) =
    Some [("news-a", 1704067200000, 2%nat); ("news-a", 1704153600000, 1%nat);
          ("news-b", 1704067200000, 1%nat)] /\
  upsert_fails rejects_a "news-a" 1704067200000 = true /\
  upsert_fails rejects_a "news-b" 1704067200000 = false /\
  attempted (fst (runAggregationNow (fresh_realm true) rejects_a logs ∅))
  = [("news-a", 1704067200000, 2%nat)] /\
  table (fst (runAggregationNow (fresh_realm true) rejects_a logs ∅))
    !! ("news-b", 1704067200000) = None /\
  outcome (fst (runAggregationNow (fresh_realm true) rejects_a logs ∅)) = Failed.
Proof. vm_compute. repeat split. Qed.

(** The first upsert is applied, the second is rejected, the third is
    never attempted. *)
Lemma rejected_upsert_ends_run_witness :
  findMany_fails rejects_second_day = false /\
  logs <> [] /\
  group_logs (fresh_realm true) logs = (fresh_realm true, Some (tallies logs)) /\
  upsert_calls (tallies logs) =
    [("news-a", 1704067200000, 2%nat)]
      ++ ("news-a", 1704153600000, 1%nat) :: [("news-b", 1704067200000, 1%nat)] /\
  Forall (accepted rejects_second_day) [("news-a", 1704067200000, 2%nat)] /\
  ~ accepted rejects_second_day ("news-a", 1704153600000, 1%nat) /\
  attempted (fst (runAggregationNow (fresh_realm true) rejects_second_day logs ∅)) =
    [("news-a", 1704067200000, 2%nat)] ++ [("news-a", 1704153600000, 1%nat)].
Proof.
  assert (findMany_fails rejects_second_day = false) as H1 by reflexivity.
  assert (logs <> []) as H2 by discriminate.
  assert (group_logs (fresh_realm true) logs
          = (fresh_realm true, Some (tallies logs))) as Hg
    by (vm_compute; reflexivity).
  assert (upsert_calls (tallies logs) =
            [("news-a", 1704067200000, 2%nat)]
              ++ ("news-a", 1704153600000, 1%nat) :: [("news-b", 1704067200000, 1%nat)])
    as H3 by (vm_compute; reflexivity).
  assert (Forall (accepted rejects_second_day) [("news-a", 1704067200000, 2%nat)])
    as H4 by (repeat constructor).
  assert (~ accepted rejects_second_day ("news-a", 1704153600000, 1%nat))
    as H5 by (vm_compute; discriminate).
  repeat (split; [assumption |]).
  apply (proj1 (proj2
           (rejected_upsert_ends_run (fresh_realm true) (fresh_realm true)
              rejects_second_day logs ∅ _ _ _ _ H1 H2 Hg H3 H4 H5))).
Defined.

(** A reader admitted at 1000 ms, after a guest on the same article,
    is admitted again at 11001 ms, from another address. *)
Lemma dedup_gate_window_witness :
  clock_ok 1 (map snd [(guest_request "10.0.0.9", 500); (reader_request, 1000)]
              ++ [11001]) /\
  0 < 1000 /\
  Forall (fun r => clash (actorKey (fst r)) (actorKey reader_request) = false)
         [(guest_request "10.0.0.9", 500); (reader_request, 1000)] /\
  pair_admissions initial ∅ [(guest_request "10.0.0.9", 500); (reader_request, 1000)]
    !! pair_of reader_request = Some 1000 /\
  fst (trackRead (track_all initial
                    [(guest_request "10.0.0.9", 500); (reader_request, 1000)])
         (mkRequest "news-a" (Some (mkUser "reader-1" "reader")) "10.0.0.2") 11001)
    = true.
Proof.
  assert (clock_ok 1 (map snd [(guest_request "10.0.0.9", 500); (reader_request, 1000)]
                      ++ [11001])) as H1
    by (simpl; lia).
  assert (0 < 1000) as H2 by lia.
  assert (Forall (fun r => clash (actorKey (fst r)) (actorKey reader_request) = false)
                 [(guest_request "10.0.0.9", 500); (reader_request, 1000)]) as Hc
    by (repeat constructor).
  assert (pair_admissions initial ∅
            [(guest_request "10.0.0.9", 500); (reader_request, 1000)]
            !! pair_of reader_request = Some 1000) as H3 by (vm_compute; reflexivity).
  split; [exact H1 |]. split; [exact H2 |]. split; [exact Hc |]. split; [exact H3 |].
  apply (proj1 (dedup_gate_window
                  [(guest_request "10.0.0.9", 500); (reader_request, 1000)]
                  (mkRequest "news-a" (Some (mkUser "reader-1" "reader")) "10.0.0.2")
                  reader_request 11001 1000 11001 H1 H2 Hc eq_refl eq_refl)).
  right. exists 1000. split; [exact H3 | lia].
Defined.

(** The daily jobs of 2024-01-02 and 2024-01-03 leave the table of the
    full run. *)
Lemma full_equals_incremental_witness :
  plain_ids logs /\
  Forall (fun log => 0 <= readAt log) logs /\
  Forall (fun now => 0 <= now) nows /\
  Forall (fun log => dateKey (readAt log) ∈ map yesterday_of nows) logs /\
  incremental_runs nows logs ∅
  = table (fst (runAggregationNow (fresh_realm true) no_faults logs ∅)).
Proof.
  assert (plain_ids logs) as H0 by (repeat constructor).
  assert (Forall (fun log => 0 <= readAt log) logs) as H1
    by (repeat constructor; vm_compute; discriminate).
  assert (Forall (fun now => 0 <= now) nows) as H2
    by (repeat constructor; vm_compute; discriminate).
  assert (Forall (fun log => dateKey (readAt log) ∈ map yesterday_of nows) logs) as H3
    by (repeat constructor; apply bool_decide_eq_true_1; vm_compute; reflexivity).
  repeat (split; [assumption |]).
  apply (full_equals_incremental (fresh_realm true) logs nows ∅ eq_refl H0 H1 H2 H3).
Defined.

(** A second full run over the sample logs in the realm the first one
    left. *)
Lemma aggregation_idempotent_witness :
  plain_ids logs /\
  snd (runAggregationNow (fresh_realm true) rejects_second_day logs ∅)
  = fresh_realm true /\
  table (fst (runAggregationNow
                (snd (runAggregationNow (fresh_realm true) rejects_second_day logs ∅))
                rejects_second_day logs
                (table (fst (runAggregationNow (fresh_realm true) rejects_second_day
                               logs ∅)))))
  = table (fst (runAggregationNow (fresh_realm true) rejects_second_day logs ∅)).
Proof.
  assert (plain_ids logs) as H0 by (repeat constructor).
  split; [exact H0 |].
  destruct (proj1 (aggregation_idempotent (fresh_realm true) rejects_second_day logs
                     0 ∅) eq_refl H0) as (Hrealm & Hsame & _).
  split; [exact Hrealm | exact Hsame].
Defined.

(** Two reads of news-a around midnight in a fresh realm. *)
Lemma utc_day_buckets_witness :
  JsObject.inherited "news-a" = false /\
  attempted (fst (runAggregationNow (fresh_realm true) no_faults
                    [ mkReadLog "news-a" None (isoInstant 2024 1 1 23 59 59);
                      mkReadLog "news-a" None (isoInstant 2024 1 2 0 0 1) ] ∅))
  = [ ("news-a", isoInstant 2024 1 1 0 0 0, 1%nat);
      ("news-a", isoInstant 2024 1 2 0 0 0, 1%nat) ].
Proof.
  assert (JsObject.inherited "news-a" = false) as Ha by reflexivity.
  split; [exact Ha |].
  destruct (utc_day_buckets (fresh_realm true) "news-a" None None (fun _ _ => false)
              0 ∅ []) as (_ & _ & _ & _ & Hrun & _).
  exact (proj1 (Hrun eq_refl Ha)).
Defined.

(** With more than 10000 entries after the gate, an entry of 1000 ms
    is gone at 65000 ms and one of 60000 ms stays. *)
Lemma cleanup_bounds_cache_witness :
  10000 < Z.of_nat
            (size (readRateLimit (snd (gate (mkState crowded []) reader_request 65000)))) /\
  readRateLimit (snd (trackRead (mkState crowded []) reader_request 65000))
    !! crowded_key 0 = None /\
  readRateLimit (snd (trackRead (mkState crowded []) reader_request 65000))
    !! crowded_key 7000 = Some 60000.
Proof.
  assert (10000 < Z.of_nat
            (size (readRateLimit (snd (gate (mkState crowded []) reader_request 65000)))))
    as Hsize by (vm_compute; reflexivity).
  split; [exact Hsize |]. split.
  - apply (proj1 (cleanup_bounds_cache (mkState crowded []) reader_request 65000
                    (crowded_key 0) 1000 Hsize));
      [vm_compute; reflexivity | lia].
  - apply (proj1 (proj2 (cleanup_bounds_cache (mkState crowded []) reader_request 65000
                           (crowded_key 7000) 60000 Hsize)));
      [vm_compute; reflexivity | lia].
Defined.

(** Two guests at different addresses, 8 s apart: one read log. *)
Lemma anonymous_reads_coalesce_witness :
  0 < 1000 /\
  9000 - 1000 <= 10000 /\
  fst (trackRead (snd (trackRead initial (guest_request "10.0.0.1") 1000))
         (guest_request "10.0.0.2") 9000) = false /\
  readLogCreates
    (snd (trackRead (snd (trackRead initial (guest_request "10.0.0.1") 1000))
            (guest_request "10.0.0.2") 9000)) = [("news-a", None)].
Proof.
  assert (0 < 1000) as H1 by lia.
  assert (9000 - 1000 <= 10000) as H2 by lia.
  split; [exact H1 |]. split; [exact H2 |].
  apply (proj2 (proj2 (proj2
           (anonymous_reads_coalesce initial "news-a" "10.0.0.1" "10.0.0.2"
              1000 9000 H1 H2)))).
  vm_compute. reflexivity.
Defined.

(** A soft-deleted article is answered 410 and leaves the state
    untouched. *)
Lemma no_tracking_without_article_witness :
  (exists a d,
     ArticleService_getById false articles "news-gone" = Some (Some a) /\
     deletedAt a = Some d) /\
  status (fst (getById false articles initial
                 (mkRequest "news-gone" None "10.0.0.1") 1000)) = 410%nat /\
  snd (getById false articles initial (mkRequest "news-gone" None "10.0.0.1") 1000)
    = initial.
Proof.
  assert (exists a d,
            ArticleService_getById false articles "news-gone" = Some (Some a) /\
            deletedAt a = Some d) as H1.
  { eexists. eexists. split; reflexivity. }
  split; [exact H1 |].
  destruct (no_tracking_without_article articles initial initial
              (mkRequest "news-gone" None "10.0.0.1") 1000 (or_intror H1))
    as (Hs & Hst & _).
  split; [exact Hs | exact Hst].
Defined.
End Instances.

(** ** More on aggregation and the dashboard *)
Section DashboardFacts.
Implicit Types (logs : list ReadLog) (a : string) (d : Z) (n : nat)
  (tbl : AnalyticsTable) (f : Faults) (calls : list (string * Z * nat)).

Lemma apply_upserts_is_Some calls tbl (k : string * Z) :
  is_Some (tbl !! k) -> is_Some (apply_upserts calls tbl !! k).
Proof.
  revert tbl. induction calls as [|[[a d] n] calls IH]; intros tbl Hk; [exact Hk |].
  change (is_Some (apply_upserts calls (<[(a, d) := n]> tbl) !! k)).
  apply IH. destruct (decide ((a, d) = k)) as [-> | Hne].
  - rewrite lookup_insert_eq. eauto.
  - rewrite lookup_insert_ne by exact Hne. exact Hk.
Qed.

Lemma upsert_loop_prefix f calls :
  exists pre post, calls = pre ++ post /\
    forall tbl done (c : nat),
      fst (fst (upsert_loop f calls tbl done c)) = apply_upserts pre tbl.
Proof.
  destruct (calls_split f calls) as [Hall | (pre & call & post & -> & Hpre & Hrej)].
  - exists calls, []. split; [symmetry; apply app_nil_r |].
    intros. rewrite upsert_loop_accepted by exact Hall. reflexivity.
  - exists pre, (call :: post). split; [reflexivity |].
    intros. rewrite upsert_loop_rejected by assumption. reflexivity.
Qed.

(** X1. Neither aggregation removes a row of the table, whatever the
    storage rejects; and the daily job leaves every row of another day
    than yesterday as it was. *)
Theorem aggregation_keeps_rows (realm : Realm) f logs now tbl (a : string) (d : Z) :
  (is_Some (tbl !! (a, d)) ->
     is_Some (table (fst (runAggregationNow realm f logs tbl)) !! (a, d)) /\
     is_Some (table (processAggregation f now logs tbl) !! (a, d))) /\
  (d <> yesterday_of now ->
     table (processAggregation f now logs tbl) !! (a, d) = tbl !! (a, d)).
Proof.
  split.
  - intros Hk.
    destruct (runAggregationNow_table realm f logs) as (pre & ->).
    destruct (processAggregation_table f now logs) as (pre' & ->).
    split; apply apply_upserts_is_Some, Hk.
  - intros Hd. unfold processAggregation. cbv zeta.
    destruct (findMany_fails f); [reflexivity |].
    set (calls := map _ _).
    assert (forall n, ~ In (a, d, n) calls) as Hnot.
    { intros n Hin. subst calls. apply in_map_iff in Hin as ([a' n'] & Heq & _).
      injection Heq as _ Hy _. congruence. }
    destruct (upsert_loop_prefix f calls) as (pre & post & Hsplit & Hpre).
    specialize (Hpre tbl [] 0%nat).
    destruct (upsert_loop f calls tbl [] 0) as [[tbl' done] [c|]];
      cbn [fst table] in *; rewrite Hpre;
      apply apply_upserts_other; intros n Hn; apply (Hnot n);
      rewrite Hsplit; apply in_or_app; left; exact Hn.
Qed.

Lemma size_apply_upserts calls tbl :
  NoDup (map fst calls) ->
  (forall k, In k (map fst calls) -> tbl !! k = None) ->
  size (apply_upserts calls tbl) = (size tbl + length calls)%nat.
Proof.
  revert tbl. induction calls as [|[[a d] n] calls IH]; intros tbl Hnd Hfresh.
  - simpl. lia.
  - change (size (apply_upserts calls (<[(a, d) := n]> tbl)) =
            (size tbl + S (length calls))%nat).
    cbn [map fst] in Hnd. apply NoDup_cons in Hnd as (Hk & Hnd).
    rewrite IH.
    + rewrite map_size_insert_None by (apply Hfresh; left; reflexivity). lia.
    + exact Hnd.
    + intros k Hin. rewrite lookup_insert_ne.
      * apply Hfresh. right. exact Hin.
      * intros <-. apply Hk, list_elem_of_In, Hin.
Qed.

Lemma reads_on_utc_day a d logs :
  Forall (fun log => 0 <= readAt log) logs ->
  (exists k, d = k * 86400000) ->
  reads_on a d logs =
    length (filter (fun log => articleId log = a /\
                               d <= readAt log < d + 86400000) logs).
Proof.
  intros Hlogs (k & ->). unfold reads_on.
  induction Hlogs as [|log logs Hlog _ IH]; [reflexivity |].
  rewrite !filter_cons.
  assert (dateKey (readAt log) = k * 86400000 <->
          k * 86400000 <= readAt log < k * 86400000 + 86400000) as Hday.
  { rewrite dateKey_midnight by exact Hlog. unfold Day, msPerDay.
    generalize (readAt log). intros t. Z.div_mod_to_equations. lia. }
  destruct (decide (articleId log = a /\ dateKey (readAt log) = k * 86400000))
    as [Hyes | Hno].
  - rewrite decide_True by tauto. cbn [length]. rewrite IH. reflexivity.
  - rewrite decide_False by tauto. exact IH.
Qed.

(** X2. With plain article ids, read logs not before the epoch and no
    count on the prototype: on an empty table and with nothing
    rejected, the count that a full run reports is the number of rows
    it leaves; there is a row for an article and a date exactly when
    the date is the UTC midnight of the day of one of its reads, and
    the row holds the number of its reads from that midnight to the
    next. *)
Theorem full_run_reports_rows (realm : Realm) logs :
  onPrototype realm = [] ->
  plain_ids logs ->
  Forall (fun log => 0 <= readAt log) logs ->
  let run := fst (runAggregationNow realm no_faults logs ∅) in
  outcome run =
    match logs with
    | [] => NoLogs
    | _ :: _ => Complete (size (table run))
    end /\
  (forall a d,
     is_Some (table run !! (a, d)) <->
     exists log, In log logs /\ articleId log = a /\
                 d = readAt log / 86400000 * 86400000) /\
  (forall a d n,
     table run !! (a, d) = Some n ->
     n = length (filter (fun log => articleId log = a /\
                                    d <= readAt log < d + 86400000) logs)).
Proof.
  intros Hp Hids Hlogs run.
  assert (forall log, In log logs ->
            dateKey (readAt log) = readAt log / 86400000 * 86400000) as Hkey.
  { intros log Hin. rewrite Forall_forall in Hlogs.
    rewrite dateKey_midnight by (apply Hlogs, list_elem_of_In, Hin). reflexivity. }
  assert (forall a d,
            is_Some (table run !! (a, d)) <->
            exists log, In log logs /\ articleId log = a /\
                        d = readAt log / 86400000 * 86400000) as Hrows.
  { intros a d. subst run.
    rewrite runAggregationNow_lookup, lookup_empty by assumption.
    destruct (Nat.eqb_spec (reads_on a d logs) 0) as [Hz | Hnz].
    - split; [intros [x Hx]; discriminate |].
      intros (log & Hin & Ha & Hd). exfalso. revert Hz.
      rewrite <- (Hkey log Hin) in Hd.
      clear -Hin Ha Hd. induction logs as [|l logs IH]; [destruct Hin |].
      rewrite reads_on_cons. destruct Hin as [-> | Hin].
      + rewrite decide_True by auto. lia.
      + specialize (IH Hin). lia.
    - split; [| eauto]. intros _.
      destruct (reads_on_pos a d logs Hnz) as (log & Hin & Ha & Hd).
      exists log. rewrite <- (Hkey log Hin). auto. }
  split; [| split; [exact Hrows |]].
  - subst run. rewrite runAggregationNow_plain by assumption.
    cbn [findMany_fails no_faults fst].
    destruct logs as [|log logs]; [reflexivity |]. cbn [length Nat.eqb].
    rewrite upsert_loop_accepted by apply no_faults_accepted.
    cbn [outcome table]. f_equal.
    rewrite size_apply_upserts.
    + rewrite map_size_empty. reflexivity.
    + apply upsert_calls_NoDup, tallies_wf.
    + intros k _. apply lookup_empty.
  - intros a d n Hn.
    assert (exists k, d = k * 86400000) as Hk.
    { destruct (proj1 (Hrows a d)) as (log & _ & _ & ->); [rewrite Hn; eauto |].
      eauto. }
    rewrite <- (reads_on_utc_day a d logs Hlogs Hk).
    subst run. rewrite runAggregationNow_lookup, lookup_empty in Hn by assumption.
    destruct (reads_on a d logs =? 0)%nat; congruence.
Qed.

Lemma reads_on_app a d logs1 logs2 :
  reads_on a d (logs1 ++ logs2) = (reads_on a d logs1 + reads_on a d logs2)%nat.
Proof.
  induction logs1 as [|log logs1 IH]; [reflexivity |].
  rewrite <- app_comm_cons, !reads_on_cons, IH. lia.
Qed.

(** X3. Read logs are only added: with plain article ids and no count
    on the prototype, a full run over the longer history, on the table
    and in the realm that a full run over the shorter one left, gives
    the table of a full run on an empty table. *)
Theorem full_run_catches_up (realm : Realm) logs more :
  onPrototype realm = [] ->
  plain_ids (logs ++ more) ->
  let first := runAggregationNow realm no_faults logs ∅ in
  table (fst (runAggregationNow (snd first) no_faults (logs ++ more)
                (table (fst first))))
  = table (fst (runAggregationNow realm no_faults (logs ++ more) ∅)).
Proof.
  intros Hp Hall first. subst first.
  assert (plain_ids logs) as Hids by (apply Forall_app in Hall; tauto).
  rewrite runAggregationNow_realm by assumption.
  apply map_eq. intros [a d].
  rewrite !runAggregationNow_lookup, lookup_empty by assumption.
  rewrite reads_on_app.
  destruct (Nat.eqb_spec (reads_on a d logs + reads_on a d more) 0) as [Hz | Hnz];
    [| reflexivity].
  destruct (Nat.eqb_spec (reads_on a d logs) 0) as [_ | Hnz]; [reflexivity | lia].
Qed.

Lemma TotalViews_sum a tbl :
  Articles.TotalViews a tbl = sum_list (Articles.dailyAnalytics_of a tbl).
Proof.
  unfold Articles.TotalViews.
  assert (forall l acc, fold_left Nat.add l acc = (acc + sum_list l)%nat) as H.
  { induction l as [|x l IH]; intros acc; simpl; [lia |]. rewrite IH. lia. }
  rewrite H. reflexivity.
Qed.

Lemma views_insert a tbl (k : string * Z) n :
  sum_list (Articles.dailyAnalytics_of a (<[k := n]> tbl)) =
    ((if decide (fst k = a) then n else 0)
     + sum_list (Articles.dailyAnalytics_of a (delete k tbl)))%nat.
Proof.
  unfold Articles.dailyAnalytics_of.
  rewrite <- (insert_delete_eq tbl k n).
  rewrite (map_to_list_insert (delete k tbl) k n) by apply lookup_delete_eq.
  rewrite filter_cons. cbn [fst].
  destruct (decide (k.1 = a)); reflexivity.
Qed.

Lemma views_lookup a tbl (k : string * Z) :
  sum_list (Articles.dailyAnalytics_of a tbl) =
    ((if decide (fst k = a) then default 0%nat (tbl !! k) else 0)
     + sum_list (Articles.dailyAnalytics_of a (delete k tbl)))%nat.
Proof.
  destruct (tbl !! k) as [n|] eqn:Hk.
  - rewrite <- (insert_id tbl k n Hk) at 1. apply views_insert.
  - rewrite (delete_id tbl k Hk). simpl. destruct (decide (k.1 = a)); reflexivity.
Qed.

Lemma full_run_cons (realm : Realm) log logs :
  onPrototype realm = [] -> plain_ids (log :: logs) ->
  table (fst (runAggregationNow realm no_faults (log :: logs) ∅)) =
    <[(articleId log, dateKey (readAt log)) :=
        S (reads_on (articleId log) (dateKey (readAt log)) logs)]>
      (table (fst (runAggregationNow realm no_faults logs ∅))).
Proof.
  intros Hp Hall.
  assert (plain_ids logs) as Hids by (apply Forall_cons in Hall; tauto).
  apply map_eq. intros [a d].
  rewrite runAggregationNow_lookup, lookup_empty, reads_on_cons by assumption.
  destruct (decide (articleId log = a /\ dateKey (readAt log) = d)) as [[<- <-] | Hno].
  - rewrite lookup_insert_eq. reflexivity.
  - rewrite lookup_insert_ne by (intros [= E1 E2]; tauto).
    rewrite runAggregationNow_lookup, lookup_empty by assumption. reflexivity.
Qed.

Lemma full_run_TotalViews (realm : Realm) logs a :
  onPrototype realm = [] -> plain_ids logs ->
  Articles.TotalViews a (table (fst (runAggregationNow realm no_faults logs ∅))) =
    count_article a logs.
Proof.
  intros Hp Hall. rewrite TotalViews_sum.
  induction logs as [|log logs IH]; [reflexivity |].
  assert (plain_ids logs) as Hids by (apply Forall_cons in Hall; tauto).
  specialize (IH Hids).
  rewrite full_run_cons, views_insert by assumption.
  rewrite (views_lookup a _ (articleId log, dateKey (readAt log))) in IH.
  rewrite runAggregationNow_lookup, lookup_empty in IH by assumption.
  unfold count_article in *. rewrite filter_cons. cbn [fst] in *.
  destruct (decide (articleId log = a)) as [Ha | Ha]; cbn [length].
  - destruct (reads_on (articleId log) (dateKey (readAt log)) logs =? 0)%nat eqn:E.
    + apply Nat.eqb_eq in E. rewrite E in *. simpl in *. lia.
    + simpl in *. lia.
  - exact IH.
Qed.

(** X4. After a full run on an empty table with nothing rejected,
    over read logs of plain article ids and with no count on the
    prototype, the dashboard shows for each of its articles, as
    [TotalViews], the number of read logs of that article, in
    whatever order the database lists them. *)
Theorem dashboard_counts_reads (realm : Realm) (tie : Articles.Row -> Z)
    (rows : list Articles.Row) logs (author : string)
    (page pageSize : Z) entries (total : nat) :
  onPrototype realm = [] ->
  plain_ids logs ->
  Articles.getAuthorDashboard tie rows
    (table (fst (runAggregationNow realm no_faults logs ∅)))
    author page pageSize = Some (entries, total) ->
  Forall (fun e => Articles.entry_TotalViews e = count_article (Articles.entry_id e) logs)
         entries.
Proof.
  intros Hp Hids. unfold Articles.getAuthorDashboard. cbv zeta.
  destruct (Articles.skip_take _ _ _) as [articles|]; [| discriminate].
  intros [= <- _]. apply Forall_forall. intros e He.
  apply list_elem_of_In, in_map_iff in He as (r & <- & _).
  cbn [Articles.entry_TotalViews Articles.entry_id].
  apply full_run_TotalViews; assumption.
Qed.
End DashboardFacts.

(** ** More on read tracking *)
Section TrackingFacts.
Implicit Types (st : State) (req : Request) (now t c : Z) (seen : gmap string Z).

Lemma clock_ok_last c (nows : list Z) c1 : clock_ok c (nows ++ [c1]) -> c <= c1.
Proof.
  revert c. induction nows as [|n nows IH]; intros c; simpl.
  - tauto.
  - intros (Hc & Hrest). specialize (IH n Hrest). lia.
Qed.

(** A read admitted while the map remembers the prior admissions comes
    more than the window after the latest one under its key. *)
Lemma admitted_gap c st seen (k : string) now :
  remembers c st seen ->
  c <= now ->
  admits (readRateLimit st !! k) now = true ->
  match seen !! k with
  | None => True
  | Some t => 10000 < now - t
  end.
Proof.
  intros Hinv Hc Hadm. specialize (Hinv k). unfold READ_RATE_LIMIT_MS in Hinv.
  destruct (seen !! k) as [t|]; [| exact I].
  destruct Hinv as (Ht & [Hm | (Hm & Hold)]); [| lia].
  rewrite Hm in Hadm. apply admits_spec in Hadm; [| intros [= E]; lia].
  destruct Hadm as [Hnone | (t' & [= <-] & Hgap)]; [discriminate | exact Hgap].
Qed.

Lemma admissions_bounded (k : string) reads st seen c c1 :
  remembers c st seen ->
  0 < c ->
  clock_ok c (map snd reads ++ [c1]) ->
  Z.of_nat (Tracking.admissions_under k st reads)
    <= Tracking.admissions_bound (seen !! k) c c1.
Proof.
  revert st seen c. induction reads as [|[req n1] reads IH]; intros st seen c Hinv Hc Hclock.
  - simpl in Hclock. pose proof (Hinv k) as Hk. unfold Tracking.admissions_bound.
    cbn [Tracking.admissions_under].
    destruct (seen !! k) as [t|]; Z.div_mod_to_equations; lia.
  - simpl in Hclock. destruct Hclock as (Hle & Hclock).
    pose proof (clock_ok_last _ _ _ Hclock) as Hn1.
    pose proof (trackRead_remembers c st seen req n1 Hinv Hle ltac:(lia)) as Hinv'.
    specialize (IH _ _ n1 Hinv' ltac:(lia) Hclock).
    cbn [Tracking.admissions_under].
    pose proof (Hinv k) as Hk.
    destruct (fst (trackRead st req n1)) eqn:Hadm.
    + assert (admits (readRateLimit st !! key_of req) n1 = true) as Ha.
      { destruct (admits (readRateLimit st !! key_of req) n1) eqn:E; [reflexivity |].
        destruct (trackRead_dropped _ _ _ E) as (Hf & _). congruence. }
      destruct (decide (key_of req = k)) as [Hkey | Hkey].
      * rewrite (bool_decide_eq_true_2 _ Hkey). cbn [andb].
        rewrite <- Hkey in *. rewrite lookup_insert_eq in IH.
        pose proof (admitted_gap c st seen (key_of req) n1 Hinv Hle Ha) as Hgap.
        unfold Tracking.admissions_bound in *.
        destruct (seen !! key_of req) as [t|];
          revert IH; Z.div_mod_to_equations; lia.
      * rewrite (bool_decide_eq_false_2 _ Hkey). cbn [andb].
        rewrite lookup_insert_ne in IH by exact Hkey.
        unfold Tracking.admissions_bound in *.
        destruct (seen !! k) as [t|]; revert IH; Z.div_mod_to_equations; lia.
    + cbn [andb]. unfold Tracking.admissions_bound in *.
      destruct (seen !! k) as [t|]; revert IH; Z.div_mod_to_equations; lia.
Qed.

(** X5. The rate limit bounds the read logs of a key: over a history
    whose clock values are positive and never go back, from [c0] to
    [c1], at most [1 + (c1 - c0) / 10001] reads are admitted under one
    key, however many requests arrive. *)
Theorem admissions_rate_bound (k : string) (reads : list (Request * Z)) c0 c1 :
  0 < c0 ->
  clock_ok c0 (map snd reads ++ [c1]) ->
  Z.of_nat (Tracking.admissions_under k initial reads) <= 1 + (c1 - c0) / 10001.
Proof.
  intros Hc Hclock.
  pose proof (admissions_bounded k reads initial ∅ c0 c1 (initial_remembers c0) Hc Hclock)
    as H.
  rewrite lookup_empty in H. exact H.
Qed.
End TrackingFacts.

(** ** The authentication middleware *)
Section MiddlewareFacts.
Import Http AuthMiddleware.
Variable verify : string -> option Claims.
Implicit Types (authorization : option string) (roles : list string).

Lemma split_nonempty (sep : ascii) (s : string) : split sep s <> [].
Proof.
  induction s as [|c s IH]; simpl; [discriminate |].
  destruct (Ascii.eqb c sep); [discriminate |].
  destruct (split sep s); [congruence | discriminate].
Qed.

(** The first piece of a split is the text before the first
    separator. *)
Lemma split_first_word (word rest : string) :
  Forall (fun c => c <> " "%char) (list_ascii_of_string word) ->
  split " " (String.append word (String " " rest)) = word :: split " " rest /\
  split " " word = [word].
Proof.
  induction word as [|c word IH]; intros Hw; simpl.
  - split; reflexivity.
  - simpl in Hw. apply Forall_cons in Hw as (Hc & Hw).
    destruct (IH Hw) as (IH1 & IH2).
    destruct (Ascii.eqb_spec c " "); [congruence |].
    rewrite IH1, IH2. split; reflexivity.
Qed.

Lemma header_token_bearer (word tail : string) :
  Forall (fun c => c <> " "%char) (list_ascii_of_string word) ->
  tail = EmptyString \/ (exists rest, tail = String " " rest) ->
  no_bearer (Some (String.append "Bearer " (String.append word tail))) = false /\
  header_token (String.append "Bearer " (String.append word tail)) = Some word.
Proof.
  intros Hw Htail. split.
  { unfold no_bearer, startsWith. simpl.
    destruct (String.append EmptyString (String.append word tail)); reflexivity. }
  unfold header_token.
  change (split " " (String.append "Bearer " (String.append word tail)))
    with ("Bearer"%string :: split " " (String.append word tail)).
  destruct (split_first_word word EmptyString Hw) as (_ & H2).
  destruct Htail as [-> | (rest & ->)].
  - assert (String.append word EmptyString = word) as ->.
    { clear. induction word as [|c w IH]; [reflexivity |].
      change (String c (String.append w EmptyString) = String c w). f_equal. exact IH. }
    rewrite H2. reflexivity.
  - destruct (split_first_word word rest Hw) as (H1 & _). rewrite H1. reflexivity.
Qed.

(** X6. The token reaches [jwt.verify] as it was sent: for a header
    [Bearer <token>], the token free of spaces and followed by nothing
    or by a space and more text, [authenticate] and [optionalAuth]
    verify exactly the token; [authenticate] passes with the user of
    the claims or answers 401, [optionalAuth] passes either way. *)
Theorem bearer_token_is_verified (token tail : string) :
  Forall (fun c => c <> " "%char) (list_ascii_of_string token) ->
  tail = EmptyString \/ (exists rest, tail = String " " rest) ->
  let header := Some (String.append "Bearer " (String.append token tail)) in
  authenticate verify header =
    match verify token with
    | Some d => Next (Some (user_of d))
    | None => Responded (sendError 401 "Invalid or expired token"
                                   ["Token verification failed"])
    end /\
  optionalAuth verify header = Next (user_of <$> verify token).
Proof.
  intros Hw Htail header.
  destruct (header_token_bearer token tail Hw Htail) as (Hb & Ht).
  unfold authenticate, optionalAuth, decoded. subst header. rewrite Hb, Ht.
  destruct (verify token); split; reflexivity.
Qed.

(** X7. [optionalAuth] never answers a request, and it sets a user
    exactly when [authenticate] passes with that user; [authenticate]
    never passes without a user, and whatever it answers is a 401. *)
Theorem optionalAuth_never_blocks authorization :
  (exists user, optionalAuth verify authorization = Next user) /\
  (forall u,
     optionalAuth verify authorization = Next (Some u) <->
     authenticate verify authorization = Next (Some u)) /\
  authenticate verify authorization <> Next None /\
  (forall r, authenticate verify authorization = Responded r -> statusCode r = 401%nat).
Proof.
  unfold optionalAuth, authenticate.
  destruct (no_bearer authorization); [| destruct (decoded verify authorization)].
  - split; [eauto |]. split; [split; discriminate |]. split; [discriminate |].
    intros r [= <-]. reflexivity.
  - split; [eauto |]. split; [tauto |]. split; [discriminate | discriminate].
  - split; [eauto |]. split; [split; discriminate |]. split; [discriminate |].
    intros r [= <-]. reflexivity.
Qed.

Lemma role_allowed roles (u : User) :
  existsb (String.eqb (role u)) roles = true <-> In (role u) roles.
Proof.
  rewrite existsb_exists. split.
  - intros (x & Hin & Heq). apply String.eqb_eq in Heq. congruence.
  - intros Hin. exists (role u). split; [exact Hin | apply String.eqb_refl].
Qed.

(** X8. A handler behind [authenticate, authorizeRole(...roles)] runs
    exactly for a [Bearer] header whose token verifies to a role among
    [roles], and then with the user of the token, never without one.
    Otherwise the answer is 401 (no or bad token) or 403 (a role
    outside [roles]). *)
Theorem guarded_routes roles authorization :
  (forall user,
     guarded verify roles authorization = Next user <->
     exists d, no_bearer authorization = false /\
               decoded verify authorization = Some d /\
               In (claimed_role d) roles /\ user = Some (user_of d)) /\
  (forall r,
     guarded verify roles authorization = Responded r ->
     (statusCode r = 401%nat /\
      (no_bearer authorization = true \/ decoded verify authorization = None)) \/
     (statusCode r = 403%nat /\
      exists d, decoded verify authorization = Some d /\ ~ In (claimed_role d) roles)).
Proof.
  unfold guarded, authenticate, authorizeRole.
  destruct (no_bearer authorization) eqn:Hb.
  - split.
    + intros user. split; [discriminate |]. intros (d & Hf & _). discriminate.
    + intros r [= <-]. left. auto.
  - destruct (decoded verify authorization) as [d|] eqn:Hd.
    + pose proof (role_allowed roles (user_of d)) as Hrole. cbn [role user_of] in Hrole.
      cbn [role user_of].
      destruct (existsb (String.eqb (claimed_role d)) roles) eqn:E; cbn [negb].
      * split.
        -- intros user. split.
           ++ intros [= <-]. exists d. repeat split; auto. apply Hrole. reflexivity.
           ++ intros (d' & _ & [= <-] & _ & ->). reflexivity.
        -- intros r. discriminate.
      * split.
        -- intros user. split; [discriminate |].
           intros (d' & _ & [= <-] & Hin & _). apply Hrole in Hin. discriminate.
        -- intros r [= <-]. right. split; [reflexivity |]. exists d.
           split; [reflexivity |]. intros Hin. apply Hrole in Hin. discriminate.
    + split.
      * intros user. split; [discriminate |]. intros (d & _ & Hf & _). discriminate.
      * intros r [= <-]. left. auto.
Qed.

(** X9. A reader whose token is not accepted is tracked as a guest:
    reads of one article sent with any two such headers, from any two
    addresses and at most 10000 ms apart, the first one admitted, make
    one read log, without a reader. *)
Theorem unverified_readers_share_guest_slot
    (h1 h2 : option string) (articleId remote1 remote2 : string) st t1 t2 :
  no_bearer h1 = true \/ decoded verify h1 = None ->
  no_bearer h2 = true \/ decoded verify h2 = None ->
  0 < t1 ->
  t2 - t1 <= 10000 ->
  let r1 := tracked_read verify h1 articleId remote1 st t1 in
  let r2 := tracked_read verify h2 articleId remote2 (snd r1) t2 in
  fst r1 = true ->
  fst r2 = false /\
  readLogCreates (snd r2) = readLogCreates st ++ [(articleId, None)].
Proof.
  intros H1 H2 Hpos Hgap.
  assert (forall h remote s t,
            no_bearer h = true \/ decoded verify h = None ->
            tracked_read verify h articleId remote s t =
              trackRead s (mkRequest articleId None remote) t) as Hguest.
  { intros h remote s t Hh. unfold tracked_read, optionalAuth.
    destruct (no_bearer h); [reflexivity |].
    destruct Hh as [Hh | Hh]; [discriminate |]. rewrite Hh. reflexivity. }
  rewrite (Hguest h1 remote1 st t1 H1). cbv zeta.
  rewrite (Hguest h2 remote2 _ t2 H2).
  set (req1 := mkRequest articleId None remote1).
  set (req2 := mkRequest articleId None remote2).
  intros Hadm.
  pose proof (second_read st req1 req2 t1 t2 eq_refl Hpos Hadm) as Hsecond.
  assert ((10000 <? t2 - t1) = false) as E by (apply Z.ltb_ge; lia).
  rewrite E in Hsecond. split; [exact Hsecond |].
  destruct (admits (readRateLimit (snd (trackRead st req1 t1)) !! key_of req2) t2) eqn:Eb.
  - destruct (trackRead_admitted _ _ _ Eb) as (H0 & _). congruence.
  - destruct (trackRead_dropped _ _ _ Eb) as (_ & _ & ->).
    destruct (admits (readRateLimit st !! key_of req1) t1) eqn:Ea.
    + destruct (trackRead_admitted _ _ _ Ea) as (_ & _ & ->). reflexivity.
    + destruct (trackRead_dropped _ _ _ Ea) as (H0 & _). congruence.
Qed.
End MiddlewareFacts.

(** ** The article service and its routes *)
Section ArticleFacts.
Import Http.
Implicit Types (rows : list Articles.Row) (r : Articles.Row)
  (articleId author : string) (now : Z).

Lemma find_live_Some rows articleId r :
  Articles.find_live rows articleId = Some r ->
  In r rows /\ Articles.id r = articleId /\ Articles.deletedAt r = None.
Proof.
  unfold Articles.find_live. intros H. apply find_some in H as (Hin & Hb).
  apply bool_decide_eq_true_1 in Hb. tauto.
Qed.

Lemma find_live_None rows articleId :
  (forall r, In r rows -> Articles.id r = articleId -> Articles.deletedAt r <> None) ->
  Articles.find_live rows articleId = None.
Proof.
  unfold Articles.find_live. intros H.
  induction rows as [|r rows IH]; [reflexivity |]. simpl.
  rewrite bool_decide_eq_false_2.
  - apply IH. intros r' Hin. apply H. right. exact Hin.
  - intros (Hid & Hd). apply (H r (or_introl eq_refl) Hid Hd).
Qed.

Lemma update_where_id_Forall2 rows articleId (g : Articles.Row -> Articles.Row) :
  Forall2 (fun r r' => if decide (Articles.id r = articleId) then r' = g r else r' = r)
          rows (Articles.update_where_id rows articleId g).
Proof.
  induction rows as [|r rows IH]; simpl; constructor; [| exact IH].
  destruct (decide (Articles.id r = articleId)) as [Hid | Hid].
  - rewrite bool_decide_eq_true_2 by exact Hid. reflexivity.
  - rewrite bool_decide_eq_false_2 by exact Hid. reflexivity.
Qed.

(** X10. [softDelete] removes no row: it succeeds exactly for a live
    article of the caller, and then marks the rows of that id deleted
    at [now] and leaves every other row, and every other field, as it
    was; when it fails the table is unchanged. *)
Theorem softDelete_marks_own_article rows articleId author now :
  let res := fst (Articles.softDelete rows articleId author now) in
  let rows' := snd (Articles.softDelete rows articleId author now) in
  (res = inr tt <->
     exists r, Articles.find_live rows articleId = Some r /\
               Articles.authorId r = author) /\
  (res <> inr tt -> rows' = rows) /\
  (res = inr tt ->
     Forall2 (fun r r' => if decide (Articles.id r = articleId)
                          then r' = Articles.mark_deleted now r
                          else r' = r) rows rows') /\
  map Articles.id rows' = map Articles.id rows.
Proof.
  intros res rows'. subst res rows'. unfold Articles.softDelete.
  destruct (Articles.find_live rows articleId) as [r|] eqn:Hf.
  - destruct (String.eqb_spec (Articles.authorId r) author) as [Ha | Ha]; cbn [negb fst snd].
    + split; [split; [intros _; eauto | reflexivity] |].
      split; [congruence |]. split; [intros _; apply update_where_id_Forall2 |].
      unfold Articles.update_where_id. rewrite map_map. apply map_ext.
      intros x. destruct (bool_decide _); reflexivity.
    + split; [split; [discriminate | intros (r' & [= <-] & Hr'); congruence] |].
      split; [reflexivity |]. split; [discriminate | reflexivity].
  - cbn [fst snd].
    split; [split; [discriminate | intros (r' & Hr' & _); discriminate] |].
    split; [reflexivity |]. split; [discriminate | reflexivity].
Qed.

(** X11. [update] succeeds exactly for a live article of the caller;
    whatever it does, no row changes its id, author, creation date or
    deletion mark, rows of another id do not change at all, and a
    failed update leaves the table unchanged. *)
Theorem update_keeps_identity rows articleId author (data : Articles.UpdateArticleInput) :
  let res := fst (Articles.update rows articleId author data) in
  let rows' := snd (Articles.update rows articleId author data) in
  ((exists r', res = inr r') <->
     exists r, Articles.find_live rows articleId = Some r /\
               Articles.authorId r = author) /\
  ((forall r', res <> inr r') -> rows' = rows) /\
  Forall2 (fun r r' =>
             Articles.id r' = Articles.id r /\
             Articles.authorId r' = Articles.authorId r /\
             Articles.createdAt r' = Articles.createdAt r /\
             Articles.deletedAt r' = Articles.deletedAt r /\
             (Articles.id r <> articleId -> r' = r)) rows rows'.
Proof.
  intros res rows'. subst res rows'. unfold Articles.update.
  assert (Forall2 (fun r r' =>
             Articles.id r' = Articles.id r /\
             Articles.authorId r' = Articles.authorId r /\
             Articles.createdAt r' = Articles.createdAt r /\
             Articles.deletedAt r' = Articles.deletedAt r /\
             (Articles.id r <> articleId -> r' = r)) rows rows) as Hsame.
  { apply Forall2_same_length_lookup_2; [reflexivity |].
    intros i x y Hx Hy. assert (x = y) as -> by congruence. tauto. }
  destruct (Articles.find_live rows articleId) as [r|] eqn:Hf.
  - destruct (String.eqb_spec (Articles.authorId r) author) as [Ha | Ha]; cbn [negb fst snd].
    + split; [split; intros _; eauto |]. split.
      * intros H. exfalso. apply (H _ eq_refl).
      * eapply Forall2_impl; [apply update_where_id_Forall2 |].
        intros x y Hxy. cbv beta in Hxy.
        destruct (decide (Articles.id x = articleId)); subst y; cbn; tauto.
    + split; [split; [intros (r' & Hr'); discriminate
                     | intros (r' & [= <-] & Hr'); congruence] |].
      split; [reflexivity | exact Hsame].
  - cbn [fst snd].
    split; [split; [intros (r' & Hr'); discriminate
                   | intros (r' & Hr' & _); discriminate] |].
    split; [reflexivity | exact Hsame].
Qed.

Lemma find_first_deleted rows articleId now :
  (exists r, In r rows /\ Articles.id r = articleId) ->
  exists a, List.find (fun a => bool_decide (ReadTracking.id a = articleId))
              (map Articles.article_of
                   (Articles.update_where_id rows articleId (Articles.mark_deleted now)))
            = Some a /\ ReadTracking.deletedAt a = Some now.
Proof.
  induction rows as [|r rows IH]; intros (x & Hin & Hx); [destruct Hin |].
  cbn [Articles.update_where_id map List.find].
  destruct (decide (Articles.id r = articleId)) as [Hid | Hid].
  - rewrite (bool_decide_eq_true_2 _ Hid). cbn.
    rewrite (bool_decide_eq_true_2 _ Hid). eauto.
  - rewrite (bool_decide_eq_false_2 _ Hid). cbn.
    rewrite (bool_decide_eq_false_2 _ Hid).
    apply IH. destruct Hin as [-> | Hin]; [contradiction | eauto].
Qed.

Lemma skip_take_In {A} (skip take : Z) (l l' : list A) x :
  Articles.skip_take skip take l = Some l' -> In x l' -> In x l.
Proof.
  unfold Articles.skip_take. destruct (_ && _); [| discriminate].
  intros [= <-] Hin.
  apply list_elem_of_In in Hin. apply list_elem_of_In.
  eapply elem_of_sublist; [exact Hin |].
  etrans; [apply sublist_take | apply sublist_drop].
Qed.

Lemma newest_first_In (tie : Articles.Row -> Z) rows r :
  In r (Articles.newest_first tie rows) <-> In r rows.
Proof.
  unfold Articles.newest_first. rewrite <- !list_elem_of_In.
  rewrite merge_sort_Permutation. reflexivity.
Qed.

Lemma feed_page_In (tie : Articles.Row -> Z) contains_i authors rows page pageSize
    category byAuthor q articles total r :
  Articles.getPublicFeed tie contains_i authors rows page pageSize category byAuthor q
    = Some (articles, total) ->
  In r articles ->
  In r rows /\ Articles.feed_where contains_i authors category byAuthor q r = true.
Proof.
  unfold Articles.getPublicFeed.
  destruct (Articles.skip_take _ _ _) as [l|] eqn:Hl; [| discriminate].
  intros [= <- _] Hin.
  apply (skip_take_In _ _ _ _ _ Hl), newest_first_In, filter_In in Hin. exact Hin.
Qed.

Lemma feed_where_live contains_i authors category byAuthor q r :
  Articles.feed_where contains_i authors category byAuthor q r = true ->
  Articles.status r = "Published"%string /\ Articles.deletedAt r = None.
Proof.
  unfold Articles.feed_where. rewrite !andb_true_iff.
  intros ((((Hs & Hd) & _) & _) & _).
  apply String.eqb_eq in Hs. apply bool_decide_eq_true_1 in Hd. tauto.
Qed.

(** X12. Once [softDelete] has succeeded the article is gone for every
    caller: [update] and a second [softDelete] answer 404 and leave the
    table as it is, [GET /articles/:id] answers 410 without touching
    the read tracking, and no page of the public feed shows it. *)
Theorem deleted_article_is_gone rows rows' articleId author now :
  Articles.softDelete rows articleId author now = (inr tt, rows') ->
  (forall author' data,
     Articles.update rows' articleId author' data
     = (inl (mkServiceError "Article not found" 404), rows')) /\
  (forall author' now',
     Articles.softDelete rows' articleId author' now'
     = (inl (mkServiceError "Article not found" 404), rows')) /\
  (forall st req now',
     params_id req = articleId ->
     Articles.GET_article rows' st req now'
     = (mkResponse 410 "News article no longer available", st)) /\
  (forall tie contains_i authors page pageSize category a q articles total,
     Articles.getPublicFeed tie contains_i authors rows' page pageSize category a q
     = Some (articles, total) ->
     forall r, In r articles -> Articles.id r <> articleId).
Proof.
  unfold Articles.softDelete.
  destruct (Articles.find_live rows articleId) as [r0|] eqn:Hf; [| discriminate].
  destruct (negb _); [discriminate |]. intros [= <-].
  apply find_live_Some in Hf as (Hin0 & Hid0 & _).
  assert (forall r, In r (Articles.update_where_id rows articleId
                            (Articles.mark_deleted now)) ->
                    Articles.id r = articleId -> Articles.deletedAt r <> None) as Hgone.
  { intros r Hin Hid. unfold Articles.update_where_id in Hin.
    apply in_map_iff in Hin as (x & <- & _).
    destruct (decide (Articles.id x = articleId)) as [Hx | Hx].
    - rewrite (bool_decide_eq_true_2 _ Hx). discriminate.
    - rewrite (bool_decide_eq_false_2 _ Hx) in Hid. contradiction. }
  pose proof (find_live_None _ _ Hgone) as Hnone.
  split; [intros; unfold Articles.update; rewrite Hnone; reflexivity |].
  split; [intros; unfold Articles.softDelete; rewrite Hnone; reflexivity |].
  split.
  - intros st req now' Hreq.
    unfold Articles.GET_article, getById, ArticleService_getById. rewrite Hreq.
    destruct (find_first_deleted rows articleId now) as (a & -> & Ha); [eauto |].
    rewrite Ha. reflexivity.
  - intros tie c authors page pageSize category a q articles total Hfeed r Hin Hid.
    destruct (feed_page_In _ _ _ _ _ _ _ _ _ _ _ _ Hfeed Hin) as (Hrows & Hw).
    apply feed_where_live in Hw as (_ & Hd).
    exact (Hgone r Hrows Hid Hd).
Qed.

Lemma db_order_total (tie : Articles.Row -> Z) : Total (Articles.db_order tie).
Proof. intros x y. unfold Articles.db_order. lia. Qed.

Lemma db_order_trans (tie : Articles.Row -> Z) : Transitive (Articles.db_order tie).
Proof. intros x y z. unfold Articles.db_order. lia. Qed.

(** Whatever the database does with equal [createdAt], no row comes
    before a newer one. *)
Lemma newest_first_sorted (tie : Articles.Row -> Z) rows :
  StronglySorted Articles.not_older (Articles.newest_first tie rows).
Proof.
  pose proof (db_order_total tie). pose proof (db_order_trans tie).
  assert (StronglySorted (Articles.db_order tie) (Articles.newest_first tie rows))
    as Hs by (apply StronglySorted_merge_sort; assumption).
  induction Hs as [|r l _ IH Hall]; constructor; [exact IH |].
  eapply Forall_impl; [exact Hall |].
  intros x. unfold Articles.db_order, Articles.not_older. lia.
Qed.

Lemma skip_take_sorted {A} (R : A -> A -> Prop) skip take (l l' : list A) :
  StronglySorted R l -> Articles.skip_take skip take l = Some l' ->
  StronglySorted R l'.
Proof.
  unfold Articles.skip_take. intros Hl. destruct (_ && _); [| discriminate].
  intros [= <-].
  rewrite <- (take_drop (Z.to_nat skip) l) in Hl.
  apply StronglySorted_app_1_r in Hl.
  rewrite <- (take_drop (Z.to_nat take) (drop (Z.to_nat skip) l)) in Hl.
  apply StronglySorted_app_1_l in Hl. exact Hl.
Qed.

(** X13. A page of the public feed holds rows of the table that are
    published and not deleted, newest first, at most [pageSize] of
    them and never more than the total it reports, whatever order the
    database gives to rows of one [createdAt]. *)
Theorem feed_page_published_live (tie : Articles.Row -> Z) contains_i authors rows
    page pageSize category byAuthor q articles total :
  Articles.getPublicFeed tie contains_i authors rows page pageSize category byAuthor q
    = Some (articles, total) ->
  Forall (fun r => In r rows /\ Articles.status r = "Published"%string /\
                   Articles.deletedAt r = None) articles /\
  StronglySorted Articles.not_older articles /\
  (length articles <= Z.to_nat pageSize)%nat /\
  (length articles <= total)%nat.
Proof.
  intros Hfeed. split.
  { apply Forall_forall. intros r Hin. apply list_elem_of_In in Hin.
    destruct (feed_page_In _ _ _ _ _ _ _ _ _ _ _ _ Hfeed Hin) as (Hrows & Hw).
    apply feed_where_live in Hw. tauto. }
  revert Hfeed. unfold Articles.getPublicFeed.
  destruct (Articles.skip_take _ _ _) as [l|] eqn:Hl; [| discriminate].
  intros [= <- <-]. split.
  { eapply skip_take_sorted; [apply newest_first_sorted | exact Hl]. }
  revert Hl. unfold Articles.skip_take. destruct (_ && _); [| discriminate].
  intros [= <-]. split.
  - rewrite length_take. lia.
  - rewrite length_take, length_drop.
    unfold Articles.newest_first. rewrite merge_sort_Permutation. lia.
Qed.

Lemma sorted_without_ties rows :
  StronglySorted Articles.not_older rows ->
  NoDup (map Articles.createdAt rows) ->
  StronglySorted Clients.newer rows.
Proof.
  induction 1 as [|r rows Hs IH Hall]; intros Hnd; constructor.
  - apply IH. apply NoDup_cons in Hnd. tauto.
  - apply NoDup_cons in Hnd as (Hr & _).
    rewrite Forall_forall in Hall. apply Forall_forall. intros x Hx.
    specialize (Hall x Hx). unfold Articles.not_older in Hall. unfold Clients.newer.
    assert (Articles.createdAt x <> Articles.createdAt r); [| lia].
    intros Heq. apply Hr. rewrite <- Heq.
    apply list_elem_of_fmap_2. exact Hx.
Qed.

Lemma newer_antisym : AntiSymm eq Clients.newer.
Proof. intros x y. unfold Clients.newer. lia. Qed.

(** Without two rows of one [createdAt] every query returns the rows
    in the same order. *)
Lemma newest_first_unique (tie tie' : Articles.Row -> Z) rows :
  NoDup (map Articles.createdAt rows) ->
  Articles.newest_first tie rows = Articles.newest_first tie' rows.
Proof.
  intros Hnd. pose proof newer_antisym.
  assert (forall t, Articles.newest_first t rows ≡ₚ rows) as Hperm
    by (intros t; apply merge_sort_Permutation).
  apply (StronglySorted_unique Clients.newer).
  - apply sorted_without_ties; [apply newest_first_sorted |].
    rewrite Hperm. exact Hnd.
  - apply sorted_without_ties; [apply newest_first_sorted |].
    rewrite Hperm. exact Hnd.
  - rewrite !Hperm. reflexivity.
Qed.

Lemma feed_pages_take (ties : nat -> Articles.Row -> Z) contains_i authors rows
    pageSize category byAuthor q n :
  0 < pageSize ->
  NoDup (map Articles.createdAt
             (List.filter (Articles.feed_where contains_i authors category byAuthor q)
                          rows)) ->
  Clients.feed_pages ties contains_i authors rows pageSize category byAuthor q n
  = take (n * Z.to_nat pageSize)
         (Articles.newest_first (ties 0%nat)
            (List.filter (Articles.feed_where contains_i authors category byAuthor q)
                         rows)).
Proof.
  intros Hk Hnd. unfold Clients.feed_pages.
  induction n as [|n IH]; [reflexivity |].
  rewrite seq_S, flat_map_app, IH. cbn [flat_map].
  unfold Articles.getPublicFeed, Articles.skip_take.
  replace (0 <=? (Z.of_nat (1 + n) - 1) * pageSize) with true
    by (symmetry; apply Z.leb_le; nia).
  replace (0 <=? pageSize) with true by (symmetry; apply Z.leb_le; lia).
  cbn [andb]. rewrite app_nil_r.
  replace (Z.to_nat ((Z.of_nat (1 + n) - 1) * pageSize))
    with (n * Z.to_nat pageSize)%nat by nia.
  rewrite (newest_first_unique (ties (1 + n)%nat) (ties 0%nat)) by exact Hnd.
  rewrite take_take_drop. f_equal. lia.
Qed.

(** X14. Paging through the public feed: on a table whose matching
    rows have pairwise different [createdAt], a client that asks for
    the pages 1 to [n] of a positive [pageSize], [n] pages being enough
    for the total, has collected every matching row exactly once, each
    strictly newer than those after it, whatever the database does
    with equal [createdAt] in each of the queries. *)
Theorem feed_pages_partition (ties : nat -> Articles.Row -> Z) contains_i authors
    rows pageSize category byAuthor q n :
  0 < pageSize ->
  NoDup (map Articles.createdAt
             (List.filter (Articles.feed_where contains_i authors category byAuthor q)
                          rows)) ->
  (length (List.filter (Articles.feed_where contains_i authors category byAuthor q)
                       rows)
   <= n * Z.to_nat pageSize)%nat ->
  Clients.feed_pages ties contains_i authors rows pageSize category byAuthor q n
    ≡ₚ List.filter (Articles.feed_where contains_i authors category byAuthor q) rows /\
  StronglySorted Clients.newer
    (Clients.feed_pages ties contains_i authors rows pageSize category byAuthor q n).
Proof.
  intros Hk Hnd Hn. rewrite feed_pages_take by assumption.
  assert (Articles.newest_first (ties 0%nat)
            (List.filter (Articles.feed_where contains_i authors category byAuthor q)
                         rows)
          ≡ₚ List.filter (Articles.feed_where contains_i authors category byAuthor q)
               rows) as Hperm
    by apply merge_sort_Permutation.
  rewrite take_ge by (rewrite Hperm; exact Hn).
  split; [exact Hperm |].
  apply sorted_without_ties; [apply newest_first_sorted |].
  rewrite Hperm. exact Hnd.
Qed.

(** X15. [DELETE /articles/:id] changes the table only when it answers
    200, which it does exactly when the query goes through and the
    token is verified with the role author and with the [sub] of the
    author of the live article; its status is one of 200, 401, 403,
    404 and 500. *)
Theorem delete_route_changes_own_article (verify : string -> option AuthMiddleware.Claims)
    (authorization : option string) (queryFails : bool) rows articleId now :
  let reply := fst (Articles.DELETE_article verify authorization queryFails rows
                                            articleId now) in
  let rows' := snd (Articles.DELETE_article verify authorization queryFails rows
                                            articleId now) in
  (statusCode reply = 200%nat <->
     queryFails = false /\ AuthMiddleware.no_bearer authorization = false /\
     exists c r, AuthMiddleware.decoded verify authorization = Some c /\
                 AuthMiddleware.claimed_role c = "author"%string /\
                 Articles.find_live rows articleId = Some r /\
                 Articles.authorId r = AuthMiddleware.sub c) /\
  (statusCode reply = 200%nat ->
     rows' = Articles.update_where_id rows articleId (Articles.mark_deleted now)) /\
  (statusCode reply <> 200%nat -> rows' = rows) /\
  In (statusCode reply) [200; 401; 403; 404; 500]%nat.
Proof.
  intros reply rows'. subst reply rows'.
  unfold Articles.DELETE_article, AuthMiddleware.guarded, AuthMiddleware.authenticate.
  destruct (AuthMiddleware.no_bearer authorization) eqn:Hb; cbn [fst snd].
  { cbn. repeat split; try tauto; try discriminate.
    intros (_ & ? & _). discriminate. }
  destruct (AuthMiddleware.decoded verify authorization) as [c|] eqn:Hd; cbn [fst snd].
  2:{ cbn. repeat split; try tauto; try discriminate.
      intros (_ & _ & c & r & ? & _). discriminate. }
  unfold AuthMiddleware.authorizeRole, AuthMiddleware.user_of.
  cbn [existsb ReadTracking.role]. rewrite orb_false_r.
  destruct (String.eqb_spec (AuthMiddleware.claimed_role c) "author") as [Hr | Hr];
    cbn [negb].
  2:{ cbn. repeat split; try tauto; try discriminate.
      intros (_ & _ & c' & r & [= <-] & ? & _). contradiction. }
  unfold Articles.ArticleController_delete.
  destruct queryFails.
  { cbn. repeat split; try tauto; try discriminate. intros (? & _). discriminate. }
  unfold Articles.softDelete. cbn [ReadTracking.userId].
  destruct (Articles.find_live rows articleId) as [r|] eqn:Hf.
  2:{ cbn. repeat split; try tauto; try discriminate.
      intros (_ & _ & c' & r & _ & _ & ? & _). discriminate. }
  destruct (String.eqb_spec (Articles.authorId r) (AuthMiddleware.sub c)) as [Ha | Ha];
    cbn [negb].
  - cbn. repeat split; try tauto; try discriminate. eauto 10.
  - cbn. repeat split; try tauto; try discriminate.
    intros (_ & _ & c' & r' & [= <-] & _ & [= <-] & ?). contradiction.
Qed.

Lemma find_live_app_fresh rows r articleId :
  (forall x, In x rows -> Articles.id x <> articleId) ->
  Articles.id r = articleId -> Articles.deletedAt r = None ->
  Articles.find_live (rows ++ [r]) articleId = Some r.
Proof.
  intros Hfresh Hid Hd. unfold Articles.find_live.
  induction rows as [|x rows IH]; cbn [app List.find].
  - rewrite bool_decide_eq_true_2 by tauto. reflexivity.
  - rewrite bool_decide_eq_false_2.
    + apply IH. intros y Hy. apply Hfresh. right. exact Hy.
    + intros (Hx & _). apply (Hfresh x (or_introl eq_refl) Hx).
Qed.

(** X16. An article created under an id the table does not hold is
    live and belongs to its creator: it is a draft unless a status was
    given, the rows before it are kept, the creator can update and
    delete it and any other caller is answered 403. *)
Theorem created_article_is_owned rows (data : Articles.CreateArticleInput)
    author newId now :
  (forall x, In x rows -> Articles.id x <> newId) ->
  let article := fst (Articles.create rows data author newId now) in
  let rows' := snd (Articles.create rows data author newId now) in
  rows' = rows ++ [article] /\
  Articles.find_live rows' newId = Some article /\
  (or_null (Articles.create_status data) = None ->
   Articles.status article = "Draft"%string) /\
  (forall upd, exists r, fst (Articles.update rows' newId author upd) = inr r) /\
  (forall now', fst (Articles.softDelete rows' newId author now') = inr tt) /\
  (forall other upd now',
     other <> author ->
     fst (Articles.update rows' newId other upd)
     = inl (mkServiceError "Forbidden: You can only edit your own articles" 403) /\
     Articles.softDelete rows' newId other now'
     = (inl (mkServiceError "Forbidden: You can only delete your own articles" 403),
        rows')).
Proof.
  intros Hfresh article rows'. subst article rows'. cbn [Articles.create fst snd].
  set (article := Articles.mkRow _ _ _ _ _ _ _ _).
  assert (Articles.find_live (rows ++ [article]) newId = Some article) as Hf
    by (apply find_live_app_fresh; [exact Hfresh | reflexivity | reflexivity]).
  split; [reflexivity |]. split; [exact Hf |]. split.
  { subst article. cbn [Articles.status]. unfold or_null, or_else.
    destruct (Articles.create_status data) as [s|]; [| reflexivity].
    destruct (bool_decide (s = EmptyString)); [reflexivity | discriminate]. }
  unfold Articles.update, Articles.softDelete. rewrite Hf.
  change (Articles.authorId article) with author.
  split; [| split].
  - intros upd. rewrite String.eqb_refl. cbn. eauto.
  - intros now'. rewrite String.eqb_refl. reflexivity.
  - intros other upd now' Hother.
    destruct (String.eqb_spec author other) as [Heq | _]; [congruence |].
    split; reflexivity.
Qed.

Lemma mine_page_In (tie : Articles.Row -> Z) rows author page pageSize
    includeDeleted articles r :
  Articles.skip_take ((page - 1) * pageSize) pageSize
    (Articles.newest_first tie
       (List.filter (Articles.mine_where author includeDeleted) rows))
  = Some articles ->
  In r articles ->
  In r rows /\ Articles.authorId r = author /\
  (includeDeleted = false -> Articles.deletedAt r = None).
Proof.
  intros Hl Hin.
  apply (skip_take_In _ _ _ _ _ Hl), newest_first_In, filter_In in Hin
    as (Hrows & Hw).
  unfold Articles.mine_where in Hw. apply andb_true_iff in Hw as (Ha & Hd).
  apply String.eqb_eq in Ha. split; [exact Hrows |]. split; [exact Ha |].
  intros ->. apply bool_decide_eq_true_1 in Hd. exact Hd.
Qed.

(** X17. The author's routes show the caller's own articles only:
    a page of [getMyArticles] holds rows of the table written by the
    author, deleted ones only when they were asked for.  The dashboard
    answers when [getMyArticles] without the deleted ones does, with
    the same total and as many entries, each the entry of a live row
    of the author; the two being queries of their own, the entries are
    those of the articles of that page, one by one, when no two of the
    author's live rows have the same [createdAt]. *)
Theorem author_routes_show_own_articles (tie tie' : Articles.Row -> Z) rows
    (tbl : AnalyticsTable) author page pageSize includeDeleted :
  (forall articles total,
     Articles.getMyArticles tie rows author page pageSize includeDeleted
     = Some (articles, total) ->
     Forall (fun r => In r rows /\ Articles.authorId r = author /\
                      (includeDeleted = false -> Articles.deletedAt r = None))
            articles) /\
  match Articles.getMyArticles tie rows author page pageSize false,
        Articles.getAuthorDashboard tie' rows tbl author page pageSize with
  | Some (articles, total), Some (entries, total') =>
      total' = total /\
      length entries = length articles /\
      Forall (fun e => exists r,
                In r rows /\ Articles.authorId r = author /\
                Articles.deletedAt r = None /\
                Articles.entry_id e = Articles.id r /\
                Articles.entry_title e = Articles.title r /\
                Articles.entry_status e = Articles.status r /\
                Articles.entry_category e = Articles.category r /\
                Articles.entry_createdAt e = Articles.createdAt r) entries /\
      (NoDup (map Articles.createdAt
                  (List.filter (Articles.mine_where author false) rows)) ->
       Forall2 (fun r e => Articles.entry_id e = Articles.id r /\
                           Articles.entry_title e = Articles.title r /\
                           Articles.entry_status e = Articles.status r /\
                           Articles.entry_category e = Articles.category r /\
                           Articles.entry_createdAt e = Articles.createdAt r)
               articles entries)
  | None, None => True
  | _, _ => False
  end.
Proof.
  split.
  - intros articles total. unfold Articles.getMyArticles.
    destruct (Articles.skip_take _ _ _) as [l|] eqn:Hl; [| discriminate].
    intros [= <- _]. apply Forall_forall. intros r Hin. apply list_elem_of_In in Hin.
    exact (mine_page_In _ _ _ _ _ _ _ _ Hl Hin).
  - unfold Articles.getMyArticles, Articles.getAuthorDashboard.
    set (mine := List.filter (Articles.mine_where author false) rows).
    destruct (Articles.skip_take ((page - 1) * pageSize) pageSize
                (Articles.newest_first tie mine)) as [l|] eqn:Hl;
      destruct (Articles.skip_take ((page - 1) * pageSize) pageSize
                  (Articles.newest_first tie' mine)) as [l'|] eqn:Hl';
      try exact I;
      try (exfalso; revert Hl Hl'; unfold Articles.skip_take;
           destruct (_ && _); discriminate).
    split; [reflexivity |]. split; [| split].
    + rewrite length_map. revert Hl Hl'. unfold Articles.skip_take.
      destruct (_ && _); [| discriminate]. intros [= <-] [= <-].
      rewrite !length_take, !length_drop. unfold Articles.newest_first.
      rewrite !merge_sort_Permutation. reflexivity.
    + apply Forall_forall. intros e He.
      apply list_elem_of_In, in_map_iff in He as (r & <- & Hr).
      destruct (mine_page_In _ _ _ _ _ _ _ _ Hl' Hr) as (Hrows & Ha & Hd).
      exists r. cbn. repeat split; auto.
    + intros Hnd.
      rewrite (newest_first_unique tie tie' mine Hnd) in Hl.
      assert (l = l') as -> by congruence.
      clear. induction l' as [|r l IH]; cbn [map]; constructor; [| exact IH].
      cbn. tauto.
Qed.
End ArticleFacts.

(** ** Accounts *)
Section AccountFacts.
Import Http.
Implicit Types (users : list Accounts.Account) (hash : string -> string)
  (compare : string -> string -> bool) (sign : AuthMiddleware.Claims -> string)
  (verify : string -> option AuthMiddleware.Claims).

Lemma findUnique_None users e :
  Accounts.findUnique users e = None <-> ~ In e (map Accounts.email users).
Proof.
  unfold Accounts.findUnique. induction users as [|u users IH]; cbn [List.find map].
  - split; [intros _ [] | reflexivity].
  - destruct (String.eqb_spec (Accounts.email u) e) as [He | He].
    + split; [discriminate | intros H; exfalso; apply H; left; exact He].
    + rewrite IH. cbn [In]. tauto.
Qed.

Lemma findUnique_Some users e u :
  Accounts.findUnique users e = Some u -> In u users /\ Accounts.email u = e.
Proof.
  unfold Accounts.findUnique. intros H. apply find_some in H as (Hin & He).
  apply String.eqb_eq in He. tauto.
Qed.

Lemma findUnique_app_new users u :
  Accounts.findUnique users (Accounts.email u) = None ->
  Accounts.findUnique (users ++ [u]) (Accounts.email u) = Some u.
Proof.
  unfold Accounts.findUnique. induction users as [|x users IH]; cbn [app List.find].
  - rewrite String.eqb_refl. reflexivity.
  - destruct (String.eqb (Accounts.email x) (Accounts.email u)); [discriminate | exact IH].
Qed.

(** X18. [signup] keeps the e-mail addresses of the table pairwise
    different: it answers 409 and leaves the table as it is exactly when
    the address is taken, otherwise it adds one account, which holds the
    hash of the password and not the password as sent. *)
Theorem signup_keeps_emails_unique hash users (data : Accounts.SignupInput) newId now :
  NoDup (map Accounts.email users) ->
  let res := fst (Accounts.signup hash users data newId now) in
  let users' := snd (Accounts.signup hash users data newId now) in
  NoDup (map Accounts.email users') /\
  (In (Accounts.signup_email data) (map Accounts.email users) ->
   res = inl (mkServiceError "Email already exists" 409) /\ users' = users) /\
  (~ In (Accounts.signup_email data) (map Accounts.email users) ->
   exists u, res = inr u /\ users' = users ++ [u] /\
             Accounts.email u = Accounts.signup_email data /\
             Accounts.password u = hash (Accounts.signup_password data) /\
             Accounts.id u = newId /\ Accounts.role u = Accounts.signup_role data).
Proof.
  intros Hnd res users'. subst res users'. unfold Accounts.signup.
  destruct (Accounts.findUnique users (Accounts.signup_email data)) as [u|] eqn:Hf;
    cbn [fst snd].
  - split; [exact Hnd |]. split; [auto |].
    intros Hnot. exfalso. apply Hnot.
    apply findUnique_Some in Hf as (Hin & <-). apply in_map. exact Hin.
  - apply findUnique_None in Hf. split.
    + rewrite map_app. cbn [map Accounts.email].
      apply NoDup_app. split; [exact Hnd |]. split; [| apply NoDup_singleton].
      intros e He Hin. apply list_elem_of_In in He.
      apply list_elem_of_singleton in Hin. subst e. exact (Hf He).
    + split; [intros Hin; contradiction |]. intros _. eexists. repeat split.
Qed.

(** X19. Signing up and then logging in: when [compare] accepts the
    password against the hash [signup] stored, the login with the
    address and the password of a successful [signup] succeeds; it
    returns that account and a token signed for its id and role, and,
    when [verify] reads from that token (which holds no space) what
    [sign] wrote, a [Bearer] header with it passes the routes guarded
    for the role, as the user of that id. *)
Theorem signup_then_login hash compare sign verify users
    (data : Accounts.SignupInput) newId now u users' :
  compare (Accounts.signup_password data) (hash (Accounts.signup_password data))
  = true ->
  verify (sign (AuthMiddleware.mkClaims newId (Accounts.signup_role data)))
  = Some (AuthMiddleware.mkClaims newId (Accounts.signup_role data)) ->
  Forall (fun c => c <> " "%char)
         (list_ascii_of_string
            (sign (AuthMiddleware.mkClaims newId (Accounts.signup_role data)))) ->
  Accounts.signup hash users data newId now = (inr u, users') ->
  let token := sign (AuthMiddleware.mkClaims newId (Accounts.signup_role data)) in
  Accounts.login compare sign users'
    (Accounts.mkLogin (Accounts.signup_email data) (Accounts.signup_password data))
  = inr (token, u) /\
  AuthMiddleware.guarded verify [Accounts.signup_role data]
    (Some (String.append "Bearer " token))
  = AuthMiddleware.Next (Some (mkUser newId (Accounts.signup_role data))).
Proof.
  intros Hcompare Hverify Htoken. unfold Accounts.signup.
  destruct (Accounts.findUnique users (Accounts.signup_email data)) eqn:Hf;
    [discriminate |].
  intros [= <- <-].
  set (token := sign (AuthMiddleware.mkClaims newId (Accounts.signup_role data))) in *.
  split.
  - unfold Accounts.login. cbn [Accounts.login_email Accounts.login_password].
    set (u := Accounts.mkAccount _ _ _ _ _ _) in *.
    change (Accounts.signup_email data) with (Accounts.email u).
    rewrite findUnique_app_new by exact Hf.
    cbn [Accounts.password u]. rewrite Hcompare. reflexivity.
  - destruct (header_token_bearer token EmptyString Htoken (or_introl eq_refl))
      as (Hb & Ht).
    assert (String.append token EmptyString = token) as Htail.
    { clear. induction token as [|c w IH]; [reflexivity |].
      change (String c (String.append w EmptyString) = String c w). f_equal. exact IH. }
    rewrite Htail in Hb, Ht.
    unfold AuthMiddleware.guarded, AuthMiddleware.authenticate, AuthMiddleware.decoded.
    rewrite Hb, Ht. subst token. rewrite Hverify.
    unfold AuthMiddleware.authorizeRole, AuthMiddleware.user_of.
    cbn [ReadTracking.role existsb AuthMiddleware.claimed_role AuthMiddleware.sub].
    rewrite String.eqb_refl. reflexivity.
Qed.

(** X20. A login fails in one way only: an unknown address and a wrong
    password get the same 401 with the same message, and a login that
    succeeds returns an account of the table with the address asked
    for, whose stored hash [compare] accepted, with a token signed for
    that account's id and role. *)
Theorem login_failures_alike compare sign users (data : Accounts.LoginInput) :
  match Accounts.login compare sign users data with
  | inl e => e = mkServiceError "Invalid email or password" 401 /\
             (~ In (Accounts.login_email data) (map Accounts.email users) \/
              exists u, Accounts.findUnique users (Accounts.login_email data) = Some u /\
                        compare (Accounts.login_password data) (Accounts.password u)
                        = false)
  | inr (token, u) =>
      In u users /\ Accounts.email u = Accounts.login_email data /\
      compare (Accounts.login_password data) (Accounts.password u) = true /\
      token = sign (AuthMiddleware.mkClaims (Accounts.id u) (Accounts.role u))
  end.
Proof.
  unfold Accounts.login.
  destruct (Accounts.findUnique users (Accounts.login_email data)) as [u|] eqn:Hf.
  - destruct (compare (Accounts.login_password data) (Accounts.password u)) eqn:Hc;
      cbn [negb].
    + apply findUnique_Some in Hf. tauto.
    + split; [reflexivity |]. right. eauto.
  - split; [reflexivity |]. left. apply findUnique_None. exact Hf.
Qed.
End AccountFacts.

(** ** The probe under any order of callbacks *)
Section ProbeFacts.
Implicit Types (p : Probe) (ev : Z * LoopEvent) (evs : list (Z * LoopEvent)).

Lemma deliver_settled p ev v :
  resolved p = Some v -> resolved (deliver p ev) = Some v.
Proof.
  intros Hp. destruct ev as [t [[]|]]; unfold deliver, resolve;
    repeat case_match; cbn in *; congruence.
Qed.

Lemma deliver_all_settled evs p v :
  resolved p = Some v -> resolved (fold_left deliver evs p) = Some v.
Proof.
  revert p. induction evs as [|ev evs IH]; intros p Hp; [exact Hp |].
  cbn [fold_left]. apply IH, deliver_settled, Hp.
Qed.

Lemma deliver_probe_ok p ev : Tracking.probe_ok p -> Tracking.probe_ok (deliver p ev).
Proof.
  unfold Tracking.probe_ok. destruct p as [[v|] tp sd]; cbn [resolved timerPending socketDestroyed].
  - intros ->. destruct ev as [t [[]|]]; cbn; destruct sd; reflexivity.
  - intros (-> & ->). destruct ev as [t [[]|]]; reflexivity.
Qed.

Lemma deliver_all_probe_ok evs p :
  Tracking.probe_ok p -> Tracking.probe_ok (fold_left deliver evs p).
Proof.
  revert p. induction evs as [|ev evs IH]; intros p Hp; [exact Hp |].
  cbn [fold_left]. apply IH, deliver_probe_ok, Hp.
Qed.

Lemma timer_settles evs p t :
  Tracking.probe_ok p -> In (t, TimerFired) evs ->
  resolved (fold_left deliver evs p) <> None.
Proof.
  revert p. induction evs as [|ev evs IH]; intros p Hp Hin; [destruct Hin |].
  cbn [fold_left]. destruct Hin as [-> | Hin].
  - destruct p as [[v|] tp sd].
    + rewrite (deliver_all_settled evs _ v); [discriminate |].
      apply deliver_settled. reflexivity.
    + destruct Hp as (Htp & _). cbn in Htp. subst tp.
      rewrite (deliver_all_settled evs _ (false, t)); [discriminate | reflexivity].
  - apply IH; [apply deliver_probe_ok, Hp | exact Hin].
Qed.

Lemma connected_by_connect evs p t :
  resolved (fold_left deliver evs p) = Some (true, t) ->
  resolved p = Some (true, t) \/ In (t, FromSocket SockConnect) evs.
Proof.
  revert p. induction evs as [|ev evs IH]; intros p H; [left; exact H |].
  cbn [fold_left] in H. apply IH in H as [H | H]; [| right; right; exact H].
  destruct (resolved p) as [v|] eqn:Hp.
  - left. rewrite (deliver_settled p ev v Hp) in H. exact H.
  - right. left. destruct ev as [t' [[]|]]; unfold deliver, resolve in H;
      repeat case_match; cbn in *; congruence.
Qed.

(** X21. The promise of [checkRedis] under any sequence of callbacks,
    in any order and at any instants: once it is settled no later
    callback changes its value, it is settled as soon as the timer has
    fired, the timer is no longer pending once it is settled, and it
    holds [true] only if the socket reported a connection at the
    instant it settled. *)
Theorem probe_settles_once evs evs' :
  let p := fold_left deliver evs Tracking.probe_created in
  Tracking.probe_ok p /\
  (resolved p <> None -> resolved (fold_left deliver evs' p) = resolved p) /\
  (forall t, In (t, TimerFired) evs -> resolved p <> None) /\
  (forall t, resolved p = Some (true, t) -> In (t, FromSocket SockConnect) evs).
Proof.
  intros p. subst p.
  assert (Tracking.probe_ok Tracking.probe_created) as H0
    by (unfold Tracking.probe_ok; cbn; tauto).
  split; [apply deliver_all_probe_ok, H0 |]. split; [| split].
  - destruct (resolved (fold_left deliver evs Tracking.probe_created)) as [v|] eqn:Hp;
      [| congruence].
    intros _. apply deliver_all_settled, Hp.
  - intros t. apply timer_settles, H0.
  - intros t H. apply connected_by_connect in H as [H | H]; [discriminate | exact H].
Qed.
End ProbeFacts.

(** ** The patterns of the validators *)
Section RegExpFacts.
Import JsRegExp AuthValidator.
Implicit Types (s : list N) (cls : N -> bool) (p q : Pattern)
  (k : nat -> list N -> bool) (i n least : nat).

Lemma at_least_spec cls least i s k :
  at_least cls least i s k = true <->
  exists n, (least <= n <= length s)%nat /\
            Forall (fun c => cls c = true) (take n s) /\
            k (i + n)%nat (drop n s) = true.
Proof.
  revert least i. induction s as [|c s IH]; intros least i; cbn [at_least].
  - split.
    + destruct least; [| discriminate]. intros Hk. exists 0%nat.
      rewrite Nat.add_0_r. cbn. split; [lia |]. split; [constructor | exact Hk].
    + intros (n & Hn & _ & Hk). cbn in Hn.
      assert (n = 0%nat) as -> by lia. assert (least = 0%nat) as -> by lia.
      rewrite Nat.add_0_r in Hk. exact Hk.
  - rewrite orb_true_iff, andb_true_iff, IH. split.
    + intros [(Hc & n & Hn & Hall & Hk) | Hk].
      * exists (S n). cbn [length take drop]. split; [lia |].
        split; [constructor; assumption |].
        replace (i + S n)%nat with (S i + n)%nat by lia. exact Hk.
      * destruct least; [| discriminate]. exists 0%nat.
        rewrite Nat.add_0_r. cbn [take drop length].
        split; [lia |]. split; [constructor | exact Hk].
    + intros (n & Hn & Hall & Hk). destruct n as [|n].
      * right. assert (least = 0%nat) as -> by lia.
        rewrite Nat.add_0_r in Hk. exact Hk.
      * left. cbn [take drop length] in *. apply Forall_cons in Hall as (Hc & Hall).
        split; [exact Hc |]. exists n. split; [lia |]. split; [exact Hall |].
        replace (S i + n)%nat with (i + S n)%nat by lia. exact Hk.
Qed.

Lemma search_anchored q i s :
  search (Then Bol q) (S i) s = false.
Proof.
  revert i. induction s as [|c s IH]; intros i; cbn; [reflexivity | apply IH].
Qed.

Lemma test_anchored q s :
  test (Then Bol q) s = run q 0 s (fun _ _ => true).
Proof.
  unfold test. destruct s as [|c s]; cbn [search run Nat.eqb andb].
  - apply orb_false_r.
  - rewrite search_anchored. apply orb_false_r.
Qed.

(** The whole rest of the input, at least [least] code units of a
    class. *)
Lemma run_to_the_end cls least i s :
  run (Then (AtLeast least cls) Eol) i s (fun _ _ => true) = true <->
  (least <= length s)%nat /\ Forall (fun c => cls c = true) s.
Proof.
  cbn [run]. rewrite at_least_spec. split.
  - intros (n & Hn & Hall & Hend).
    destruct (drop n s) eqn:Hd; [| discriminate].
    assert (length (drop n s) = 0%nat) as Hlen by (rewrite Hd; reflexivity).
    rewrite length_drop in Hlen.
    rewrite take_ge in Hall by lia. split; [lia | exact Hall].
  - intros (Hn & Hall). exists (length s).
    rewrite take_ge, drop_ge by lia. split; [lia |]. split; [exact Hall | reflexivity].
Qed.

Lemma run_somewhere cls i s k :
  Forall (fun c => any_char c = true) s ->
  run (somewhere cls) i s k = true <->
  Exists (fun c => cls c = true) s /\ k i s = true.
Proof.
  intros Hany. unfold somewhere. cbn [run].
  rewrite andb_true_iff, at_least_spec.
  apply and_iff_compat_r. split.
  - intros (n & _ & _ & Hc).
    destruct (drop n s) as [|c t] eqn:Hd; [discriminate |].
    apply andb_true_iff in Hc as (Hc & _).
    apply Exists_exists. exists c. split; [| exact Hc].
    rewrite <- (take_drop n s), Hd. apply elem_of_app. right. left.
  - intros Hex. apply Exists_exists in Hex as (c & Hin & Hc).
    apply list_elem_of_lookup in Hin as (n & Hn).
    exists n. split; [pose proof (lookup_lt_Some _ _ _ Hn); lia |]. split.
    + apply Forall_take. exact Hany.
    + rewrite (drop_S _ _ _ Hn). rewrite Hc. reflexivity.
Qed.

Lemma passwordRegex_test s :
  test passwordRegex s = true <->
  (8 <= length s)%nat /\
  Forall (fun c => LineTerminator c = false) s /\
  Exists (fun c => lower c = true) s /\
  Exists (fun c => upper c = true) s /\
  Exists (fun c => digit c = true) s /\
  Exists (fun c => special c = true) s.
Proof.
  unfold passwordRegex. rewrite test_anchored.
  assert (Forall (fun c => any_char c = true) s <->
          Forall (fun c => LineTerminator c = false) s) as Hany.
  { apply Forall_iff. intros c. unfold any_char. apply negb_true_iff. }
  split.
  - intros H.
    assert (Forall (fun c => any_char c = true) s /\ (8 <= length s)%nat) as (Hall & Hlen).
    { cbn [run somewhere] in H.
      repeat (apply andb_true_iff in H as (_ & H)).
      apply (run_to_the_end any_char 8 0 s) in H. tauto. }
    cbn [run] in H.
    rewrite (run_somewhere lower 0 s _ Hall) in H. destruct H as (H1 & H).
    rewrite (run_somewhere upper 0 s _ Hall) in H. destruct H as (H2 & H).
    rewrite (run_somewhere digit 0 s _ Hall) in H. destruct H as (H3 & H).
    rewrite (run_somewhere special 0 s _ Hall) in H. destruct H as (H4 & _).
    rewrite <- Hany. tauto.
  - intros (Hlen & Hall & H1 & H2 & H3 & H4). apply Hany in Hall.
    cbn [run].
    rewrite (run_somewhere lower 0 s _ Hall). split; [exact H1 |].
    rewrite (run_somewhere upper 0 s _ Hall). split; [exact H2 |].
    rewrite (run_somewhere digit 0 s _ Hall). split; [exact H3 |].
    rewrite (run_somewhere special 0 s _ Hall). split; [exact H4 |].
    apply (run_to_the_end any_char 8 0 s). tauto.
Qed.

Lemma nameRegex_test s :
  test nameRegex s = true <-> s <> [] /\ Forall (fun c => name_char c = true) s.
Proof.
  unfold nameRegex. rewrite test_anchored.
  rewrite (run_to_the_end name_char 1 0 s).
  destruct s; cbn [length]; split; intros (H1 & H2); split;
    try lia; try congruence; try exact H2.
Qed.

Lemma units_length (w : string) : length (units w) = String.length w.
Proof.
  unfold units. rewrite length_map.
  induction w as [|c w IH]; [reflexivity |]. cbn. f_equal. exact IH.
Qed.

(** X22. The password field of [signupSchema] passes exactly the
    strings of at least eight code units, none of them a line
    terminator, that hold a lower-case letter, an upper-case letter, a
    digit and one of the listed special characters; the length check
    never fails alone, a password under eight code units is reported
    with both messages. *)
Theorem password_field_accepts (w : string) :
  (AuthSchemas.password_field (Some w) = [] <->
   (8 <= String.length w)%nat /\
   Forall (fun c => LineTerminator c = false) (units w) /\
   Exists (fun c => lower c = true) (units w) /\
   Exists (fun c => upper c = true) (units w) /\
   Exists (fun c => digit c = true) (units w) /\
   Exists (fun c => special c = true) (units w)) /\
  ((String.length w < 8)%nat ->
   AuthSchemas.password_field (Some w)
   = [ "Password must be at least 8 characters";
       "Password must contain at least one uppercase letter, one lowercase letter, one number, and one special character" ]%string).
Proof.
  pose proof (passwordRegex_test (units w)) as Hre. rewrite units_length in Hre.
  unfold AuthSchemas.password_field, Zod.required. cbn [flat_map app].
  unfold Zod.min, Zod.regex.
  destruct (test passwordRegex (units w)) eqn:Ht.
  - assert (8 <= String.length w)%nat as Hlen by (apply Hre; reflexivity).
    destruct (Nat.ltb_spec (String.length w) 8) as [Hlt | _]; [lia |].
    split; [| lia]. split; [intros _; apply Hre; reflexivity | reflexivity].
  - split.
    + split; [destruct (String.length w <? 8)%nat; discriminate |].
      intros H. apply Hre in H. discriminate.
    + intros Hlt. destruct (Nat.ltb_spec (String.length w) 8); [reflexivity | lia].
Qed.

(** X23. The name field of [signupSchema] passes exactly the non-empty
    strings of letters A to Z, a to z and white space: a name of blanks
    or line breaks alone passes, and the empty name is reported with
    both messages. *)
Theorem name_field_accepts (w : string) :
  (AuthSchemas.name_field (Some w) = [] <->
   w <> EmptyString /\ Forall (fun c => name_char c = true) (units w)) /\
  (w <> EmptyString -> Forall (fun c => space c = true) (units w) ->
   AuthSchemas.name_field (Some w) = []) /\
  AuthSchemas.name_field (Some EmptyString)
  = [ "Name is required"; "Name must contain only alphabets and spaces" ]%string.
Proof.
  assert (AuthSchemas.name_field (Some w) = [] <->
          w <> EmptyString /\ Forall (fun c => name_char c = true) (units w)) as Hiff.
  { pose proof (nameRegex_test (units w)) as Hre.
    assert (units w <> [] <-> w <> EmptyString) as Hne
      by (destruct w; cbn; split; congruence).
    rewrite Hne in Hre.
    unfold AuthSchemas.name_field, Zod.required. cbn [flat_map app].
    unfold Zod.min, Zod.regex.
    destruct (test nameRegex (units w)) eqn:Ht.
    - assert (w <> EmptyString) as Hw by (apply Hre; reflexivity).
      destruct w as [|c w]; [congruence |]. cbn [String.length Nat.ltb Nat.leb].
      split; [intros _; apply Hre; reflexivity | reflexivity].
    - split; [destruct (String.length w <? 1)%nat; discriminate |].
      intros H. apply Hre in H. discriminate. }
  split; [exact Hiff |]. split; [| reflexivity].
  intros Hw Hsp. apply Hiff. split; [exact Hw |].
  eapply Forall_impl; [exact Hsp |].
  intros c Hc. unfold name_char. rewrite Hc. apply orb_true_r.
Qed.
End RegExpFacts.

(** ** Validated routes *)
Section SchemaFacts.
Import Http.
Implicit Types (isEmail : string -> bool) (invalid : string -> string)
  (hash : string -> string) (verify : string -> option AuthMiddleware.Claims)
  (rows : list Articles.Row) (users : list Accounts.Account).

Lemma enum_nil (values : list string) invalid (w : string) :
  Zod.enum values invalid w = [] <-> In w values.
Proof.
  unfold Zod.enum. destruct (existsb (String.eqb w) values) eqn:E.
  - split; [intros _ | reflexivity].
    apply existsb_exists in E as (x & Hin & Heq). apply String.eqb_eq in Heq.
    subst x. exact Hin.
  - split; [discriminate |]. intros Hin. exfalso.
    assert (existsb (String.eqb w) values = true); [| congruence].
    apply existsb_exists. exists w. split; [exact Hin | apply String.eqb_refl].
Qed.

Lemma signupSchema_inr isEmail invalid (b : AuthSchemas.SignupBody) data :
  AuthSchemas.signupSchema isEmail invalid b = inr data <->
  exists n e p r,
    b = AuthSchemas.mkSignupBody (Some n) (Some e) (Some p) (Some r) /\
    data = Accounts.mkSignup n e p r /\
    AuthSchemas.name_field (Some n) = [] /\ isEmail e = true /\
    AuthSchemas.password_field (Some p) = [] /\
    (r = "author"%string \/ r = "reader"%string).
Proof.
  assert (forall r, AuthSchemas.role_field invalid (Some r) = [] <->
                    r = "author"%string \/ r = "reader"%string) as Hrole.
  { intros r. unfold AuthSchemas.role_field, Zod.required. cbn [flat_map].
    rewrite app_nil_r, enum_nil. cbn [In]. intuition congruence. }
  assert (forall e, AuthSchemas.email_field isEmail (Some e) = [] <-> isEmail e = true)
    as Hemail.
  { intros e. unfold AuthSchemas.email_field, Zod.required, Zod.email. cbn [flat_map].
    destruct (isEmail e); cbn; split; congruence. }
  unfold AuthSchemas.signupSchema.
  destruct b as [[n|] [e|] [p|] [r|]];
    cbn [AuthSchemas.body_name AuthSchemas.body_email AuthSchemas.body_password
         AuthSchemas.body_role];
    try (split;
         [ destruct (_ ++ _); discriminate
         | intros (n' & e' & p' & r' & [=] & _) ]).
  specialize (Hrole r). specialize (Hemail e).
  destruct (AuthSchemas.name_field (Some n)) as [|x1 l1] eqn:H1;
    [| split; [discriminate
              | intros (? & ? & ? & ? & [= <- <- <- <-] & _ & ? & _); congruence]].
  destruct (AuthSchemas.email_field isEmail (Some e)) as [|x2 l2] eqn:H2;
    [| split; [discriminate
              | intros (? & ? & ? & ? & [= <- <- <- <-] & _ & _ & He & _);
                apply Hemail in He; discriminate]].
  destruct (AuthSchemas.password_field (Some p)) as [|x3 l3] eqn:H3;
    [| split; [discriminate
              | intros (? & ? & ? & ? & [= <- <- <- <-] & _ & _ & _ & ? & _);
                congruence]].
  destruct (AuthSchemas.role_field invalid (Some r)) as [|x4 l4] eqn:H4;
    [| split; [discriminate
              | intros (? & ? & ? & ? & [= <- <- <- <-] & _ & _ & _ & _ & Hr);
                apply Hrole in Hr; discriminate]].
  cbn [app]. split.
  - intros [= <-]. exists n, e, p, r. repeat split; tauto.
  - intros (? & ? & ? & ? & [= <- <- <- <-] & -> & _). reflexivity.
Qed.

(** X24. [POST /auth/signup] answers 201, 400, 409 or 500, and 400
    exactly when the schema rejects the body.  Only a 201 changes the
    user table: it adds one account whose name, address and password
    passed the checks of the schema, whose role is author or reader,
    whose address was not in the table, and which stores the hash of
    the password. *)
Theorem signup_route_outcomes isEmail invalid hash (queryFails : bool) users
    (b : AuthSchemas.SignupBody) (newId : string) (now : Z) :
  let reply := fst (AuthSchemas.POST_signup isEmail invalid hash queryFails users b
                                            newId now) in
  let users' := snd (AuthSchemas.POST_signup isEmail invalid hash queryFails users b
                                             newId now) in
  In (statusCode reply) [201; 400; 409; 500]%nat /\
  (statusCode reply <> 201%nat -> users' = users) /\
  (statusCode reply = 400%nat <->
   exists errors, AuthSchemas.signupSchema isEmail invalid b = inl errors) /\
  (statusCode reply = 201%nat ->
   exists n e p r,
     b = AuthSchemas.mkSignupBody (Some n) (Some e) (Some p) (Some r) /\
     users' = users ++ [Accounts.mkAccount newId n e (hash p) r now] /\
     AuthSchemas.name_field (Some n) = [] /\ isEmail e = true /\
     AuthSchemas.password_field (Some p) = [] /\
     (r = "author"%string \/ r = "reader"%string) /\
     ~ In e (map Accounts.email users)).
Proof.
  intros reply users'. subst reply users'.
  unfold AuthSchemas.POST_signup, Zod.validate.
  destruct (AuthSchemas.signupSchema isEmail invalid b) as [errors | data] eqn:Hs;
    cbn [fst snd].
  { cbn. repeat split; try tauto; try discriminate; eauto. }
  apply signupSchema_inr in Hs as (n & e & p & r & -> & -> & Hn & He & Hp & Hr).
  unfold AuthSchemas.AuthController_signup.
  destruct queryFails; cbn [fst snd].
  { cbn. repeat split; try tauto; try discriminate. intros (? & ?). discriminate. }
  unfold Accounts.signup. cbn [Accounts.signup_email].
  destruct (Accounts.findUnique users e) as [u|] eqn:Hf; cbn [fst snd].
  { cbn. repeat split; try tauto; try discriminate. intros (? & ?). discriminate. }
  cbn. repeat split; try tauto; try discriminate.
  - intros (? & ?). discriminate.
  - intros _. exists n, e, p, r. repeat split; try assumption.
    apply findUnique_None. exact Hf.
Qed.

Lemma min_nil n message (w : string) :
  Zod.min n message w = [] <-> (n <= String.length w)%nat.
Proof.
  unfold Zod.min. destruct (Nat.ltb_spec (String.length w) n); split;
    try discriminate; try reflexivity; lia.
Qed.

Lemma max_nil n message (w : string) :
  Zod.max n message w = [] <-> (String.length w <= n)%nat.
Proof.
  unfold Zod.max. destruct (Nat.ltb_spec n (String.length w)); split;
    try discriminate; try reflexivity; lia.
Qed.

Lemma status_field_nil invalid (v : option string) :
  ArticleSchemas.status_field invalid v = [] ->
  forall w, v = Some w -> w = "Draft"%string \/ w = "Published"%string.
Proof.
  intros H w ->. unfold ArticleSchemas.status_field, Zod.optional in H.
  cbn [flat_map] in H. rewrite app_nil_r in H. apply enum_nil in H.
  cbn [In] in H. intuition congruence.
Qed.

Lemma createArticleSchema_inr invalid (b : ArticleSchemas.ArticleBody) data :
  ArticleSchemas.createArticleSchema invalid b = inr data ->
  (1 <= String.length (Articles.create_title data) <= 150)%nat /\
  (50 <= String.length (Articles.create_content data))%nat /\
  (1 <= String.length (Articles.create_category data))%nat /\
  exists w, Articles.create_status data = Some w /\
            (w = "Draft"%string \/ w = "Published"%string).
Proof.
  unfold ArticleSchemas.createArticleSchema.
  destruct b as [[t|] [c|] [g|] st];
    cbn [ArticleSchemas.body_title ArticleSchemas.body_content
         ArticleSchemas.body_category ArticleSchemas.body_status];
    try (destruct (_ ++ _); discriminate).
  unfold Zod.required. cbn [flat_map]. rewrite !app_nil_r.
  destruct (Zod.min 1 "Title is required" t) eqn:H1; [| discriminate].
  destruct (Zod.max 150 "Title must be at most 150 characters" t) eqn:H2;
    [| discriminate].
  destruct (Zod.min 50 "Content must be at least 50 characters" c) eqn:H3;
    [| discriminate].
  destruct (Zod.min 1 "Category is required" g) eqn:H4; [| discriminate].
  destruct (ArticleSchemas.status_field invalid st) eqn:H5; [| discriminate].
  cbn [app]. intros [= <-]. cbn.
  apply min_nil in H1, H3, H4. apply max_nil in H2.
  repeat split; try lia. eexists. split; [reflexivity |].
  destruct st as [w|]; cbn; [| tauto].
  exact (status_field_nil invalid (Some w) H5 w eq_refl).
Qed.

Lemma updateArticleSchema_inr invalid (b : ArticleSchemas.ArticleBody) data :
  ArticleSchemas.updateArticleSchema invalid b = inr data ->
  (forall w, Articles.update_title data = Some w ->
             (1 <= String.length w <= 150)%nat) /\
  (forall w, Articles.update_content data = Some w -> (50 <= String.length w)%nat) /\
  (forall w, Articles.update_category data = Some w -> (1 <= String.length w)%nat) /\
  (forall w, Articles.update_status data = Some w ->
             w = "Draft"%string \/ w = "Published"%string).
Proof.
  unfold ArticleSchemas.updateArticleSchema.
  destruct (_ ++ _) eqn:Hissues; [| discriminate]. intros [= <-].
  apply app_eq_nil in Hissues as (H1 & Hissues).
  apply app_eq_nil in Hissues as (H2 & Hissues).
  apply app_eq_nil in Hissues as (H3 & H4).
  cbn [Articles.update_title Articles.update_content Articles.update_category
       Articles.update_status].
  split; [| split; [| split]].
  - intros w Hw. rewrite Hw in H1. unfold Zod.optional in H1. cbn [flat_map] in H1.
    rewrite app_nil_r in H1. apply app_eq_nil in H1 as (Ha & Hb).
    apply min_nil in Ha. apply max_nil in Hb. lia.
  - intros w Hw. rewrite Hw in H2. unfold Zod.optional in H2. cbn [flat_map] in H2.
    rewrite app_nil_r in H2. apply min_nil in H2. exact H2.
  - intros w Hw. rewrite Hw in H3. unfold Zod.optional in H3. cbn [flat_map] in H3.
    rewrite app_nil_r in H3. apply min_nil in H3. exact H3.
  - exact (status_field_nil invalid _ H4).
Qed.

Lemma update_where_id_Forall (P : Articles.Row -> Prop) rows articleId g :
  (forall r, P r -> P (g r)) -> Forall P rows ->
  Forall P (Articles.update_where_id rows articleId g).
Proof.
  intros Hg Hall. unfold Articles.update_where_id. apply Forall_fmap.
  eapply Forall_impl; [exact Hall |]. intros r Hr. cbn.
  destruct (bool_decide _); auto.
Qed.

(** X25. The table keeps what the schemas ask: if every stored article
    has a title of 1 to 150 characters, a content of at least 50, a
    category and the status Draft or Published, then so has every
    article after a [POST /articles], a [PUT /articles/:id] or a
    [DELETE /articles/:id], whatever the header and the body. *)
Theorem stored_articles_keep_schema verify invalid (authorization : option string)
    (b : ArticleSchemas.ArticleBody) (queryFails : bool) rows
    (articleId newId : string) (now : Z) :
  Forall ArticleSchemas.stored_ok rows ->
  Forall ArticleSchemas.stored_ok
    (snd (ArticleSchemas.POST_article verify invalid authorization b queryFails rows
                                      newId now)) /\
  Forall ArticleSchemas.stored_ok
    (snd (ArticleSchemas.PUT_article verify invalid authorization b queryFails rows
                                     articleId)) /\
  Forall ArticleSchemas.stored_ok
    (snd (Articles.DELETE_article verify authorization queryFails rows articleId now)).
Proof.
  intros Hrows.
  unfold ArticleSchemas.POST_article, ArticleSchemas.PUT_article,
    Articles.DELETE_article.
  destruct (AuthMiddleware.guarded verify ["author"%string] authorization)
    as [[user|] | r]; cbn [snd]; [| tauto | tauto].
  split; [| split].
  - unfold Zod.validate, ArticleSchemas.ArticleController_create.
    destruct (ArticleSchemas.createArticleSchema invalid b) as [errors | data] eqn:Hs;
      [exact Hrows |].
    destruct queryFails; [exact Hrows |]. cbn [snd Articles.create].
    apply Forall_app. split; [exact Hrows |]. constructor; [| constructor].
    apply createArticleSchema_inr in Hs as (Ht & Hc & Hg & w & Hw & Hst).
    unfold ArticleSchemas.stored_ok.
    cbn [Articles.title Articles.content Articles.category Articles.status].
    rewrite Hw. unfold or_else.
    split; [exact Ht |]. split; [exact Hc |]. split; [exact Hg |].
    destruct Hst as [-> | ->]; cbn; tauto.
  - unfold Zod.validate, Articles.ArticleController_update.
    destruct (ArticleSchemas.updateArticleSchema invalid b) as [errors | data] eqn:Hs;
      [exact Hrows |].
    destruct queryFails; [exact Hrows |].
    unfold Articles.update.
    destruct (Articles.find_live rows articleId) as [r|]; [| exact Hrows].
    destruct (negb _); [exact Hrows |]. cbn [snd].
    apply update_where_id_Forall; [| exact Hrows].
    apply updateArticleSchema_inr in Hs as (Ht & Hc & Hg & Hst).
    intros x (Hxt & Hxc & Hxg & Hxs). unfold ArticleSchemas.stored_ok, Articles.apply_update.
    cbn [Articles.title Articles.content Articles.category Articles.status].
    split; [| split; [| split]].
    + destruct (Articles.update_title data) as [w|]; cbn; [apply Ht; reflexivity | exact Hxt].
    + destruct (Articles.update_content data) as [w|]; cbn;
        [apply Hc; reflexivity | exact Hxc].
    + destruct (Articles.update_category data) as [w|]; cbn;
        [apply Hg; reflexivity | exact Hxg].
    + destruct (Articles.update_status data) as [w|]; cbn;
        [apply Hst; reflexivity | exact Hxs].
  - unfold Articles.ArticleController_delete.
    destruct queryFails; [exact Hrows |]. unfold Articles.softDelete.
    destruct (Articles.find_live rows articleId) as [r|]; [| exact Hrows].
    destruct (negb _); [exact Hrows |]. cbn [snd].
    apply update_where_id_Forall; [| exact Hrows].
    intros x Hx. exact Hx.
Qed.

(** X26. [GET /articles] with a [page] and a [pageSize] that are
    absent, not numbers or not negative is answered: the page number
    and the page size it reports are at least 1, an absent or zero
    [page] counts as 1 and an absent or zero [pageSize] as 10, and the
    page holds at most [PageSize] articles.  A second request with the
    reported numbers is answered with the same numbers and total and
    with as many articles, and with the same articles when no two
    matching rows have the same [createdAt]. *)
Theorem feed_route_defaults (tie tie' : Articles.Row -> Z) contains_i
    (authors : list Articles.Author) rows
    (query_page query_pageSize : option Z) (category byAuthor q : option string) :
  (forall n, query_page = Some n -> 0 <= n) ->
  (forall n, query_pageSize = Some n -> 0 <= n) ->
  exists pg pg',
    Pages.ArticleController_getPublicFeed tie contains_i authors rows query_page
      query_pageSize category byAuthor q = Some pg /\
    1 <= Pages.PageNumber pg /\ 1 <= Pages.PageSize pg /\
    (query_page = None \/ query_page = Some 0 -> Pages.PageNumber pg = 1) /\
    (query_pageSize = None \/ query_pageSize = Some 0 -> Pages.PageSize pg = 10) /\
    (length (Pages.Object pg) <= Z.to_nat (Pages.PageSize pg))%nat /\
    Pages.ArticleController_getPublicFeed tie' contains_i authors rows
      (Some (Pages.PageNumber pg)) (Some (Pages.PageSize pg)) category byAuthor q
    = Some pg' /\
    Pages.PageNumber pg' = Pages.PageNumber pg /\
    Pages.PageSize pg' = Pages.PageSize pg /\
    Pages.TotalSize pg' = Pages.TotalSize pg /\
    length (Pages.Object pg') = length (Pages.Object pg) /\
    (NoDup (map Articles.createdAt
                (List.filter
                   (Articles.feed_where contains_i authors category byAuthor q) rows)) ->
     pg' = pg).
Proof.
  intros Hp Hs.
  assert (1 <= Pages.or_number query_page 1) as Hpage.
  { unfold Pages.or_number. destruct query_page as [n|]; [| lia].
    specialize (Hp n eq_refl). destruct (Z.eqb_spec n 0); lia. }
  assert (1 <= Pages.or_number query_pageSize 10) as Hsize.
  { unfold Pages.or_number. destruct query_pageSize as [n|]; [| lia].
    specialize (Hs n eq_refl). destruct (Z.eqb_spec n 0); lia. }
  assert (forall n, 1 <= n -> Pages.or_number (Some n) 1 = n
                             /\ Pages.or_number (Some n) 10 = n) as Hsame.
  { intros n Hn. unfold Pages.or_number. destruct (Z.eqb_spec n 0); [lia | tauto]. }
  unfold Pages.ArticleController_getPublicFeed, Articles.getPublicFeed,
    Articles.skip_take.
  set (page := Pages.or_number query_page 1) in *.
  set (pageSize := Pages.or_number query_pageSize 10) in *.
  set (matching := List.filter _ rows).
  replace (0 <=? (page - 1) * pageSize) with true by (symmetry; apply Z.leb_le; nia).
  replace (0 <=? pageSize) with true by (symmetry; apply Z.leb_le; lia).
  cbn [andb]. eexists. eexists. split; [reflexivity |].
  cbn [Pages.PageNumber Pages.PageSize Pages.Object Pages.TotalSize].
  rewrite (proj1 (Hsame _ Hpage)), (proj2 (Hsame _ Hsize)).
  replace (0 <=? (page - 1) * pageSize) with true by (symmetry; apply Z.leb_le; nia).
  replace (0 <=? pageSize) with true by (symmetry; apply Z.leb_le; lia).
  cbn [andb].
  split; [exact Hpage |]. split; [exact Hsize |].
  split; [subst page; intros [-> | ->]; reflexivity |].
  split; [subst pageSize; intros [-> | ->]; reflexivity |].
  split; [rewrite length_take; lia |].
  split; [reflexivity |].
  cbn [Pages.PageNumber Pages.PageSize Pages.Object Pages.TotalSize].
  split; [reflexivity |]. split; [reflexivity |]. split; [reflexivity |].
  split.
  - rewrite !length_take, !length_drop. unfold Articles.newest_first.
    rewrite !merge_sort_Permutation. reflexivity.
  - intros Hnd. rewrite (newest_first_unique tie' tie matching Hnd). reflexivity.
Qed.

(** X27. Every error reply carries a non-empty [Errors] list, the
    given one or else the message; [errorHandler] always answers 500
    with a non-empty message and, in production, with a reply that does
    not depend on the error. *)
Theorem error_replies_carry_errors :
  (forall code message errors,
     Success (sendError code message errors) = false /\
     exists l, Errors (sendError code message errors) = Some l /\ l <> [] /\
               (errors <> [] -> l = errors) /\ (errors = [] -> l = [message])) /\
  (forall NODE_ENV err_message,
     statusCode (Pages.errorHandler NODE_ENV err_message) = 500%nat /\
     Message (Pages.errorHandler NODE_ENV err_message) <> EmptyString /\
     Errors (Pages.errorHandler NODE_ENV err_message)
     = Some ["An unexpected error occurred"%string]) /\
  (forall err_message other,
     Pages.errorHandler (Some "production"%string) err_message
     = Pages.errorHandler (Some "production"%string) other).
Proof.
  split; [| split].
  - intros code message errors. split; [reflexivity |].
    unfold sendError. cbn [Errors].
    destruct errors as [|e errors]; cbn [length Nat.ltb Nat.leb].
    + eexists. split; [reflexivity |]. repeat split; congruence.
    + eexists. split; [reflexivity |]. repeat split; congruence.
  - intros NODE_ENV err_message. unfold Pages.errorHandler, sendError.
    cbn [statusCode Message Errors length Nat.ltb Nat.leb].
    split; [reflexivity |]. split; [| reflexivity].
    destruct (bool_decide _); [discriminate |].
    unfold or_else. destruct (bool_decide (err_message = EmptyString)) eqn:E;
      [discriminate |].
    apply bool_decide_eq_false_1 in E. exact E.
  - intros err_message other. unfold Pages.errorHandler.
    rewrite bool_decide_eq_true_2 by reflexivity. reflexivity.
Qed.
End SchemaFacts.

(** ** More instances *)
Section MoreInstances.
Import Samples.

(** The dashboard of author-1 after a full run over the sample logs. *)
Lemma dashboard_counts_reads_witness :
  plain_ids logs /\
  exists entries total,
    Articles.getAuthorDashboard Newsroom.as_stored Newsroom.rows
      (table (fst (runAggregationNow (fresh_realm true) no_faults logs ∅)))
      "author-1" 1 10
    = Some (entries, total) /\
    length entries = 3%nat /\
    Forall (fun e => Articles.entry_TotalViews e
                     = count_article (Articles.entry_id e) logs) entries.
Proof.
  assert (plain_ids logs) as H0 by (repeat constructor).
  split; [exact H0 |].
  destruct (Articles.getAuthorDashboard Newsroom.as_stored Newsroom.rows
              (table (fst (runAggregationNow (fresh_realm true) no_faults logs ∅)))
              "author-1" 1 10)
    as [[entries total]|] eqn:H; [| vm_compute in H; discriminate].
  exists entries, total. split; [reflexivity |]. split.
  - vm_compute in H. injection H as <- _. reflexivity.
  - exact (dashboard_counts_reads (fresh_realm true) Newsroom.as_stored Newsroom.rows
             logs "author-1" 1 10 entries total eq_refl H0 H).
Defined.

(** The rows a full run over the sample logs leaves in a fresh
    realm. *)
Lemma full_run_reports_rows_witness :
  plain_ids logs /\
  Forall (fun log => 0 <= readAt log) logs /\
  outcome (fst (runAggregationNow (fresh_realm true) no_faults logs ∅)) = Complete 3 /\
  table (fst (runAggregationNow (fresh_realm true) no_faults logs ∅))
    !! ("news-a", 1704067200000) = Some 2%nat.
Proof.
  assert (plain_ids logs) as H0 by (repeat constructor).
  assert (Forall (fun log => 0 <= readAt log) logs) as H1
    by (repeat constructor; vm_compute; discriminate).
  split; [exact H0 |]. split; [exact H1 |].
  destruct (full_run_reports_rows (fresh_realm true) logs eq_refl H0 H1)
    as (Hout & _ & _).
  split; [| vm_compute; reflexivity].
  rewrite Hout. vm_compute. reflexivity.
Defined.

(** A full run over the first two sample logs, then one over all
    four. *)
Lemma full_run_catches_up_witness :
  plain_ids (take 2 logs ++ drop 2 logs) /\
  table (fst (runAggregationNow
                (snd (runAggregationNow (fresh_realm true) no_faults (take 2 logs) ∅))
                no_faults (take 2 logs ++ drop 2 logs)
                (table (fst (runAggregationNow (fresh_realm true) no_faults
                               (take 2 logs) ∅)))))
  = table (fst (runAggregationNow (fresh_realm true) no_faults
                  (take 2 logs ++ drop 2 logs) ∅)).
Proof.
  assert (plain_ids (take 2 logs ++ drop 2 logs)) as H0 by (repeat constructor).
  split; [exact H0 |].
  exact (full_run_catches_up (fresh_realm true) (take 2 logs) (drop 2 logs) eq_refl H0).
Defined.

(** Three reads of one reader within eleven seconds: two admissions. *)
Lemma admissions_rate_bound_witness :
  0 < 1000 /\
  clock_ok 1000 (map snd Newsroom.three_reads ++ [12000]) /\
  Tracking.admissions_under (key_of reader_request) initial Newsroom.three_reads
  = 2%nat /\
  Z.of_nat (Tracking.admissions_under (key_of reader_request) initial
              Newsroom.three_reads)
  <= 1 + (12000 - 1000) / 10001.
Proof.
  assert (0 < 1000) as H1 by lia.
  assert (clock_ok 1000 (map snd Newsroom.three_reads ++ [12000])) as H2
    by (simpl; lia).
  split; [exact H1 |]. split; [exact H2 |].
  split; [vm_compute; reflexivity |].
  exact (admissions_rate_bound (key_of reader_request) Newsroom.three_reads
           1000 12000 H1 H2).
Defined.

(** The header of author-1 is verified as sent. *)
Lemma bearer_token_is_verified_witness :
  Forall (fun c => c <> " "%char) (list_ascii_of_string "token-author-1") /\
  AuthMiddleware.authenticate Newsroom.verify (Some "Bearer token-author-1"%string)
  = AuthMiddleware.Next (Some (mkUser "author-1" "author")) /\
  AuthMiddleware.optionalAuth Newsroom.verify (Some "Bearer token-author-1"%string)
  = AuthMiddleware.Next (Some (mkUser "author-1" "author")).
Proof.
  assert (Forall (fun c => c <> " "%char) (list_ascii_of_string "token-author-1"))
    as H1 by (repeat constructor; discriminate).
  split; [exact H1 |].
  exact (bearer_token_is_verified Newsroom.verify "token-author-1" EmptyString H1
           (or_introl eq_refl)).
Defined.

(** A caller without a header and one with a forged token, five
    seconds apart on one article: one read log. *)
Lemma unverified_readers_share_guest_slot_witness :
  AuthMiddleware.decoded Newsroom.verify (Some "Bearer forged"%string) = None /\
  fst (AuthMiddleware.tracked_read Newsroom.verify None "news-a" "10.0.0.1"
         initial 1000) = true /\
  fst (AuthMiddleware.tracked_read Newsroom.verify (Some "Bearer forged"%string)
         "news-a" "10.0.0.2"
         (snd (AuthMiddleware.tracked_read Newsroom.verify None "news-a" "10.0.0.1"
                 initial 1000)) 6000) = false.
Proof.
  assert (AuthMiddleware.decoded Newsroom.verify (Some "Bearer forged"%string) = None)
    as H2 by reflexivity.
  assert (fst (AuthMiddleware.tracked_read Newsroom.verify None "news-a" "10.0.0.1"
                 initial 1000) = true) as H5 by reflexivity.
  assert (0 < 1000) as H3 by lia.
  assert (6000 - 1000 <= 10000) as H4 by lia.
  split; [exact H2 |]. split; [exact H5 |].
  exact (proj1 (unverified_readers_share_guest_slot Newsroom.verify
                  None (Some "Bearer forged"%string) "news-a" "10.0.0.1" "10.0.0.2"
                  initial 1000 6000 (or_introl eq_refl) (or_intror H2) H3 H4 H5)).
Defined.

(** After author-1 has deleted news-a, a read of it is answered 410
    and an update of it 404. *)
Lemma deleted_article_is_gone_witness :
  Articles.softDelete Newsroom.rows "news-a" "author-1" 5000
  = (inr tt, snd (Articles.softDelete Newsroom.rows "news-a" "author-1" 5000)) /\
  Articles.GET_article (snd (Articles.softDelete Newsroom.rows "news-a" "author-1" 5000))
    initial (mkRequest "news-a" None "10.0.0.1") 6000
  = (mkResponse 410 "News article no longer available", initial) /\
  fst (Articles.update (snd (Articles.softDelete Newsroom.rows "news-a" "author-1" 5000))
         "news-a" "author-1" (Articles.mkUpdate (Some "Budget"%string) None None None))
  = inl (Http.mkServiceError "Article not found" 404).
Proof.
  assert (Articles.softDelete Newsroom.rows "news-a" "author-1" 5000
          = (inr tt, snd (Articles.softDelete Newsroom.rows "news-a" "author-1" 5000)))
    as H by reflexivity.
  split; [exact H |].
  destruct (deleted_article_is_gone Newsroom.rows _ "news-a" "author-1" 5000 H)
    as (Hupdate & _ & Hget & _).
  split.
  - apply Hget. reflexivity.
  - rewrite Hupdate. reflexivity.
Defined.

(** The first page of two of the public feed: news-d, then news-b. *)
Lemma feed_page_published_live_witness :
  exists articles total,
    Articles.getPublicFeed Newsroom.by_title_length Newsroom.opens_with
                           Newsroom.authors Newsroom.rows 1 2 None None None
    = Some (articles, total) /\
    map Articles.id articles = ["news-d"; "news-b"]%string /\ total = 3%nat /\
    Forall (fun r => In r Newsroom.rows /\ Articles.status r = "Published"%string /\
                     Articles.deletedAt r = None) articles /\
    StronglySorted Articles.not_older articles.
Proof.
  destruct (Articles.getPublicFeed Newsroom.by_title_length Newsroom.opens_with
              Newsroom.authors Newsroom.rows 1 2 None None None)
    as [[articles total]|] eqn:H;
    [| vm_compute in H; discriminate].
  exists articles, total. split; [reflexivity |].
  destruct (feed_page_published_live _ _ _ _ _ _ _ _ _ _ _ H) as (Hlive & Hsorted & _).
  vm_compute in H. injection H as <- <-.
  split; [reflexivity |]. split; [reflexivity |]. split; [exact Hlive | exact Hsorted].
Defined.

(** Two pages of two hold the three published articles, newest
    first. *)
Lemma feed_pages_partition_witness :
  map Articles.id
      (Clients.feed_pages Newsroom.page_orders Newsroom.opens_with Newsroom.authors
                          Newsroom.rows 2 None None None 2)
  = ["news-d"; "news-b"; "news-a"]%string /\
  Clients.feed_pages Newsroom.page_orders Newsroom.opens_with Newsroom.authors
                     Newsroom.rows 2 None None None 2
    ≡ₚ List.filter (Articles.feed_where Newsroom.opens_with Newsroom.authors
                                         None None None) Newsroom.rows /\
  StronglySorted Clients.newer
    (Clients.feed_pages Newsroom.page_orders Newsroom.opens_with Newsroom.authors
                        Newsroom.rows 2 None None None 2).
Proof.
  split; [vm_compute; reflexivity |].
  apply (feed_pages_partition Newsroom.page_orders Newsroom.opens_with
           Newsroom.authors Newsroom.rows 2 None None None 2).
  - lia.
  - apply (bool_decide_unpack _). vm_compute. exact I.
  - vm_compute. lia.
Defined.

(** A new article of author-2, without a status. *)
Lemma created_article_is_owned_witness :
  Articles.status
    (fst (Articles.create Newsroom.rows
            (Articles.mkCreate "Floods" "The river rose overnight." "Weather" None)
            "author-2" "news-e" 9000)) = "Draft"%string /\
  fst (Articles.softDelete
         (snd (Articles.create Newsroom.rows
                 (Articles.mkCreate "Floods" "The river rose overnight." "Weather" None)
                 "author-2" "news-e" 9000))
         "news-e" "author-2" 9500) = inr tt.
Proof.
  assert (forall x, In x Newsroom.rows -> Articles.id x <> "news-e"%string) as Hfresh.
  { intros x Hx. repeat (destruct Hx as [<- | Hx]; [discriminate |]). destruct Hx. }
  destruct (created_article_is_owned Newsroom.rows
              (Articles.mkCreate "Floods" "The river rose overnight." "Weather" None)
              "author-2" "news-e" 9000 Hfresh) as (_ & _ & Hdraft & _ & Hdelete & _).
  split; [apply Hdraft; reflexivity | apply Hdelete].
Defined.

(** Bo signs up beside Ada. *)
Lemma signup_keeps_emails_unique_witness :
  NoDup (map Accounts.email Newsroom.users) /\
  NoDup (map Accounts.email
             (snd (Accounts.signup Newsroom.hash Newsroom.users Newsroom.newcomer
                                   "reader-7" 200))) /\
  length (snd (Accounts.signup Newsroom.hash Newsroom.users Newsroom.newcomer
                               "reader-7" 200)) = 2%nat.
Proof.
  assert (NoDup (map Accounts.email Newsroom.users)) as H
    by (apply (bool_decide_unpack _); vm_compute; exact I).
  split; [exact H |]. split; [| reflexivity].
  exact (proj1 (signup_keeps_emails_unique Newsroom.hash Newsroom.users
                  Newsroom.newcomer "reader-7" 200 H)).
Defined.

(** Bo signs up, logs in and passes a route guarded for readers. *)
Lemma signup_then_login_witness :
  (exists u, Accounts.login Newsroom.compare Newsroom.sign
               (snd (Accounts.signup Newsroom.hash Newsroom.users
                       Newsroom.newcomer "reader-7" 200))
               (Accounts.mkLogin "bo@example.org" "Passw0rd!")
             = inr ("token-reader-7"%string, u)) /\
  AuthMiddleware.guarded Newsroom.verify ["reader"%string]
    (Some "Bearer token-reader-7"%string)
  = AuthMiddleware.Next (Some (mkUser "reader-7" "reader")).
Proof.
  assert (Forall (fun c => c <> " "%char) (list_ascii_of_string "token-reader-7"))
    as H3 by (repeat constructor; discriminate).
  destruct (signup_then_login Newsroom.hash Newsroom.compare Newsroom.sign
              Newsroom.verify Newsroom.users Newsroom.newcomer "reader-7" 200
              _ _ eq_refl eq_refl H3 eq_refl) as (Hlogin & Hguard).
  split; [| exact Hguard].
  eexists. exact Hlogin.
Defined.

(** Author-1 posts a valid body on a table of one valid article. *)
Lemma stored_articles_keep_schema_witness :
  Forall ArticleSchemas.stored_ok Newsroom.desk /\
  length (snd (ArticleSchemas.POST_article Newsroom.verify Newsroom.invalid_value
                 (Some "Bearer token-author-1"%string) Newsroom.floods false
                 Newsroom.desk "news-f" 9000)) = 2%nat /\
  Forall ArticleSchemas.stored_ok
    (snd (ArticleSchemas.POST_article Newsroom.verify Newsroom.invalid_value
            (Some "Bearer token-author-1"%string) Newsroom.floods false
            Newsroom.desk "news-f" 9000)).
Proof.
  assert (Forall ArticleSchemas.stored_ok Newsroom.desk) as H.
  { repeat constructor; cbn; lia. }
  split; [exact H |]. split; [reflexivity |].
  exact (proj1 (stored_articles_keep_schema Newsroom.verify Newsroom.invalid_value
                  (Some "Bearer token-author-1"%string) Newsroom.floods false
                  Newsroom.desk "news-a" "news-f" 9000 H)).
Defined.

(** The articles of author-1 and the dashboard, from two queries that
    differ in what the database does with equal [createdAt]. *)
Lemma author_routes_show_own_articles_witness :
  NoDup (map Articles.createdAt
             (List.filter (Articles.mine_where "author-1" false) Newsroom.rows)) /\
  exists articles entries total,
    Articles.getMyArticles Newsroom.as_stored Newsroom.rows "author-1" 1 10 false
    = Some (articles, total) /\
    Articles.getAuthorDashboard Newsroom.by_title_length Newsroom.rows ∅
                                "author-1" 1 10
    = Some (entries, total) /\
    map Articles.id articles = ["news-d"; "news-c"; "news-a"]%string /\
    map Articles.entry_id entries = map Articles.id articles.
Proof.
  assert (NoDup (map Articles.createdAt
                     (List.filter (Articles.mine_where "author-1" false)
                                  Newsroom.rows))) as Hnd
    by (apply (bool_decide_unpack _); vm_compute; exact I).
  split; [exact Hnd |].
  destruct (author_routes_show_own_articles Newsroom.as_stored
              Newsroom.by_title_length Newsroom.rows ∅ "author-1" 1 10 false)
    as (_ & H).
  revert H.
  destruct (Articles.getMyArticles Newsroom.as_stored Newsroom.rows
              "author-1" 1 10 false) as [[articles total]|] eqn:Hm;
    [| vm_compute in Hm; discriminate].
  destruct (Articles.getAuthorDashboard Newsroom.by_title_length Newsroom.rows ∅
              "author-1" 1 10) as [[entries total']|] eqn:Hd;
    [| vm_compute in Hd; discriminate].
  intros (-> & _ & _ & Hsame). specialize (Hsame Hnd).
  exists articles, entries, total.
  split; [reflexivity |]. split; [reflexivity |]. split.
  - vm_compute in Hm. injection Hm as <- _. reflexivity.
  - clear Hm Hd. induction Hsame as [|r e articles entries (Hid & _) _ IH];
      [reflexivity |].
    cbn [map]. rewrite Hid, IH. reflexivity.
Defined.

(** Two articles saved in the same millisecond come in the order the
    database picks for the query. *)
Example same_instant_order_is_open :
  option_map (fun p => map Articles.id (fst p))
    (Articles.getMyArticles Newsroom.as_stored Newsroom.twins "author-1" 1 10 false)
  = Some ["news-x"; "news-y"]%string /\
  option_map (fun p => map Articles.id (fst p))
    (Articles.getMyArticles Newsroom.by_title_length Newsroom.twins "author-1" 1 10 false)
  = Some ["news-y"; "news-x"]%string /\
  option_map (fun p => map Articles.entry_id (fst p))
    (Articles.getAuthorDashboard Newsroom.by_title_length Newsroom.twins ∅
                                 "author-1" 1 10)
  = Some ["news-y"; "news-x"]%string.
Proof. vm_compute. repeat split. Qed.

(** A request for page 0 without a page size gets page 1 of size 10. *)
Lemma feed_route_defaults_witness :
  exists pg,
    Pages.ArticleController_getPublicFeed Newsroom.as_stored Newsroom.opens_with
      Newsroom.authors Newsroom.rows (Some 0) None None None None = Some pg /\
    Pages.PageNumber pg = 1 /\ Pages.PageSize pg = 10 /\
    length (Pages.Object pg) = 3%nat.
Proof.
  assert (forall n, Some 0 = Some n -> 0 <= n) as H1 by (intros n [= <-]; lia).
  assert (forall n, @None Z = Some n -> 0 <= n) as H2 by discriminate.
  destruct (feed_route_defaults Newsroom.as_stored Newsroom.by_title_length
              Newsroom.opens_with Newsroom.authors Newsroom.rows
              (Some 0) None None None None H1 H2)
    as (pg & pg' & Hpg & _ & _ & Hn & Hs & _).
  exists pg. split; [exact Hpg |].
  split; [apply Hn; right; reflexivity |]. split; [apply Hs; left; reflexivity |].
  vm_compute in Hpg. injection Hpg as <-. reflexivity.
Defined.
End MoreInstances.
